(** * pouch pull: rendering of the image-pull progress stream

    A shallow embedding of [cli/pull.go] ([renderOutput] and [display]) and of
    the library calls they make: the token interface of [encoding/json]'s
    [Decoder], [fmt.Errorf], [text/tabwriter] and containerd's
    [progress.Writer].  Go strings are byte strings: a [string] here is the
    list of its bytes, one [ascii] per byte.  [int64] values are [Z] with the
    wrap-around of the Go operators written out. *)

From Stdlib Require Import ZArith List String Ascii Bool Lia.
From Stdlib Require Import Floats.SpecFloat.
From Stdlib Require Import Sorted.
Import ListNotations.

Set Warnings "-register-all".
Local Open Scope string_scope.
Local Open Scope Z_scope.

(** ** Bytes *)

Definition code (c : ascii) : Z := Z.of_N (N_of_ascii c).
Definition chr (z : Z) : ascii := ascii_of_N (Z.to_N z).

(** [s[n:]] *)
Fixpoint drop (n : nat) (s : string) : string :=
  match n, s with
  | O, _ => s
  | S n, String _ s => drop n s
  | S _, EmptyString => EmptyString
  end.

(** [s[:n]] *)
Fixpoint take (n : nat) (s : string) : string :=
  match n, s with
  | O, _ => EmptyString
  | S n, String c s => String c (take n s)
  | S _, EmptyString => EmptyString
  end.

(** The double quote. *)
Abbreviation DQuote := (Ascii false true false false false true false false).

(** A text in which ['] stands for the double quote. *)
Fixpoint json (s : string) : string :=
  match s with
  | EmptyString => EmptyString
  | String c s => String (if Ascii.eqb c "'" then DQuote else c) (json s)
  end.

Definition tab : string := String (chr 9) "".
Definition newline : string := String (chr 10) "".

(** ** unicode/utf8 *)

Module Utf8.

Definition RuneError : Z := 0xFFFD.
Definition MaxRune : Z := 0x10FFFF.

(** The [first] table of the package: what a leading byte announces. *)
Inductive lead :=
| LeadASCII
| LeadInvalid
| LeadSeq (size : nat) (lo hi : Z).

Definition first (p0 : Z) : lead :=
  if p0 <? 0x80 then LeadASCII
  else if p0 <? 0xC2 then LeadInvalid
  else if p0 <? 0xE0 then LeadSeq 2 0x80 0xBF
  else if p0 =? 0xE0 then LeadSeq 3 0xA0 0xBF
  else if p0 <? 0xED then LeadSeq 3 0x80 0xBF
  else if p0 =? 0xED then LeadSeq 3 0x80 0x9F
  else if p0 <? 0xF0 then LeadSeq 3 0x80 0xBF
  else if p0 =? 0xF0 then LeadSeq 4 0x90 0xBF
  else if p0 <? 0xF4 then LeadSeq 4 0x80 0xBF
  else if p0 =? 0xF4 then LeadSeq 4 0x80 0x8F
  else LeadInvalid.

Definition continuation (b : Z) : bool := (0x80 <=? b) && (b <=? 0xBF).

(** [utf8.DecodeRune]: the rune at the head of [p] and its width in bytes;
    [(RuneError, 1)] on an ill-formed sequence, [(RuneError, 0)] on the
    empty string. *)
Definition DecodeRune (p : string) : Z * nat :=
  match p with
  | EmptyString => (RuneError, 0%nat)
  | String c0 p1 =>
    let p0 := code c0 in
    match first p0 with
    | LeadASCII => (p0, 1%nat)
    | LeadInvalid => (RuneError, 1%nat)
    | LeadSeq sz lo hi =>
      match p1 with
      | EmptyString => (RuneError, 1%nat)
      | String c1 p2 =>
        let b1 := code c1 in
        if (b1 <? lo) || (hi <? b1) then (RuneError, 1%nat)
        else if (sz <=? 2)%nat then
          (Z.lor (Z.shiftl (Z.land p0 0x1F) 6) (Z.land b1 0x3F), 2%nat)
        else
          match p2 with
          | EmptyString => (RuneError, 1%nat)
          | String c2 p3 =>
            let b2 := code c2 in
            if negb (continuation b2) then (RuneError, 1%nat)
            else if (sz <=? 3)%nat then
              (Z.lor (Z.lor (Z.shiftl (Z.land p0 0x0F) 12)
                            (Z.shiftl (Z.land b1 0x3F) 6))
                     (Z.land b2 0x3F), 3%nat)
            else
              match p3 with
              | EmptyString => (RuneError, 1%nat)
              | String c3 _ =>
                let b3 := code c3 in
                if negb (continuation b3) then (RuneError, 1%nat)
                else
                  (Z.lor (Z.lor (Z.lor (Z.shiftl (Z.land p0 0x07) 18)
                                       (Z.shiftl (Z.land b1 0x3F) 12))
                                (Z.shiftl (Z.land b2 0x3F) 6))
                         (Z.land b3 0x3F), 4%nat)
              end
          end
      end
    end
  end.

Definition encode3 (r : Z) : string :=
  String (chr (Z.lor 0xE0 (Z.shiftr r 12)))
    (String (chr (Z.lor 0x80 (Z.land (Z.shiftr r 6) 0x3F)))
       (String (chr (Z.lor 0x80 (Z.land r 0x3F))) "")).

(** [utf8.EncodeRune] (also what [WriteRune] appends). *)
Definition EncodeRune (r : Z) : string :=
  if (0 <=? r) && (r <=? 0x7F) then String (chr r) ""
  else if (0 <=? r) && (r <=? 0x7FF) then
    String (chr (Z.lor 0xC0 (Z.shiftr r 6)))
      (String (chr (Z.lor 0x80 (Z.land r 0x3F))) "")
  else if (r <? 0) || (MaxRune <? r) || ((0xD800 <=? r) && (r <=? 0xDFFF))
  then encode3 RuneError
  else if r <=? 0xFFFF then encode3 r
  else
    String (chr (Z.lor 0xF0 (Z.shiftr r 18)))
      (String (chr (Z.lor 0x80 (Z.land (Z.shiftr r 12) 0x3F)))
         (String (chr (Z.lor 0x80 (Z.land (Z.shiftr r 6) 0x3F)))
            (String (chr (Z.lor 0x80 (Z.land r 0x3F))) ""))).

(** [utf8.ValidString]. *)
Fixpoint valid_fuel (fuel : nat) (s : string) : bool :=
  match fuel with
  | O => false
  | S fuel =>
    match s with
    | EmptyString => true
    | String _ _ =>
      let '(r, size) := DecodeRune s in
      if (r =? RuneError) && (size =? 1)%nat then false
      else valid_fuel fuel (drop size s)
    end
  end.

Definition ValidString (s : string) : bool :=
  valid_fuel (S (String.length s)) s.

End Utf8.

(** ** fmt: formatting with an empty operand list

    [display] calls [fmt.Errorf(status.ErrorMessage)]: the message is the
    format string and there is no operand.  [Sprintf0] follows [doPrintf] of
    fmt/print.go on that case ([len(a) = 0]): text is copied up to a ['%'];
    after it come flags, an argument index, a width, a precision, an argument
    index, and the verb. *)

Module Fmt.

Definition isDigit (c : ascii) : bool :=
  (code "0" <=? code c) && (code c <=? code "9").

Definition isFlag (c : ascii) : bool :=
  match c with
  | "#"%char | "0"%char | "+"%char | "-"%char | " "%char => true
  | _ => false
  end.

(** [tooLarge]: numbers above a million are refused. *)
Definition tooLarge (x : Z) : bool := (1000000 <? x) || (x <? -1000000).

(** The digit loop of [parsenum] over the bytes [s[start:end]], given here
    as [s].  [None] is the overflow exit ([newi = end]); otherwise whether a
    digit was read and the text from [newi] on. *)
Fixpoint parsenum_loop (s : string) (num : Z) (isnum : bool)
  : option (bool * string) :=
  match s with
  | String c s' =>
    if isDigit c then
      if tooLarge num then None
      else parsenum_loop s' (num * 10 + (code c - code "0")) true
    else Some (isnum, s)
  | EmptyString => Some (isnum, s)
  end.

(** [parsenum(format, i, end)] with [end = len(format)]: is a number
    present, and the format from [newi] on. *)
Definition parsenum (s : string) : bool * string :=
  match parsenum_loop s 0 false with
  | Some r => r
  | None => (false, EmptyString)
  end.

(** The bytes before the first [']'] and those after it. *)
Fixpoint cut_bracket (s : string) : option (string * string) :=
  match s with
  | EmptyString => None
  | String c s' =>
    if Ascii.eqb c "]" then Some (EmptyString, s')
    else match cut_bracket s' with
         | Some (inside, after) => Some (String c inside, after)
         | None => None
         end
  end.

(** [parseArgNumber] on [format[i:]], which starts with ['[']: whether the
    bracketed number parsed, and the format after the bytes consumed. *)
Definition parseArgNumber (s : string) : bool * string :=
  if (String.length s <? 3)%nat then (false, drop 1 s)
  else
    match cut_bracket (drop 1 s) with
    | Some (inside, after) =>
      match parsenum_loop inside 0 false with
      | Some (true, EmptyString) => (true, after)
      | _ => (false, after)
      end
    | None => (false, drop 1 s)
    end.

(** [argNumber] with [numArgs = 0]: no index is in range, so a bracket
    always clears [goodArgNum].  Returns [found], [goodArgNum] and the
    format from [newi] on. *)
Definition argNumber (good : bool) (s : string) : bool * bool * string :=
  match s with
  | String "["%char _ =>
    let '(ok, rest) := parseArgNumber s in (ok, false, rest)
  | _ => (false, good, s)
  end.

Definition percentSign : string := "%".
Definition noVerbString : string := "%!(NOVERB)".
Definition badWidthString : string := "%!(BADWIDTH)".
Definition badPrecString : string := "%!(BADPREC)".
Definition missingString : string := "(MISSING)".
Definition badIndexString : string := "(BADINDEX)".

Fixpoint skipFlags (s : string) : string :=
  match s with
  | String c s' => if isFlag c then skipFlags s' else s
  | EmptyString => s
  end.

(** One directive, from the byte after the ['%']: what is written and the
    format that remains. *)
Definition directive (s : string) : string * string :=
  let s := skipFlags s in
  let '(afterIndex, good, s) := argNumber true s in
  (* width *)
  let '(out, afterIndex, good, s) :=
    match s with
    | String "*"%char s' => (badWidthString, false, good, s')
    | _ =>
      let '(widPresent, s') := parsenum s in
      (EmptyString, afterIndex, good && negb (afterIndex && widPresent), s')
    end in
  (* precision *)
  let '(out, afterIndex, good, s) :=
    match s with
    | String "."%char s' =>
      let good := good && negb afterIndex in
      let '(afterIndex, good, s') := argNumber good s' in
      match s' with
      | String "*"%char s'' => (out ++ badPrecString, false, good, s'')
      | _ => let '(_, s'') := parsenum s' in (out, afterIndex, good, s'')
      end
    | _ => (out, afterIndex, good, s)
    end in
  let '(good, s) :=
    if afterIndex then (good, s)
    else let '(_, good, s) := argNumber good s in (good, s) in
  match s with
  | EmptyString => (out ++ noVerbString, EmptyString)
  | String _ _ =>
    let '(verb, size) := Utf8.DecodeRune s in
    let s := drop size s in
    if verb =? code "%" then (out ++ percentSign, s)
    else if negb good then
      (out ++ "%!" ++ Utf8.EncodeRune verb ++ badIndexString, s)
    else
      (out ++ "%!" ++ Utf8.EncodeRune verb ++ missingString, s)
  end.

(** The format loop; each round consumes at least one byte. *)
Fixpoint doPrintf (fuel : nat) (format : string) : string :=
  match fuel with
  | O => EmptyString
  | S fuel =>
    match format with
    | EmptyString => EmptyString
    | String c rest =>
      if Ascii.eqb c "%" then
        let '(out, rest) := directive rest in
        out ++ doPrintf fuel rest
      else String c (doPrintf fuel rest)
    end
  end.

Definition Sprintf0 (format : string) : string :=
  doPrintf (S (String.length format)) format.

End Fmt.

(** ** int64 and float64 *)

Module Int64.
Definition min : Z := - 2 ^ 63.
Definition max : Z := 2 ^ 63 - 1.
Definition in_range (x : Z) : bool := (min <=? x) && (x <=? max).
(** The value of a result computed modulo 2^64, as a signed number. *)
Definition wrap (x : Z) : Z := (x + 2 ^ 63) mod 2 ^ 64 - 2 ^ 63.
(** Go's [+] on [int64]. *)
Definition add (x y : Z) : Z := wrap (x + y).
End Int64.

Module Float64.
Definition prec : Z := 53.
Definition emax : Z := 1024.
Definition t := spec_float.
Definition zero : t := S754_zero false.
Definition one : t := S754_finite false 4503599627370496 (-52).
Definition half : t := S754_finite false 4503599627370496 (-53).
(** The conversion [float64(n)] of an integer: round to nearest even. *)
Definition of_int (n : Z) : t := binary_normalize prec emax n 0 false.
(** Go's [/] on [float64]. *)
Definition div (x y : t) : t := SFdiv prec emax x y.
End Float64.

(** ** ctrd.ProgressInfo *)

(** Modelled from the spec: the declaration of [ctrd.ProgressInfo] is not part
    of cli/pull.go.  The fields are the five that [display] reads; [Offset]
    is added to an [int64], and [Total] is taken to be an [int64] as well
    (the spec's byte count). *)
Record ProgressInfo := mkProgressInfo {
  Ref : string;
  Status : string;
  Offset : Z;
  Total : Z;
  ErrorMessage : string
}.

(** ** What is written

    A call [fmt.Fprintf(w, format, operands...)] is recorded with its format
    string and its operands; the text that [fmt], [progress.Bar.Format] and
    [progress.Bytes.String] make of them is not modelled. *)

Inductive operand :=
| OString (s : string)
| OBar (ratio : Float64.t)            (* progress.Bar *)
| OBytes (n : Z)                      (* progress.Bytes *)
| OSeconds (d : Z)                    (* time.Duration.Seconds() *)
| OBytesPerSecond (n : Z) (d : Z).    (* progress.NewBytesPerSecond(n, d) *)

Record printed := Fprintf {
  format : string;
  operands : list operand
}.

(** An [io.Writer] that keeps what it is given. *)
Definition Writer := list printed.

Definition transferFormat : string :=
  "%s:" ++ tab ++ "%s" ++ tab ++ "%40r" ++ tab ++ "%8.8s/%s" ++ tab ++ newline.
Definition plainFormat : string :=
  "%s:" ++ tab ++ "%s" ++ tab ++ "%40r" ++ tab ++ newline.
Definition summaryFormat : string :=
  "elapsed: %-4.1fs" ++ tab ++ "total: %7.6v" ++ tab ++ "(%v)" ++ tab ++ newline.

(** ** time

    The wall clock is an input: [readings n] is what the [n]-th call of
    [time.Now] returns, in nanoseconds. *)

Record Clock := mkClock {
  readings : nat -> Z;
  calls : nat
}.

Definition Now (c : Clock) : Z * Clock :=
  (readings c (calls c), mkClock (readings c) (S (calls c))).

(** [time.Since(start)], a [Duration] in nanoseconds. *)
Definition Since (start : Z) (c : Clock) : Z * Clock :=
  let '(now, c) := Now c in (now - start, c).

(** ** display *)

(** An [error] built by [fmt.Errorf]: its message. *)
Definition Errorf (format : string) : string := Fmt.Sprintf0 format.

(** The [switch status.Status] of the loop body: the line of one event. *)
Definition eventLine (status : ProgressInfo) : printed :=
  if (String.eqb (Status status) "downloading" || String.eqb (Status status) "uploading")%bool
  then
    let bar :=
      if Total status >? 0
      then Float64.div (Float64.of_int (Offset status)) (Float64.of_int (Total status))
      else Float64.zero in
    Fprintf transferFormat
      [OString (Ref status); OString (Status status); OBar bar;
       OBytes (Offset status); OBytes (Total status)]
  else if (String.eqb (Status status) "resolving" || String.eqb (Status status) "waiting")%bool
  then
    let bar := Float64.zero in
    Fprintf plainFormat [OString (Ref status); OString (Status status); OBar bar]
  else
    let bar := Float64.one in
    Fprintf plainFormat [OString (Ref status); OString (Status status); OBar bar].

(** The [for _, status := range statuses] loop: the writer and either the
    error returned from inside the loop or the [total] it ends with. *)
Fixpoint display_loop (w : Writer) (total : Z) (statuses : list ProgressInfo)
  : Writer * (string + Z) :=
  match statuses with
  | [] => (w, inr total)
  | status :: statuses =>
    if negb (String.eqb (ErrorMessage status) "") then
      (w, inl (Errorf (ErrorMessage status)))
    else
      let total := Int64.add total (Offset status) in
      let w := (w ++ [eventLine status])%list in
      display_loop w total statuses
  end.

(** [display(w, statuses, start)]: the writer afterwards, the clock
    afterwards, and the error ([None] is [nil]). *)
Definition display (w : Writer) (statuses : list ProgressInfo) (start : Z)
  (clock : Clock) : Writer * Clock * option string :=
  match display_loop w 0 statuses with
  | (w, inl err) => (w, clock, Some err)
  | (w, inr total) =>
    let '(elapsed, clock) := Since start clock in
    let '(elapsed', clock) := Since start clock in
    ((w ++ [Fprintf summaryFormat
              [OSeconds elapsed; OBytes total; OBytesPerSecond total elapsed']])%list,
     clock, None)
  end.

(** ** encoding/json: the scanner

    [readValue] of json/stream.go feeds the bytes of the input to the state
    machine of json/scanner.go until one value is complete.  The machine below
    has the scanner's states and its stack of [parseState]s; it also keeps
    what it has read, so that the value comes out as a tree.  (The scanner is
    the one of the Go releases of the time of cli/pull.go, which puts no
    bound on the nesting of arrays and objects.) *)

Module Json.

Inductive error :=
| EOF                  (* io.EOF *)
| ErrUnexpectedEOF     (* io.ErrUnexpectedEOF *)
| SyntaxError
| UnmarshalTypeError.

(** A JSON value.  Numbers and strings keep their text: a number its
    literal, a string the bytes between its quotes. *)
Inductive value :=
| Null
| Bool (b : bool)
| Number (lit : string)
| Str (raw : string)
| Array (elems : list value)
| Object (members : list (string * value)).

Inductive parseState :=
| parseObjectKey (members : list (string * value)) (key : string)
| parseObjectValue (members : list (string * value)) (key : string)
| parseArrayValue (elems : list value).

Inductive state :=
| stateBeginValueOrEmpty
| stateBeginValue
| stateBeginStringOrEmpty
| stateBeginString
| stateEndValue
| stateInString (acc : string)
| stateInStringEsc (acc : string)
| stateInStringEscU (acc : string) (digits : nat)
| stateNeg (acc : string)
| state1 (acc : string)
| state0 (acc : string)
| stateDot (acc : string)
| stateDot0 (acc : string)
| stateE (acc : string)
| stateESign (acc : string)
| stateE0 (acc : string)
| stateLiteral (v : value) (expect : string).

Inductive outcome :=
| scanContinue (st : state) (stack : list parseState)
| scanEnd (v : value) (consumed : bool)
| scanError.

Definition isSpace (c : ascii) : bool :=
  match c with
  | " "%char => true
  | _ => (code c =? 9) || (code c =? 10) || (code c =? 13)
  end.

Definition isDigit (c : ascii) : bool :=
  (code "0" <=? code c) && (code c <=? code "9").

Definition isDigit19 (c : ascii) : bool :=
  (code "1" <=? code c) && (code c <=? code "9").

Definition isHex (c : ascii) : bool :=
  isDigit c
  || ((code "a" <=? code c) && (code c <=? code "f"))
  || ((code "A" <=? code c) && (code c <=? code "F")).

Definition snoc (s : string) (c : ascii) : string := s ++ String c "".

Definition rawOf (v : value) : string :=
  match v with Str raw => raw | _ => EmptyString end.

(** A value ends with the current byte: it goes to the enclosing array or
    object, or it is the value read. *)
Definition finish (v : value) (stack : list parseState) : outcome :=
  match stack with
  | [] => scanEnd v true
  | parseArrayValue elems :: stack =>
    scanContinue stateEndValue (parseArrayValue (elems ++ [v]) :: stack)
  | parseObjectKey members _ :: stack =>
    scanContinue stateEndValue (parseObjectKey members (rawOf v) :: stack)
  | parseObjectValue members key :: stack =>
    scanContinue stateEndValue
      (parseObjectValue (members ++ [(key, v)]) key :: stack)
  end.

(** [stateEndValue] inside an array or object. *)
Definition endValue (stack : list parseState) (c : ascii) : outcome :=
  if isSpace c then scanContinue stateEndValue stack
  else
    match stack with
    | [] => scanError
    | parseObjectKey members key :: stack' =>
      if Ascii.eqb c ":" then
        scanContinue stateBeginValue (parseObjectValue members key :: stack')
      else scanError
    | parseObjectValue members key :: stack' =>
      if Ascii.eqb c "," then
        scanContinue stateBeginString (parseObjectKey members EmptyString :: stack')
      else if Ascii.eqb c "}" then finish (Object members) stack'
      else scanError
    | parseArrayValue elems :: stack' =>
      if Ascii.eqb c "," then scanContinue stateBeginValue stack
      else if Ascii.eqb c "]" then finish (Array elems) stack'
      else scanError
    end.

(** A number ends before the current byte. *)
Definition endNumber (acc : string) (stack : list parseState) (c : ascii)
  : outcome :=
  match finish (Number acc) stack with
  | scanContinue _ stack => endValue stack c
  | _ => scanEnd (Number acc) false
  end.

Definition beginString (stack : list parseState) (c : ascii) : outcome :=
  if isSpace c then scanContinue stateBeginString stack
  else if Ascii.eqb c DQuote then scanContinue (stateInString EmptyString) stack
  else scanError.

Definition beginValue (stack : list parseState) (c : ascii) : outcome :=
  if isSpace c then scanContinue stateBeginValue stack
  else
    match c with
    | "{"%char =>
      scanContinue stateBeginStringOrEmpty
        (parseObjectKey [] EmptyString :: stack)
    | "["%char => scanContinue stateBeginValueOrEmpty (parseArrayValue [] :: stack)
    | DQuote => scanContinue (stateInString EmptyString) stack
    | "-"%char => scanContinue (stateNeg (String c "")) stack
    | "0"%char => scanContinue (state0 (String c "")) stack
    | "t"%char => scanContinue (stateLiteral (Bool true) "rue") stack
    | "f"%char => scanContinue (stateLiteral (Bool false) "alse") stack
    | "n"%char => scanContinue (stateLiteral Null "ull") stack
    | _ =>
      if isDigit19 c then scanContinue (state1 (String c "")) stack
      else scanError
    end.

Definition step0 (acc : string) (stack : list parseState) (c : ascii)
  : outcome :=
  if Ascii.eqb c "." then scanContinue (stateDot (snoc acc c)) stack
  else if Ascii.eqb c "e" || Ascii.eqb c "E" then
    scanContinue (stateE (snoc acc c)) stack
  else endNumber acc stack c.

Definition stepESign (acc : string) (stack : list parseState) (c : ascii)
  : outcome :=
  if isDigit c then scanContinue (stateE0 (snoc acc c)) stack else scanError.

(** [s.step(s, c)]. *)
Definition step (st : state) (stack : list parseState) (c : ascii) : outcome :=
  match st with
  | stateBeginValueOrEmpty =>
    if isSpace c then scanContinue stateBeginValueOrEmpty stack
    else if Ascii.eqb c "]" then endValue stack c
    else beginValue stack c
  | stateBeginValue => beginValue stack c
  | stateBeginStringOrEmpty =>
    if isSpace c then scanContinue stateBeginStringOrEmpty stack
    else if Ascii.eqb c "}" then
      match stack with
      | parseObjectKey members key :: stack' =>
        endValue (parseObjectValue members key :: stack') c
      | _ => scanError
      end
    else beginString stack c
  | stateBeginString => beginString stack c
  | stateEndValue => endValue stack c
  | stateInString acc =>
    if Ascii.eqb c DQuote then finish (Str acc) stack
    else if Ascii.eqb c "\" then scanContinue (stateInStringEsc (snoc acc c)) stack
    else if code c <? 32 then scanError
    else scanContinue (stateInString (snoc acc c)) stack
  | stateInStringEsc acc =>
    match c with
    | "b"%char | "f"%char | "n"%char | "r"%char | "t"%char
    | "\"%char | "/"%char | DQuote =>
      scanContinue (stateInString (snoc acc c)) stack
    | "u"%char => scanContinue (stateInStringEscU (snoc acc c) 4) stack
    | _ => scanError
    end
  | stateInStringEscU acc digits =>
    if isHex c then
      match digits with
      | S (S digits) => scanContinue (stateInStringEscU (snoc acc c) (S digits)) stack
      | _ => scanContinue (stateInString (snoc acc c)) stack
      end
    else scanError
  | stateNeg acc =>
    if Ascii.eqb c "0" then scanContinue (state0 (snoc acc c)) stack
    else if isDigit19 c then scanContinue (state1 (snoc acc c)) stack
    else scanError
  | state1 acc =>
    if isDigit c then scanContinue (state1 (snoc acc c)) stack
    else step0 acc stack c
  | state0 acc => step0 acc stack c
  | stateDot acc =>
    if isDigit c then scanContinue (stateDot0 (snoc acc c)) stack
    else scanError
  | stateDot0 acc =>
    if isDigit c then scanContinue (stateDot0 (snoc acc c)) stack
    else if Ascii.eqb c "e" || Ascii.eqb c "E" then
      scanContinue (stateE (snoc acc c)) stack
    else endNumber acc stack c
  | stateE acc =>
    if Ascii.eqb c "+" || Ascii.eqb c "-" then
      scanContinue (stateESign (snoc acc c)) stack
    else stepESign acc stack c
  | stateESign acc => stepESign acc stack c
  | stateE0 acc =>
    if isDigit c then scanContinue (stateE0 (snoc acc c)) stack
    else endNumber acc stack c
  | stateLiteral v expect =>
    match expect with
    | String e EmptyString =>
      if Ascii.eqb c e then finish v stack else scanError
    | String e expect =>
      if Ascii.eqb c e then scanContinue (stateLiteral v expect) stack
      else scanError
    | EmptyString => scanError
    end
  end.

(** The scan of [readValue]: the value and the bytes after it; [None] when
    the input ends before the value does. *)
Fixpoint scan (st : state) (stack : list parseState) (s : string)
  : option (error + value * string) :=
  match s with
  | EmptyString =>
    match step st stack " " with
    | scanEnd v _ => Some (inr (v, EmptyString))
    | _ => None
    end
  | String c s' =>
    match step st stack c with
    | scanContinue st stack => scan st stack s'
    | scanEnd v true => Some (inr (v, s'))
    | scanEnd v false => Some (inr (v, s))
    | scanError => Some (inl SyntaxError)
    end
  end.

Definition allSpace (s : string) : bool :=
  forallb isSpace (list_ascii_of_string s).

Definition readValue (s : string) : error + value * string :=
  match scan stateBeginValue [] s with
  | Some r => r
  | None => inl (if allSpace s then EOF else ErrUnexpectedEOF)
  end.

(** *** Strings: [unquote] of json/decode.go *)

Definition hexval (c : ascii) : Z :=
  if isDigit c then code c - code "0"
  else if (code "a" <=? code c) && (code c <=? code "f") then code c - code "a" + 10
  else code c - code "A" + 10.

(** [getu4]: the value of a leading [\uXXXX], or -1. *)
Definition getu4 (s : string) : Z :=
  match s with
  | String "\"%char (String "u"%char (String h1 (String h2 (String h3 (String h4 _))))) =>
    if isHex h1 && isHex h2 && isHex h3 && isHex h4
    then ((hexval h1 * 16 + hexval h2) * 16 + hexval h3) * 16 + hexval h4
    else -1
  | _ => -1
  end.

Definition surr1 : Z := 0xD800.
Definition surr2 : Z := 0xDC00.
Definition surr3 : Z := 0xE000.
Definition surrSelf : Z := 0x10000.

Definition IsSurrogate (r : Z) : bool := (surr1 <=? r) && (r <? surr3).

(** [utf16.DecodeRune]. *)
Definition utf16DecodeRune (r1 r2 : Z) : Z :=
  if (surr1 <=? r1) && (r1 <? surr2) && (surr2 <=? r2) && (r2 <? surr3)
  then Z.lor (Z.shiftl (r1 - surr1) 10) (r2 - surr2) + surrSelf
  else Utf8.RuneError.

(** The loop of [unquoteBytes] on the bytes between the quotes; [None] is
    its [ok = false], which the scanner's checks rule out. *)
Fixpoint unquote_loop (fuel : nat) (s : string) : option string :=
  match fuel with
  | O => None
  | S fuel =>
    match s with
    | EmptyString => Some EmptyString
    | String c s' =>
      if Ascii.eqb c "\" then
        match s' with
        | EmptyString => None
        | String e s'' =>
          let simple (b : ascii) :=
            option_map (String b) (unquote_loop fuel s'') in
          match e with
          | DQuote | "\"%char | "/"%char | "'"%char => simple e
          | "b"%char => simple (chr 8)
          | "f"%char => simple (chr 12)
          | "n"%char => simple (chr 10)
          | "r"%char => simple (chr 13)
          | "t"%char => simple (chr 9)
          | "u"%char =>
            let rr := getu4 s in
            if rr <? 0 then None
            else
              let s6 := drop 6 s in
              if IsSurrogate rr then
                let dec := utf16DecodeRune rr (getu4 s6) in
                if negb (dec =? Utf8.RuneError) then
                  option_map (append (Utf8.EncodeRune dec))
                             (unquote_loop fuel (drop 6 s6))
                else
                  option_map (append (Utf8.EncodeRune Utf8.RuneError))
                             (unquote_loop fuel s6)
              else
                option_map (append (Utf8.EncodeRune rr)) (unquote_loop fuel s6)
          | _ => None
          end
        end
      else if Ascii.eqb c DQuote || (code c <? 32) then None
      else if code c <? 128 then option_map (String c) (unquote_loop fuel s')
      else
        let '(rr, size) := Utf8.DecodeRune s in
        option_map (append (Utf8.EncodeRune rr)) (unquote_loop fuel (drop size s))
    end
  end.

Definition unquote (raw : string) : option string :=
  unquote_loop (S (String.length raw)) raw.

(** *** Numbers *)

Fixpoint digitsValue (s : string) (acc : Z) : option Z :=
  match s with
  | EmptyString => Some acc
  | String c s' =>
    if isDigit c then digitsValue s' (acc * 10 + (code c - code "0"))
    else None
  end.

(** [strconv.ParseInt(s, 10, 64)]: [None] on a syntax or range error. *)
Definition ParseInt (s : string) : option Z :=
  let '(neg, digits) :=
    match s with
    | String "-"%char s' => (true, s')
    | String "+"%char s' => (false, s')
    | _ => (false, s)
    end in
  match digits with
  | EmptyString => None
  | _ =>
    match digitsValue digits 0 with
    | Some n =>
      let v := if neg then - n else n in
      if Int64.in_range v then Some v else None
    | None => None
    end
  end.

(** The digits at the head of [s], their value, their number, the rest. *)
Fixpoint takeDigits (s : string) (acc : Z) (n : Z) : Z * Z * string :=
  match s with
  | String c s' =>
    if isDigit c then takeDigits s' (acc * 10 + (code c - code "0")) (n + 1)
    else (acc, n, s)
  | EmptyString => (acc, n, s)
  end.

(** A number literal as [mantissa * 10 ^ exponent] (sign dropped). *)
Definition decimalOf (lit : string) : Z * Z :=
  let s := match lit with String "-"%char s => s | _ => lit end in
  let '(m, _, s) := takeDigits s 0 0 in
  let '(m, nfrac, s) :=
    match s with
    | String "."%char s => takeDigits s m 0
    | _ => (m, 0, s)
    end in
  let e :=
    match s with
    | String _ (String "-"%char s) => - fst (fst (takeDigits s 0 0))
    | String _ (String "+"%char s) => fst (fst (takeDigits s 0 0))
    | String _ s => fst (fst (takeDigits s 0 0))
    | EmptyString => 0
    end in
  (m, e - nfrac).

(** Whether [strconv.ParseFloat(lit, 64)] reports a range error: the
    value is at least half an ulp above the largest [float64]. *)
Definition floatOutOfRange (lit : string) : bool :=
  let '(m, e) := decimalOf lit in
  let limit := 2 ^ 1024 - 2 ^ 970 in
  if m =? 0 then false
  else if 0 <=? e then limit <=? m * 10 ^ e
  else limit * 10 ^ (- e) <=? m.

(** *** Field names: [equalFoldRight] of json/fold.go

    The name of a field is ASCII; a byte of the key matches a letter of the
    name in either case, and the long s (U+017F) and the Kelvin sign
    (U+212A) match [s] and [k]. *)

Definition caseMask (b : Z) : Z := Z.land b 0xDF.
Definition smallLongEss : Z := 0x17F.
Definition kelvin : Z := 0x212A.

Fixpoint equalFold (s t : string) : bool :=
  match s with
  | EmptyString => match t with EmptyString => true | _ => false end
  | String sc s' =>
    match t with
    | EmptyString => false
    | String tc t' =>
      let sb := code sc in
      let tb := code tc in
      if tb <? 128 then
        if sb =? tb then equalFold s' t'
        else
          let sbUpper := caseMask sb in
          if (code "A" <=? sbUpper) && (sbUpper <=? code "Z")
             && (sbUpper =? caseMask tb)
          then equalFold s' t'
          else false
      else
        let '(tr, size) := Utf8.DecodeRune t in
        let ok :=
          match sc with
          | "s"%char | "S"%char => tr =? smallLongEss
          | "k"%char | "K"%char => tr =? kelvin
          | _ => false
          end in
        if ok then equalFold s' (drop size t) else false
    end
  end.

(** *** Unmarshal into [[]ctrd.ProgressInfo] *)

(** Modelled from the spec: the names under which the fields of
    [ctrd.ProgressInfo] travel (its declaration and tags are not part of
    cli/pull.go); the spec fixes them as the wire contract. *)
Definition nameRef : string := "reference".
Definition nameStatus : string := "status".
Definition nameOffset : string := "offset".
Definition nameTotal : string := "total".
Definition nameErrorMessage : string := "errorMessage".

Definition zeroProgressInfo : ProgressInfo :=
  mkProgressInfo EmptyString EmptyString 0 0 EmptyString.

(** [literalStore] into a [string] field. *)
Definition storeString (v : value) (old : string) : error + string :=
  match v with
  | Null => inr old
  | Str raw =>
    match unquote raw with
    | Some s => inr s
    | None => inl SyntaxError
    end
  | _ => inl UnmarshalTypeError
  end.

(** [literalStore] into an [int64] field. *)
Definition storeInt64 (v : value) (old : Z) : error + Z :=
  match v with
  | Null => inr old
  | Number lit =>
    match ParseInt lit with
    | Some n => inr n
    | None => inl UnmarshalTypeError
    end
  | _ => inl UnmarshalTypeError
  end.

(** One member of an object stored into the struct; a key that names no
    field is skipped. *)
Definition storeMember (p : ProgressInfo) (key : string) (v : value)
  : error + ProgressInfo :=
  if equalFold nameRef key then
    match storeString v (Ref p) with
    | inr s => inr (mkProgressInfo s (Status p) (Offset p) (Total p) (ErrorMessage p))
    | inl e => inl e
    end
  else if equalFold nameStatus key then
    match storeString v (Status p) with
    | inr s => inr (mkProgressInfo (Ref p) s (Offset p) (Total p) (ErrorMessage p))
    | inl e => inl e
    end
  else if equalFold nameOffset key then
    match storeInt64 v (Offset p) with
    | inr n => inr (mkProgressInfo (Ref p) (Status p) n (Total p) (ErrorMessage p))
    | inl e => inl e
    end
  else if equalFold nameTotal key then
    match storeInt64 v (Total p) with
    | inr n => inr (mkProgressInfo (Ref p) (Status p) (Offset p) n (ErrorMessage p))
    | inl e => inl e
    end
  else if equalFold nameErrorMessage key then
    match storeString v (ErrorMessage p) with
    | inr s => inr (mkProgressInfo (Ref p) (Status p) (Offset p) (Total p) s)
    | inl e => inl e
    end
  else inr p.

Fixpoint storeMembers (p : ProgressInfo) (members : list (string * value))
  : error + ProgressInfo :=
  match members with
  | [] => inr p
  | (rawkey, v) :: members =>
    match unquote rawkey with
    | None => inl SyntaxError
    | Some key =>
      match storeMember p key v with
      | inr p => storeMembers p members
      | inl e => inl e
      end
    end
  end.

(** An element of the array stored into a fresh struct. *)
Definition storeProgressInfo (v : value) : error + ProgressInfo :=
  match v with
  | Null => inr zeroProgressInfo
  | Object members => storeMembers zeroProgressInfo members
  | _ => inl UnmarshalTypeError
  end.

Fixpoint storeElems (elems : list value) : error + list ProgressInfo :=
  match elems with
  | [] => inr []
  | v :: elems =>
    match storeProgressInfo v with
    | inl e => inl e
    | inr p =>
      match storeElems elems with
      | inl e => inl e
      | inr ps => inr (p :: ps)
      end
    end
  end.

(** [d.unmarshal(&objs)] with [objs] a nil [[]ctrd.ProgressInfo].  A value
    of the wrong kind is an [UnmarshalTypeError]; Go goes on decoding and
    returns the first such error at the end, so the result is an error as
    soon as one value does not fit. *)
Definition unmarshalBatch (v : value) : error + list ProgressInfo :=
  match v with
  | Null => inr []
  | Array elems => storeElems elems
  | _ => inl UnmarshalTypeError
  end.

(** [d.unmarshal(&x)] with [x] an [interface{}], on a scalar: only a number
    outside the range of [float64] is refused. *)
Definition unmarshalScalar (v : value) : option error :=
  match v with
  | Number lit => if floatOutOfRange lit then Some UnmarshalTypeError else None
  | _ => None
  end.

(** *** The Decoder and its token interface (json/stream.go)

    The reader is a finite input: [buf] holds the bytes not yet consumed.
    A call that returns an error returns no decoder: [renderOutput] returns
    on every error and does not use the decoder again. *)

Inductive tokenState :=
| tokenTopValue
| tokenArrayStart
| tokenArrayValue
| tokenArrayComma
| tokenObjectStart
| tokenObjectKey
| tokenObjectColon
| tokenObjectValue
| tokenObjectComma.

Record Decoder := mkDecoder {
  buf : string;
  tokState : tokenState;
  tokenStack : list tokenState
}.

Definition NewDecoder (r : string) : Decoder := mkDecoder r tokenTopValue [].

Fixpoint skipSpace (s : string) : string :=
  match s with
  | String c s' => if isSpace c then skipSpace s' else s
  | EmptyString => s
  end.

(** [dec.peek()]: the next byte that is not a space, not consumed. *)
Definition peek (dec : Decoder) : error + ascii * Decoder :=
  match skipSpace (buf dec) with
  | EmptyString => inl EOF
  | String c rest => inr (c, mkDecoder (String c rest) (tokState dec) (tokenStack dec))
  end.

(** [dec.scanp++] *)
Definition advance (dec : Decoder) (st : tokenState) (stack : list tokenState)
  : Decoder :=
  mkDecoder (drop 1 (buf dec)) st stack.

Definition tokenPrepareForDecode (dec : Decoder) : error + Decoder :=
  match tokState dec with
  | tokenArrayComma =>
    match peek dec with
    | inl e => inl e
    | inr (c, dec) =>
      if negb (Ascii.eqb c ",") then inl SyntaxError
      else inr (advance dec tokenArrayValue (tokenStack dec))
    end
  | tokenObjectColon =>
    match peek dec with
    | inl e => inl e
    | inr (c, dec) =>
      if negb (Ascii.eqb c ":") then inl SyntaxError
      else inr (advance dec tokenObjectValue (tokenStack dec))
    end
  | _ => inr dec
  end.

Definition tokenValueAllowed (st : tokenState) : bool :=
  match st with
  | tokenTopValue | tokenArrayStart | tokenArrayValue | tokenObjectValue => true
  | _ => false
  end.

Definition tokenValueEnd (st : tokenState) : tokenState :=
  match st with
  | tokenArrayStart | tokenArrayValue => tokenArrayComma
  | tokenObjectValue => tokenObjectComma
  | _ => st
  end.

(** [dec.Decode(v)], with the unmarshalling into [v] as [unmarshal]. *)
Definition DecodeWith {A : Type} (unmarshal : value -> error + A)
  (dec : Decoder) : error + A * Decoder :=
  match tokenPrepareForDecode dec with
  | inl e => inl e
  | inr dec =>
    if negb (tokenValueAllowed (tokState dec)) then inl SyntaxError
    else
      match readValue (buf dec) with
      | inl e => inl e
      | inr (v, rest) =>
        match unmarshal v with
        | inl e => inl e
        | inr a =>
          inr (a, mkDecoder rest (tokenValueEnd (tokState dec)) (tokenStack dec))
        end
      end
  end.

(** [dec.Decode(&objs)] with [var objs []ctrd.ProgressInfo]. *)
Definition Decode (dec : Decoder) : error + list ProgressInfo * Decoder :=
  DecodeWith unmarshalBatch dec.

(** What [Token] returns; the text of a scalar is not kept. *)
Inductive token :=
| Delim (c : ascii)
| Scalar.

Definition decodeScalar (v : value) : error + token :=
  match unmarshalScalar v with
  | Some e => inl e
  | None => inr Scalar
  end.

(** [dec.tokenStack[len(dec.tokenStack)-1]] and the stack without it;
    [Token] pops only what it has pushed. *)
Definition popState (stack : list tokenState) : tokenState * list tokenState :=
  match rev stack with
  | st :: r => (st, rev r)
  | [] => (tokenTopValue, [])
  end.

(** The [default] case of [Token]: a scalar, read with [Decode(&x)]. *)
Definition tokenValue (dec : Decoder) : error + token * Decoder :=
  if negb (tokenValueAllowed (tokState dec)) then inl SyntaxError
  else DecodeWith decodeScalar dec.

(** The loop of [dec.Token()]; a round that goes on has consumed a [',']
    or a [':'].  [None]: out of fuel. *)
Fixpoint Token_loop (fuel : nat) (dec : Decoder)
  : option (error + token * Decoder) :=
  match fuel with
  | O => None
  | S fuel =>
    match peek dec with
    | inl e => Some (inl e)
    | inr (c, dec) =>
      let st := tokState dec in
      match c with
      | "["%char =>
        if negb (tokenValueAllowed st) then Some (inl SyntaxError)
        else Some (inr (Delim c,
               advance dec tokenArrayStart (tokenStack dec ++ [st])))
      | "]"%char =>
        match st with
        | tokenArrayStart | tokenArrayComma =>
          let '(st', stack) := popState (tokenStack dec) in
          Some (inr (Delim c, advance dec (tokenValueEnd st') stack))
        | _ => Some (inl SyntaxError)
        end
      | "{"%char =>
        if negb (tokenValueAllowed st) then Some (inl SyntaxError)
        else Some (inr (Delim c,
               advance dec tokenObjectStart (tokenStack dec ++ [st])))
      | "}"%char =>
        match st with
        | tokenObjectStart | tokenObjectComma =>
          let '(st', stack) := popState (tokenStack dec) in
          Some (inr (Delim c, advance dec (tokenValueEnd st') stack))
        | _ => Some (inl SyntaxError)
        end
      | ":"%char =>
        match st with
        | tokenObjectColon =>
          Token_loop fuel (advance dec tokenObjectValue (tokenStack dec))
        | _ => Some (inl SyntaxError)
        end
      | ","%char =>
        match st with
        | tokenArrayComma =>
          Token_loop fuel (advance dec tokenArrayValue (tokenStack dec))
        | tokenObjectComma =>
          Token_loop fuel (advance dec tokenObjectKey (tokenStack dec))
        | _ => Some (inl SyntaxError)
        end
      | DQuote =>
        match st with
        | tokenObjectStart | tokenObjectKey =>
          match DecodeWith decodeScalar
                  (mkDecoder (buf dec) tokenTopValue (tokenStack dec)) with
          | inl e => Some (inl e)
          | inr (x, dec') =>
            Some (inr (x, mkDecoder (buf dec') tokenObjectColon (tokenStack dec)))
          end
        | _ => Some (tokenValue dec)
        end
      | _ => Some (tokenValue dec)
      end
    end
  end.

(** [dec.Token()] *)
Definition Token (dec : Decoder) : error + token * Decoder :=
  match Token_loop (S (String.length (buf dec))) dec with
  | Some r => r
  | None => inl SyntaxError
  end.

(** [dec.More()]; [peek] moves the read position past the spaces. *)
Definition More (dec : Decoder) : bool * Decoder :=
  match peek dec with
  | inl _ => (false, dec)
  | inr (c, dec) => (negb (Ascii.eqb c "]") && negb (Ascii.eqb c "}"), dec)
  end.

End Json.

(** ** progress.Writer and text/tabwriter

    [progress.Writer] keeps what it is given until [Flush], which clears the
    previous screen and writes the buffer to the writer under it, here
    os.Stdout.  What os.Stdout receives is kept as the list of these writes,
    one screen each. *)

Module Progress.

Record Writer := mkWriter {
  buf : list printed;
  stdout : list (list printed)
}.

(** [progress.NewWriter(os.Stdout)] *)
Definition NewWriter : Writer := mkWriter [] [].

Definition Write (w : Writer) (p : list printed) : Writer :=
  mkWriter (buf w ++ p) (stdout w).

Definition Flush (w : Writer) : Writer :=
  match buf w with
  | [] => w
  | _ => mkWriter [] (stdout w ++ [buf w])
  end.

End Progress.

(** The tabwriter aligns the cells of the lines it has been given and hands
    them on at [Flush].  (It also hands on the text it holds when a line ends
    with a single cell; the writer under it is the [progress.Writer], which
    keeps everything until its own [Flush], so os.Stdout receives the same.) *)

Module Tabwriter.

(** [tabwriter.NewWriter(fw, 1, 8, 1, ' ', 0)]: nothing buffered. *)
Definition NewWriter : Writer := [].

(** [tw.Flush()] with [fw] the writer under [tw]. *)
Definition Flush (tw : Writer) (fw : Progress.Writer) : Progress.Writer :=
  Progress.Write fw tw.

End Tabwriter.

(** ** renderOutput *)

(** The errors [renderOutput] returns. *)
Inductive Error :=
| OpeningTokenError (e : Json.error)  (* "failed to read the opening token: %v" *)
| DecodeError (e : Json.error)        (* "failed to decode: %v" *)
| ClosingTokenError (e : Json.error)  (* "failed to read the closing token: %v" *)
| TaskError (msg : string).           (* the error of [display], as it is *)

(** What the function has in hand while it runs.  [decoded] records the
    batches that [dec.Decode] has returned so far; the code does not keep
    them. *)
Record Run := mkRun {
  dec : Json.Decoder;
  fw : Progress.Writer;
  clk : Clock;
  decoded : list (list ProgressInfo)
}.

(** The [for dec.More()] loop: [Some (Some err, _)] is a [return err] from
    inside the loop, [Some (None, _)] the end of the loop, [None] out of
    fuel. *)
Fixpoint render_loop (fuel : nat) (start : Z) (r : Run)
  : option (option Error * Run) :=
  match fuel with
  | O => None
  | S fuel =>
    let '(more, d) := Json.More (dec r) in
    if more then
      let tw := Tabwriter.NewWriter in
      match Json.Decode d with
      | inl e => Some (Some (DecodeError e), mkRun d (fw r) (clk r) (decoded r))
      | inr (objs, d) =>
        let decoded := (decoded r ++ [objs])%list in
        match display tw objs start (clk r) with
        | (tw, clock, Some err) =>
          Some (Some (TaskError err), mkRun d (fw r) clock decoded)
        | (tw, clock, None) =>
          let fw := Tabwriter.Flush tw (fw r) in
          let fw := Progress.Flush fw in
          render_loop fuel start (mkRun d fw clock decoded)
        end
      end
    else Some (None, mkRun d (fw r) (clk r) (decoded r))
  end.

(** [renderOutput(responseBody)]: the error returned ([None] is [nil]) and
    the state at the return. *)
Definition renderOutput (responseBody : string) (clock : Clock)
  : option Error * Run :=
  let '(start, clock) := Now clock in
  let r := mkRun (Json.NewDecoder responseBody) Progress.NewWriter clock [] in
  match Json.Token (dec r) with
  | inl e => (Some (OpeningTokenError e), r)
  | inr (_, d) =>
    let r := mkRun d (fw r) (clk r) (decoded r) in
    match render_loop (S (String.length (Json.buf d))) start r with
    | None => (Some (DecodeError Json.SyntaxError), r)
    | Some (Some err, r) => (Some err, r)
    | Some (None, r) =>
      match Json.Token (dec r) with
      | inl e => (Some (ClosingTokenError e), r)
      | inr (_, d) => (None, mkRun d (fw r) (clk r) (decoded r))
      end
    end
  end.

Definition stdout (r : Run) : list (list printed) := Progress.stdout (fw r).

(** * Encoding a batch

    The producer of the stream is not part of cli/pull.go: what it writes is
    taken from the spec's wire contract and from [encoding/json]'s [Marshal],
    whose output the decoder is made to read. *)

Module Marshal.

Definition hex (n : Z) : ascii :=
  if n <? 10 then chr (code "0" + n) else chr (code "a" + (n - 10)).

(** [htmlSafeSet]: the ASCII bytes written as they are. *)
Definition htmlSafe (c : ascii) : bool :=
  (32 <=? code c) && (code c <? 128)
  && negb (Ascii.eqb c DQuote) && negb (Ascii.eqb c "\")
  && negb (Ascii.eqb c "<") && negb (Ascii.eqb c ">") && negb (Ascii.eqb c "&").

(** The escape of an ASCII byte outside [htmlSafeSet], after the backslash. *)
Definition escapeByte (c : ascii) : string :=
  if Ascii.eqb c "\" || Ascii.eqb c DQuote then String c ""
  else if code c =? 10 then "n"
  else if code c =? 13 then "r"
  else if code c =? 9 then "t"
  else "u00" ++ String (hex (Z.shiftr (code c) 4)) (String (hex (Z.land (code c) 0xF)) "").

(** The loop of [encodeState.string]: the bytes between the quotes. *)
Fixpoint escape (fuel : nat) (s : string) : string :=
  match fuel with
  | O => EmptyString
  | S fuel =>
    match s with
    | EmptyString => EmptyString
    | String c s' =>
      if code c <? 128 then
        if htmlSafe c then String c (escape fuel s')
        else "\" ++ escapeByte c ++ escape fuel s'
      else
        let '(r, size) := Utf8.DecodeRune s in
        if (r =? Utf8.RuneError) && (size =? 1)%nat then
          "\" ++ "ufffd" ++ escape fuel (drop size s)
        else if (r =? 0x2028) || (r =? 0x2029) then
          "\u202" ++ String (hex (Z.land r 0xF)) (escape fuel (drop size s))
        else take size s ++ escape fuel (drop size s)
    end
  end.

(** Modelled from the spec: a string field is written as
    [encodeState.string] writes it, with HTML escaping. *)
Definition encodeString (s : string) : string :=
  String DQuote (escape (S (String.length s)) s ++ String DQuote "").

(** The digit loop of [strconv.formatBits] in base 10: the digits of [u],
    from the last one, in front of [acc]. *)
Fixpoint formatBits (fuel : nat) (u : Z) (acc : string) : string :=
  match fuel with
  | O => acc
  | S fuel =>
    if u <? 10 then String (chr (code "0" + u)) acc
    else formatBits fuel (u / 10) (String (chr (code "0" + u mod 10)) acc)
  end.

(** Modelled from the spec: an integer field is written in decimal, as
    [strconv.AppendInt(v, 10)] writes it. *)
Definition FormatInt (v : Z) : string :=
  if v <? 0 then String "-" (formatBits (S (Z.to_nat (Z.log2 (- v)))) (- v) "")
  else formatBits (S (Z.to_nat (Z.log2 v))) v "".

Definition key (name : string) : string :=
  String DQuote name ++ String DQuote ":".

(** Modelled from the spec: an event is written as an object whose members
    are the fields of [ctrd.ProgressInfo], in their order, under the wire
    names of the spec. *)
Definition encodeProgressInfo (p : ProgressInfo) : string :=
  "{" ++ key Json.nameRef ++ encodeString (Ref p)
  ++ "," ++ key Json.nameStatus ++ encodeString (Status p)
  ++ "," ++ key Json.nameOffset ++ FormatInt (Offset p)
  ++ "," ++ key Json.nameTotal ++ FormatInt (Total p)
  ++ "," ++ key Json.nameErrorMessage ++ encodeString (ErrorMessage p)
  ++ "}".

Fixpoint encodeElems (ps : list ProgressInfo) : string :=
  match ps with
  | [] => EmptyString
  | [p] => encodeProgressInfo p
  | p :: ps => encodeProgressInfo p ++ "," ++ encodeElems ps
  end.

(** Modelled from the spec: a batch is written as [json.Marshal(objs)]
    writes a non-nil [[]ctrd.ProgressInfo], an array of its events. *)
Definition encodeBatch (ps : list ProgressInfo) : string :=
  "[" ++ encodeElems ps ++ "]".

(** Modelled from the spec: [json.Marshal] of the nil slice. *)
Definition encodeNil : string := "null".

End Marshal.

(** * Vocabulary of the properties *)

Definition noError (status : ProgressInfo) : Prop := ErrorMessage status = "".

Definition hasError (status : ProgressInfo) : Prop := ErrorMessage status <> "".

(** The sum of the [Offset] fields of a batch, as a mathematical integer. *)
Definition sumOffsets (statuses : list ProgressInfo) : Z :=
  fold_right Z.add 0 (map Offset statuses).

(** The summary line that [display] writes. *)
Definition summaryLine (elapsed total elapsed' : Z) : printed :=
  Fprintf summaryFormat [OSeconds elapsed; OBytes total; OBytesPerSecond total elapsed'].

(** The loop with the fuel [renderOutput] gives it. *)
Definition run_loop (start : Z) (r : Run) : option (option Error * Run) :=
  render_loop (S (String.length (Json.buf (dec r)))) start r.

(** The screen a batch without error messages puts on os.Stdout. *)
Definition screen (statuses : list ProgressInfo) (start : Z) (clock : Clock)
  : list printed :=
  (map eventLine statuses
     ++ [summaryLine (readings clock (calls clock) - start)
           (Int64.wrap (sumOffsets statuses))
           (readings clock (S (calls clock)) - start)])%list.

Definition tick2 (clock : Clock) : Clock :=
  mkClock (readings clock) (S (S (calls clock))).

Definition transferStatus (s : string) : Prop := s = "downloading" \/ s = "uploading".
Definition idleStatus (s : string) : Prop := s = "resolving" \/ s = "waiting".

Fixpoint noPercent (s : string) : bool :=
  match s with
  | EmptyString => true
  | String c s => negb (Ascii.eqb c "%") && noPercent s
  end.

(** What [renderOutput] has written and decoded when it returns the error of
    [display]: one screen for each batch before the last one decoded, and
    the last one decoded is the batch with the error message. *)
Definition screens (start : Z) (batches : list (list ProgressInfo))
  (out : list (list printed)) : Prop :=
  Forall2 (fun objs scr => Forall noError objs
                           /\ exists clock, scr = screen objs start clock)
          batches out.

Definition loop_result (start : Z) (res : option Error) (r : Run) : Prop :=
  match res with
  | Some (TaskError msg) =>
    exists batches pre status post,
      decoded r = (batches ++ [(pre ++ status :: post)%list])%list
      /\ Forall noError pre /\ hasError status
      /\ msg = Errorf (ErrorMessage status)
      /\ screens start batches (stdout r)
  | _ => screens start (decoded r) (stdout r)
  end.

Definition allHigh (p : string) : Prop :=
  Forall (fun c => 128 <= code c) (list_ascii_of_string p).

(** What [escape] writes for an ASCII byte. *)
Definition escape1 (c : ascii) : string :=
  if Marshal.htmlSafe c then String c "" else "\" ++ Marshal.escapeByte c.

Definition digit (d : Z) : ascii := chr (code "0" + d).

Definition allDigits (ds : string) : Prop :=
  Forall (fun c => Json.isDigit c = true) (list_ascii_of_string ds).

(** The digits [formatBits] writes in front of [acc]: what they are for the
    scanner and for [ParseInt]. *)
Definition digits_of (u : Z) (d : ascii) (ds : string) : Prop :=
  Json.isDigit d = true
  /\ allDigits ds
  /\ (0 < u -> Json.isDigit19 d = true)
  /\ (u = 0 -> d = "0"%char /\ ds = "")
  /\ (forall a rest,
         Json.digitsValue (String d (ds ++ rest)) a
         = Json.digitsValue rest (a * 10 ^ Z.of_nat (S (String.length ds)) + u)).

(** A progress event all of whose fields can travel: the strings are valid
    UTF-8 and the integers are [int64] values. *)
Definition wellFormed (p : ProgressInfo) : Prop :=
  Utf8.ValidString (Ref p) = true
  /\ Utf8.ValidString (Status p) = true
  /\ Utf8.ValidString (ErrorMessage p) = true
  /\ Int64.in_range (Offset p) = true
  /\ Int64.in_range (Total p) = true.

(** The bytes between the quotes of an encoded string. *)
Definition rawString (s : string) : string :=
  Marshal.escape (S (String.length s)) s.

(** The tree the scanner builds from an encoded event. *)
Definition treeOf (p : ProgressInfo) : Json.value :=
  Json.Object
    [(Json.nameRef, Json.Str (rawString (Ref p)));
     (Json.nameStatus, Json.Str (rawString (Status p)));
     (Json.nameOffset, Json.Number (Marshal.FormatInt (Offset p)));
     (Json.nameTotal, Json.Number (Marshal.FormatInt (Total p)));
     (Json.nameErrorMessage, Json.Str (rawString (ErrorMessage p)))].

Definition fieldName (name : string) : Prop :=
  In name [Json.nameRef; Json.nameStatus; Json.nameOffset; Json.nameTotal;
           Json.nameErrorMessage].

(** The screens of successive batches: the rendering pass of a batch takes
    two readings of the clock. *)
Fixpoint screensAt (start : Z) (clock : Clock) (batches : list (list ProgressInfo))
  : list (list printed) :=
  match batches with
  | [] => []
  | objs :: batches => screen objs start clock :: screensAt start (tick2 clock) batches
  end.

(** The batches whose rendering pass came to its end: all that were decoded,
    but for the last one when [display] returned an error. *)
Definition rendered (res : option Error) (batches : list (list ProgressInfo))
  : list (list ProgressInfo) :=
  match res with
  | Some (TaskError _) => removelast batches
  | _ => batches
  end.

(** The clock after [n] more readings. *)
Definition ticks (n : nat) (clock : Clock) : Clock :=
  mkClock (readings clock) (n + calls clock).

Definition monotone (readings : nat -> Z) : Prop :=
  forall n, readings n <= readings (S n).

(** The elapsed times that a text shows, in the order of its lines. *)
Definition elapsedOf (line : printed) : list Z :=
  match operands line with
  | OSeconds d :: _ => [d]
  | _ => []
  end.

Definition elapsedShown (out : list (list printed)) : list Z :=
  flat_map (flat_map elapsedOf) out.

(** The states of the scanner inside a number. *)
Definition numberState (st : Json.state) : bool :=
  match st with
  | Json.stateNeg _ | Json.state1 _ | Json.state0 _ | Json.stateDot _
  | Json.stateDot0 _ | Json.stateE _ | Json.stateESign _ | Json.stateE0 _ => true
  | _ => false
  end.

Definition isNumber (v : Json.value) : bool :=
  match v with
  | Json.Number _ => true
  | _ => false
  end.

Fixpoint noSpaceIn (s : string) : bool :=
  match s with
  | EmptyString => true
  | String c s => negb (Json.isSpace c) && noSpaceIn s
  end.

(** The letters that a literal still expects are not spaces. *)
Definition literalState (st : Json.state) : bool :=
  match st with
  | Json.stateLiteral _ expect => noSpaceIn expect
  | _ => true
  end.

(** The decoder with another input in front of it. *)
Definition withBuf (d : Json.Decoder) (s : string) : Json.Decoder :=
  Json.mkDecoder s (Json.tokState d) (Json.tokenStack d).

Definition withInput (r : Run) (s : string) : Run :=
  mkRun (withBuf (dec r) s) (fw r) (clk r) (decoded r).

(** [renderOutput] after its first token: the loop and the closing token. *)
Definition afterOpening (start : Z) (r : Run) : option Error * Run :=
  match run_loop start r with
  | None => (Some (DecodeError Json.SyntaxError), r)
  | Some (Some err, r) => (Some err, r)
  | Some (None, r) =>
    match Json.Token (dec r) with
    | inl e => (Some (ClosingTokenError e), r)
    | inr (_, d) => (None, mkRun d (fw r) (clk r) (decoded r))
    end
  end.

(** A text that [Decode], given it alone, reads to its end as the batch. *)
Definition batchText (text : string) (objs : list ProgressInfo) : Prop :=
  Json.Decode (Json.NewDecoder text) = inr (objs, Json.NewDecoder "").

(** The texts with a comma in front of each. *)
Fixpoint tailTexts (texts : list string) : string :=
  match texts with
  | [] => EmptyString
  | text :: texts => "," ++ text ++ tailTexts texts
  end.

(** The elements of an array: the texts, with commas between them. *)
Definition joinTexts (texts : list string) : string :=
  match texts with
  | [] => EmptyString
  | text :: texts => text ++ tailTexts texts
  end.

(** * Sample inputs *)

Definition clock0 : Clock := mkClock (fun n => Z.of_nat n * 1000000000) 0.

Definition halfway (ref : string) : ProgressInfo :=
  mkProgressInfo ref "downloading" 50 100 "".

Definition extracting : ProgressInfo := mkProgressInfo "layer-2" "extracting" 0 0 "".

Definition hugeBatch : list ProgressInfo :=
  [mkProgressInfo "layer-1" "downloading" (2 ^ 62) 0 "";
   mkProgressInfo "layer-2" "downloading" (2 ^ 62) 0 ""].

Definition oddBatch : list ProgressInfo :=
  [mkProgressInfo "" "downloading" 200 100 "";
   mkProgressInfo "layer-2" "no such status" (-5) 0 ""].

Definition failingStream : string :=
  (json "[[{'reference':'a','status':'waiting'}],")
  ++ (json "[{'reference':'a','status':'downloading','offset':1,'total':2},")
  ++ (json "{'reference':'b','errorMessage':'unauthorized'},")
  ++ (json "{'reference':'c','status':'done'}],")
  ++ (json "[{'reference':'d','status':'done'}]]").

(** A string with a line feed, [<], a backslash, a two-byte rune and a quote. *)
Definition awkward : string :=
  String (chr 10) "a<b\" ++ String (chr 195) (String (chr 169) "") ++ String DQuote "".

Definition sampleBatch : list ProgressInfo :=
  [mkProgressInfo awkward "downloading" (-50) 100 ""; extracting].

Definition twoBatches : string :=
  json "[[{'reference':'a','status':'resolving'}],[{'reference':'a','status':'downloading','offset':50,'total':100},{'reference':'b','status':'done','offset':7}]]".

Definition sampleTexts : list string :=
  [json "[{'reference':'a','status':'resolving'}]";
   json " [{'reference':'a','status':'downloading','offset':50,'total':100}, {'reference':'b','status':'done','offset':7}]"].

Definition sampleBatches : list (list ProgressInfo) :=
  [[mkProgressInfo "a" "resolving" 0 0 ""];
   [halfway "a"; mkProgressInfo "b" "done" 7 0 ""]].


(** A stream that ends after its first batch. *)
Definition truncatedStream : string :=
  json "[[{'reference':'a','status':'waiting'}]".

(** * The model at work *)

Example sprintf0_plain : Fmt.Sprintf0 "unexpected EOF" = "unexpected EOF".
Proof. reflexivity. Qed.

Example sprintf0_noverb : Fmt.Sprintf0 "disk 100%" = "disk 100%!(NOVERB)".
Proof. reflexivity. Qed.

Example sprintf0_missing : Fmt.Sprintf0 "100% full" = "100%!f(MISSING)ull".
Proof. reflexivity. Qed.

Example sprintf0_percent : Fmt.Sprintf0 "a%%b%5.2%c" = "a%b%c".
Proof. reflexivity. Qed.

Example sprintf0_star : Fmt.Sprintf0 "%*d|%.*d" = "%!(BADWIDTH)%!d(MISSING)|%!(BADPREC)%!d(MISSING)".
Proof. reflexivity. Qed.

Example sprintf0_index : Fmt.Sprintf0 "%[1]d %[x]d %[" = "%!d(BADINDEX) %!d(BADINDEX) %!(NOVERB)".
Proof. reflexivity. Qed.

Example float64_one : Float64.of_int 1 = Float64.one.
Proof. reflexivity. Qed.

Example float64_half : Float64.div (Float64.of_int 1) (Float64.of_int 2) = Float64.half.
Proof. reflexivity. Qed.

Example readValue_nested :
  Json.readValue (json " [1, {'a':[true,null]}, 'x\n'] tail")
  = inr (Json.Array [Json.Number "1";
                     Json.Object [("a", Json.Array [Json.Bool true; Json.Null])];
                     Json.Str "x\n"], " tail").
Proof. reflexivity. Qed.

Example readValue_number_end : Json.readValue "12]" = inr (Json.Number "12", "]").
Proof. reflexivity. Qed.

Example readValue_number_eof : Json.readValue "-0.5e+3" = inr (Json.Number "-0.5e+3", "").
Proof. reflexivity. Qed.

Example readValue_truncated : Json.readValue "[1," = inl Json.ErrUnexpectedEOF.
Proof. reflexivity. Qed.

Example readValue_empty : Json.readValue "  " = inl Json.EOF.
Proof. reflexivity. Qed.

Example readValue_bad : Json.readValue "[1 2]" = inl Json.SyntaxError.
Proof. reflexivity. Qed.

Example token_open : Json.Token (Json.NewDecoder " [ [] ]")
  = inr (Json.Delim "[", Json.mkDecoder " [] ]" Json.tokenArrayStart [Json.tokenTopValue]).
Proof. reflexivity. Qed.

Example token_scalar : Json.Token (Json.NewDecoder "12 34")
  = inr (Json.Scalar, Json.mkDecoder " 34" Json.tokenTopValue []).
Proof. reflexivity. Qed.

Example token_huge : Json.Token (Json.NewDecoder "1e400") = inl Json.UnmarshalTypeError.
Proof. vm_compute. reflexivity. Qed.

Example token_close_first : Json.Token (Json.NewDecoder "]") = inl Json.SyntaxError.
Proof. reflexivity. Qed.

Example decode_batch :
  Json.Decode (Json.mkDecoder
    (json "[{'reference':'layer-1','Status':'downloading','offset':50,'total':100,'extra':[1]}, null]]")
    Json.tokenArrayStart [Json.tokenTopValue])
  = inr ([mkProgressInfo "layer-1" "downloading" 50 100 ""; Json.zeroProgressInfo],
         Json.mkDecoder "]" Json.tokenArrayComma [Json.tokenTopValue]).
Proof. vm_compute. reflexivity. Qed.

Example render_empty_array :
  let '(err, r) := renderOutput "[]" clock0 in
  err = None /\ stdout r = [] /\ Json.buf (dec r) = "" /\ decoded r = [].
Proof. vm_compute. repeat split. Qed.

Example render_object_instead_of_array :
  let '(err, r) := renderOutput "{}" clock0 in
  err = None /\ stdout r = [] /\ Json.buf (dec r) = "" /\ decoded r = [].
Proof. vm_compute. repeat split. Qed.

Example render_two_batches :
  let '(err, r) := renderOutput
    (json "[[{'reference':'a','status':'resolving'}],[{'reference':'a','status':'downloading','offset':50,'total':100},{'reference':'b','status':'done','offset':7}]]") clock0 in
  err = None /\
  stdout r =
    [ [Fprintf plainFormat [OString "a"; OString "resolving"; OBar Float64.zero];
       Fprintf summaryFormat [OSeconds 1000000000; OBytes 0; OBytesPerSecond 0 2000000000]];
      [Fprintf transferFormat [OString "a"; OString "downloading"; OBar Float64.half; OBytes 50; OBytes 100];
       Fprintf plainFormat [OString "b"; OString "done"; OBar Float64.one];
       Fprintf summaryFormat [OSeconds 3000000000; OBytes 57; OBytesPerSecond 57 4000000000]] ].
Proof. vm_compute. repeat split. Qed.

Example failingStream_stdout :
  stdout (snd (renderOutput failingStream clock0))
  = [[Fprintf plainFormat [OString "a"; OString "waiting"; OBar Float64.zero];
      summaryLine 1000000000 0 2000000000]].
Proof. vm_compute. reflexivity. Qed.

Example encodeBatch_example :
  Marshal.encodeBatch [mkProgressInfo "a<b" "downloading" (-50) 100 ""; extracting]
  = json "[{'reference':'a\u003cb','status':'downloading','offset':-50,'total':100,'errorMessage':''},{'reference':'layer-2','status':'extracting','offset':0,'total':0,'errorMessage':''}]".
Proof. vm_compute. reflexivity. Qed.

Example decode_encodeBatch_example :
  Json.Decode (Json.mkDecoder
    (Marshal.encodeBatch [mkProgressInfo awkward "downloading" (-50) 100 ""; extracting] ++ "]")
    Json.tokenArrayStart [Json.tokenTopValue])
  = inr ([mkProgressInfo awkward "downloading" (-50) 100 ""; extracting],
         Json.mkDecoder "]" Json.tokenArrayComma [Json.tokenTopValue]).
Proof. vm_compute. reflexivity. Qed.

(** A string that is not valid UTF-8 does not come back: [Marshal] writes the
    replacement character for the stray byte. *)
Example stray_byte_is_replaced :
  Json.Decode (Json.mkDecoder
    (Marshal.encodeBatch [mkProgressInfo (String (chr 255) "") "" 0 0 ""] ++ "]")
    Json.tokenArrayStart [Json.tokenTopValue])
  = inr ([mkProgressInfo (Utf8.EncodeRune Utf8.RuneError) "" 0 0 ""],
         Json.mkDecoder "]" Json.tokenArrayComma [Json.tokenTopValue]).
Proof. vm_compute. reflexivity. Qed.

(** * Properties *)

(** ** int64 sums *)

Lemma wrap_in_range (x : Z) : Int64.in_range x = true -> Int64.wrap x = x.
Proof.
  unfold Int64.in_range, Int64.wrap, Int64.min, Int64.max.
  intros H. apply andb_prop in H. destruct H as [Hlo Hhi].
  apply Z.leb_le in Hlo. apply Z.leb_le in Hhi.
  rewrite Z.mod_small; lia.
Qed.

Lemma wrap_range (x : Z) : Int64.in_range (Int64.wrap x) = true.
Proof.
  unfold Int64.in_range, Int64.wrap, Int64.min, Int64.max.
  pose proof (Z.mod_pos_bound (x + 2 ^ 63) (2 ^ 64) ltac:(lia)).
  apply andb_true_intro. split; apply Z.leb_le; lia.
Qed.

Lemma add_wrap_l (x y : Z) : Int64.add (Int64.wrap x) y = Int64.wrap (x + y).
Proof.
  unfold Int64.add, Int64.wrap.
  replace ((x + 2 ^ 63) mod 2 ^ 64 - 2 ^ 63 + y + 2 ^ 63)
    with ((x + 2 ^ 63) mod 2 ^ 64 + y) by lia.
  rewrite Z.add_mod_idemp_l by lia.
  f_equal. f_equal. lia.
Qed.

Lemma fold_add_wrap (offsets : list Z) (x : Z) :
  fold_left Int64.add offsets (Int64.wrap x)
  = Int64.wrap (x + fold_right Z.add 0 offsets).
Proof.
  revert x. induction offsets as [|o offsets IH]; intros x; simpl.
  - f_equal. lia.
  - rewrite add_wrap_l, IH. f_equal. lia.
Qed.

(** ** The loop of display *)

Lemma noError_eqb (status : ProgressInfo) :
  noError status -> String.eqb (ErrorMessage status) "" = true.
Proof. intros H. apply String.eqb_eq. exact H. Qed.

Lemma hasError_eqb (status : ProgressInfo) :
  hasError status -> String.eqb (ErrorMessage status) "" = false.
Proof. intros H. apply String.eqb_neq. exact H. Qed.

(** Over events without an error message the loop writes one line each, in
    order, and adds up the offsets. *)
Lemma display_loop_app (pre rest : list ProgressInfo) (w : Writer) (total : Z) :
  Forall noError pre ->
  display_loop w total (pre ++ rest)
  = display_loop (w ++ map eventLine pre)%list
      (fold_left Int64.add (map Offset pre) total) rest.
Proof.
  intros Hpre. revert w total.
  induction Hpre as [|status pre Hs _ IH]; intros w total; simpl.
  - now rewrite app_nil_r.
  - rewrite (noError_eqb _ Hs). simpl. rewrite IH.
    now rewrite <- app_assoc.
Qed.

Lemma display_loop_noError (statuses : list ProgressInfo) (w : Writer) :
  Forall noError statuses ->
  display_loop w 0 statuses
  = ((w ++ map eventLine statuses)%list, inr (Int64.wrap (sumOffsets statuses))).
Proof.
  intros H.
  rewrite <- (app_nil_r statuses) at 1.
  rewrite display_loop_app by assumption. simpl.
  change 0 with (Int64.wrap 0) at 1.
  rewrite fold_add_wrap. reflexivity.
Qed.

Lemma display_loop_hasError (pre post : list ProgressInfo) (status : ProgressInfo)
  (w : Writer) :
  Forall noError pre -> hasError status ->
  display_loop w 0 (pre ++ status :: post)
  = ((w ++ map eventLine pre)%list, inl (Errorf (ErrorMessage status))).
Proof.
  intros Hpre Hs.
  rewrite display_loop_app by assumption. simpl.
  now rewrite (hasError_eqb _ Hs).
Qed.

(** A batch either has no error message at all, or splits at the first
    event that has one. *)
Lemma first_error (statuses : list ProgressInfo) :
  Forall noError statuses \/
  exists pre status post,
    statuses = (pre ++ status :: post)%list /\ Forall noError pre /\ hasError status.
Proof.
  induction statuses as [|s statuses IH].
  - left. constructor.
  - destruct (string_dec (ErrorMessage s) "") as [He|He].
    + destruct IH as [IH|(pre & st & post & -> & Hpre & Hst)].
      * left. constructor; assumption.
      * right. exists (s :: pre), st, post. repeat split; try assumption.
        constructor; assumption.
    + right. exists [], s, statuses. repeat split; [constructor | exact He].
Qed.

Lemma Exists_hasError_split (statuses : list ProgressInfo) :
  Exists hasError statuses ->
  exists pre status post,
    statuses = (pre ++ status :: post)%list /\ Forall noError pre /\ hasError status.
Proof.
  intros Hex. destruct (first_error statuses) as [Hall|H]; [|exact H].
  exfalso. apply Exists_exists in Hex. destruct Hex as (s & Hin & Hs).
  rewrite Forall_forall in Hall. exact (Hs (Hall s Hin)).
Qed.

Lemma display_noError (w : Writer) (statuses : list ProgressInfo) (start : Z)
  (clock : Clock) :
  Forall noError statuses ->
  display w statuses start clock
  = ((w ++ map eventLine statuses
        ++ [summaryLine (readings clock (calls clock) - start)
              (Int64.wrap (sumOffsets statuses))
              (readings clock (S (calls clock)) - start)])%list,
     mkClock (readings clock) (S (S (calls clock))),
     None).
Proof.
  intros H. unfold display. rewrite display_loop_noError by assumption.
  unfold Since, Now. simpl. now rewrite <- app_assoc.
Qed.

Lemma display_hasError (w : Writer) (pre post : list ProgressInfo)
  (status : ProgressInfo) (start : Z) (clock : Clock) :
  Forall noError pre -> hasError status ->
  display w (pre ++ status :: post) start clock
  = ((w ++ map eventLine pre)%list, clock, Some (Errorf (ErrorMessage status))).
Proof.
  intros Hpre Hs. unfold display.
  now rewrite display_loop_hasError by assumption.
Qed.

(** ** The decoder consumes its input *)

Lemma skipSpace_length (s : string) :
  (String.length (Json.skipSpace s) <= String.length s)%nat.
Proof.
  induction s as [|c s IH]; simpl; [lia|].
  destruct (Json.isSpace c); simpl; lia.
Qed.

Lemma peek_length (d d' : Json.Decoder) (c : ascii) :
  Json.peek d = inr (c, d') ->
  (String.length (Json.buf d') <= String.length (Json.buf d))%nat
  /\ Json.tokState d' = Json.tokState d
  /\ Json.tokenStack d' = Json.tokenStack d
  /\ exists rest, Json.buf d' = String c rest.
Proof.
  unfold Json.peek. intros H.
  pose proof (skipSpace_length (Json.buf d)) as Hlen.
  destruct (Json.skipSpace (Json.buf d)) as [|c0 rest]; [discriminate|].
  inversion H; subst; simpl. repeat split; try assumption. now exists rest.
Qed.

Lemma scan_length (s : string) :
  forall st stack v rest,
    Json.scan st stack s = Some (inr (v, rest)) ->
    (String.length rest <= String.length s)%nat.
Proof.
  induction s as [|c s IH]; intros st stack v rest; simpl.
  - destruct (Json.step st stack " "); try discriminate.
    intros H; inversion H; subst; simpl; lia.
  - destruct (Json.step st stack c) as [st' stack'|v' [|]|]; try discriminate.
    + intros H. apply IH in H. lia.
    + intros H; inversion H; subst; lia.
    + intros H; inversion H; subst; simpl; lia.
Qed.

(** The first byte of a value never ends it. *)
Lemma beginValue_not_end (stack : list Json.parseState) (c : ascii) (v : Json.value)
  (consumed : bool) :
  Json.beginValue stack c <> Json.scanEnd v consumed.
Proof.
  unfold Json.beginValue.
  destruct (Json.isSpace c); [discriminate|].
  destruct c as [[|] [|] [|] [|] [|] [|] [|] [|]]; simpl; try discriminate;
    match goal with
    | |- (if ?b then _ else _) <> _ => destruct b; discriminate
    end.
Qed.

Lemma readValue_length (s rest : string) (v : Json.value) :
  Json.readValue s = inr (v, rest) ->
  (String.length rest < String.length s)%nat.
Proof.
  unfold Json.readValue.
  destruct (Json.scan Json.stateBeginValue [] s) as [r|] eqn:Hscan; [|discriminate].
  intros ->. destruct s as [|c s]; simpl in Hscan.
  - discriminate.
  - destruct (Json.beginValue [] c) as [st stack|v' consumed|] eqn:Hb.
    + apply scan_length in Hscan. simpl. lia.
    + now apply beginValue_not_end in Hb.
    + discriminate.
Qed.

Lemma drop1_length (c : ascii) (s : string) :
  String.length (drop 1 (String c s)) = String.length s.
Proof. reflexivity. Qed.

Lemma tokenPrepareForDecode_length (d d' : Json.Decoder) :
  Json.tokenPrepareForDecode d = inr d' ->
  (String.length (Json.buf d') <= String.length (Json.buf d))%nat
  /\ Json.tokenStack d' = Json.tokenStack d.
Proof.
  unfold Json.tokenPrepareForDecode.
  destruct (Json.tokState d);
    try (intros H; inversion H; subst; split; [lia|reflexivity]).
  - destruct (Json.peek d) as [e|[c d1]] eqn:Hp; [discriminate|].
    destruct (peek_length _ _ _ Hp) as (Hlen & _ & Hstack & rest & Hbuf).
    destruct (negb (Ascii.eqb c ",")); [discriminate|].
    intros H; inversion H; subst; simpl. rewrite Hbuf in *. simpl in *.
    split; [lia|assumption].
  - destruct (Json.peek d) as [e|[c d1]] eqn:Hp; [discriminate|].
    destruct (peek_length _ _ _ Hp) as (Hlen & _ & Hstack & rest & Hbuf).
    destruct (negb (Ascii.eqb c ":")); [discriminate|].
    intros H; inversion H; subst; simpl. rewrite Hbuf in *. simpl in *.
    split; [lia|assumption].
Qed.

Lemma DecodeWith_length {A : Type} (unmarshal : Json.value -> Json.error + A)
  (d d' : Json.Decoder) (a : A) :
  Json.DecodeWith unmarshal d = inr (a, d') ->
  (String.length (Json.buf d') < String.length (Json.buf d))%nat.
Proof.
  unfold Json.DecodeWith.
  destruct (Json.tokenPrepareForDecode d) as [e|d1] eqn:Hprep; [discriminate|].
  apply tokenPrepareForDecode_length in Hprep. destruct Hprep as [Hlen _].
  destruct (negb (Json.tokenValueAllowed (Json.tokState d1))); [discriminate|].
  destruct (Json.readValue (Json.buf d1)) as [e|[v rest]] eqn:Hread; [discriminate|].
  apply readValue_length in Hread.
  destruct (unmarshal v); [discriminate|].
  intros H; inversion H; subst; simpl. lia.
Qed.

Lemma More_length (d d' : Json.Decoder) (more : bool) :
  Json.More d = (more, d') ->
  (String.length (Json.buf d') <= String.length (Json.buf d))%nat.
Proof.
  unfold Json.More.
  destruct (Json.peek d) as [e|[c d1]] eqn:Hp.
  - intros H; inversion H; subst; lia.
  - apply peek_length in Hp. intros H; inversion H; subst. tauto.
Qed.

(** [Token] never runs out of fuel. *)
Lemma Token_loop_total (fuel : nat) :
  forall d, (String.length (Json.buf d) < fuel)%nat -> Json.Token_loop fuel d <> None.
Proof.
  induction fuel as [|fuel IH]; intros d Hfuel; [lia|].
  simpl.
  destruct (Json.peek d) as [e|[c d1]] eqn:Hp; [discriminate|].
  destruct (peek_length _ _ _ Hp) as (Hlen & _ & _ & rest & Hbuf).
  assert (Hnext : forall st stack,
             Json.Token_loop fuel (Json.advance d1 st stack) <> None).
  { intros st stack. apply IH. unfold Json.advance. simpl.
    rewrite Hbuf in *. simpl in *. lia. }
  destruct c as [[|] [|] [|] [|] [|] [|] [|] [|]];
    repeat match goal with
           | |- Some _ <> None => discriminate
           | |- Json.Token_loop _ _ <> None => apply Hnext
           | |- context [match ?x with _ => _ end] => destruct x
           end.
Qed.

Lemma Token_loop_fuel (fuel fuel' : nat) :
  forall d,
    (String.length (Json.buf d) < fuel)%nat ->
    (String.length (Json.buf d) < fuel')%nat ->
    Json.Token_loop fuel d = Json.Token_loop fuel' d.
Proof.
  revert fuel'. induction fuel as [|fuel IH]; intros fuel' d Hfuel Hfuel'; [lia|].
  destruct fuel' as [|fuel']; [lia|].
  simpl.
  destruct (Json.peek d) as [e|[c d1]] eqn:Hp; [reflexivity|].
  destruct (peek_length _ _ _ Hp) as (Hlen & _ & _ & rest & Hbuf).
  assert (Hnext : forall st stack,
             Json.Token_loop fuel (Json.advance d1 st stack)
             = Json.Token_loop fuel' (Json.advance d1 st stack)).
  { intros st stack. apply IH; unfold Json.advance; simpl;
      rewrite Hbuf in *; simpl in *; lia. }
  destruct c as [[|] [|] [|] [|] [|] [|] [|] [|]]; try reflexivity;
    destruct (Json.tokState d1); try reflexivity; apply Hnext.
Qed.

(** ** The loop of renderOutput *)

Lemma render_loop_fuel (start : Z) (fuel fuel' : nat) :
  forall r,
    (String.length (Json.buf (dec r)) < fuel)%nat ->
    (String.length (Json.buf (dec r)) < fuel')%nat ->
    render_loop fuel start r = render_loop fuel' start r.
Proof.
  revert fuel'. induction fuel as [|fuel IH]; intros fuel' r Hfuel Hfuel'; [lia|].
  destruct fuel' as [|fuel']; [lia|].
  simpl.
  destruct (Json.More (dec r)) as [more d] eqn:Hmore.
  apply More_length in Hmore.
  destruct more; [|reflexivity].
  destruct (Json.Decode d) as [e|[objs d']] eqn:Hdec; [reflexivity|].
  apply DecodeWith_length in Hdec.
  destruct (display Tabwriter.NewWriter objs start (clk r)) as [[tw c] [err|]];
    [reflexivity|].
  apply IH; simpl; lia.
Qed.

(** The loop ends: with fuel above the length of the input it returns. *)
Lemma render_loop_total (start : Z) (fuel : nat) :
  forall r,
    (String.length (Json.buf (dec r)) < fuel)%nat ->
    render_loop fuel start r <> None.
Proof.
  induction fuel as [|fuel IH]; intros r Hfuel; [lia|].
  simpl.
  destruct (Json.More (dec r)) as [more d] eqn:Hmore.
  apply More_length in Hmore.
  destruct more; [|discriminate].
  destruct (Json.Decode d) as [e|[objs d']] eqn:Hdec; [discriminate|].
  apply DecodeWith_length in Hdec.
  destruct (display Tabwriter.NewWriter objs start (clk r)) as [[tw c] [err|]];
    [discriminate|].
  apply IH; simpl; lia.
Qed.

(** One round of the loop on a batch without error message: the batch is
    written and flushed to os.Stdout as one screen, and the loop goes on. *)
Lemma run_loop_batch (start : Z) (r : Run) (d d' : Json.Decoder)
  (objs : list ProgressInfo) :
  Progress.buf (fw r) = [] ->
  Json.More (dec r) = (true, d) ->
  Json.Decode d = inr (objs, d') ->
  Forall noError objs ->
  run_loop start r
  = run_loop start
      (mkRun d'
         (Progress.mkWriter [] (Progress.stdout (fw r) ++ [screen objs start (clk r)]))
         (tick2 (clk r)) (decoded r ++ [objs])).
Proof.
  intros Hbuf Hmore Hdec Hok. unfold run_loop at 1. simpl.
  rewrite Hmore, Hdec.
  rewrite display_noError by assumption.
  unfold Tabwriter.Flush, Progress.Write, Progress.Flush, Tabwriter.NewWriter.
  simpl. rewrite Hbuf. simpl.
  destruct (map eventLine objs ++ _)%list eqn:Hlines.
  { apply app_eq_nil in Hlines. destruct Hlines as [_ Hl]. discriminate. }
  rewrite <- Hlines.
  apply More_length in Hmore. apply DecodeWith_length in Hdec.
  apply render_loop_fuel; simpl; lia.
Qed.

(** One round on a batch in which an event has an error message: the loop
    returns the error of [display]; the tabwriter and [fw] are not flushed
    and the decoder stays where [Decode] left it. *)
Lemma run_loop_task_error (start : Z) (r : Run) (d d' : Json.Decoder)
  (pre post : list ProgressInfo) (status : ProgressInfo) :
  Json.More (dec r) = (true, d) ->
  Json.Decode d = inr ((pre ++ status :: post)%list, d') ->
  Forall noError pre -> hasError status ->
  run_loop start r
  = Some (Some (TaskError (Errorf (ErrorMessage status))),
          mkRun d' (fw r) (clk r) (decoded r ++ [(pre ++ status :: post)%list])).
Proof.
  intros Hmore Hdec Hpre Hs. unfold run_loop. simpl.
  rewrite Hmore, Hdec.
  now rewrite display_hasError by assumption.
Qed.

Lemma run_loop_done (start : Z) (r : Run) (d : Json.Decoder) :
  Json.More (dec r) = (false, d) ->
  run_loop start r = Some (None, mkRun d (fw r) (clk r) (decoded r)).
Proof. intros Hmore. unfold run_loop. simpl. now rewrite Hmore. Qed.

Lemma run_loop_decode_error (start : Z) (r : Run) (d : Json.Decoder) (e : Json.error) :
  Json.More (dec r) = (true, d) ->
  Json.Decode d = inl e ->
  run_loop start r = Some (Some (DecodeError e), mkRun d (fw r) (clk r) (decoded r)).
Proof. intros Hmore Hdec. unfold run_loop. simpl. now rewrite Hmore, Hdec. Qed.

(** [renderOutput] in terms of [run_loop]. *)
Lemma renderOutput_eq (responseBody : string) (clock : Clock) :
  renderOutput responseBody clock =
  let start := readings clock (calls clock) in
  let clock := mkClock (readings clock) (S (calls clock)) in
  let r := mkRun (Json.NewDecoder responseBody) Progress.NewWriter clock [] in
  match Json.Token (dec r) with
  | inl e => (Some (OpeningTokenError e), r)
  | inr (_, d) =>
    match run_loop start (mkRun d Progress.NewWriter clock []) with
    | None => (Some (DecodeError Json.SyntaxError), mkRun d Progress.NewWriter clock [])
    | Some (Some err, r) => (Some err, r)
    | Some (None, r) =>
      match Json.Token (dec r) with
      | inl e => (Some (ClosingTokenError e), r)
      | inr (_, d) => (None, mkRun d (fw r) (clk r) (decoded r))
      end
    end
  end.
Proof. reflexivity. Qed.

(** [renderOutput] returns what its loop and its two [Token] calls return:
    the loop does not run out of fuel. *)
Lemma run_loop_total (start : Z) (r : Run) : run_loop start r <> None.
Proof. apply render_loop_total. lia. Qed.

(** ** The line of one event *)

Lemma display_loop_prefix (statuses : list ProgressInfo) :
  forall (w : Writer) (total : Z),
    exists tail, fst (display_loop w total statuses) = (w ++ tail)%list.
Proof.
  induction statuses as [|s statuses IH]; intros w total; simpl.
  - exists []. now rewrite app_nil_r.
  - destruct (negb (String.eqb (ErrorMessage s) "")).
    + exists []. now rewrite app_nil_r.
    + destruct (IH (w ++ [eventLine s])%list (Int64.add total (Offset s)))
        as [tail Htail].
      exists (eventLine s :: tail). rewrite Htail. now rewrite <- app_assoc.
Qed.

(** Whatever follows it in the batch, an event that is reached is written
    at its place: after the lines of the events before it. *)
Lemma display_writes_event (w : Writer) (pre post : list ProgressInfo)
  (status : ProgressInfo) (start : Z) (clock : Clock) :
  Forall noError pre -> noError status ->
  nth_error (fst (fst (display w (pre ++ status :: post) start clock)))
            (List.length w + List.length pre)
  = Some (eventLine status).
Proof.
  intros Hpre Hs.
  assert (Hw : exists tail,
             fst (fst (display w (pre ++ status :: post) start clock))
             = ((w ++ map eventLine pre) ++ eventLine status :: tail)%list).
  { unfold display.
    rewrite display_loop_app by assumption. simpl.
    rewrite (noError_eqb _ Hs). simpl.
    destruct (display_loop_prefix post
                ((w ++ map eventLine pre) ++ [eventLine status])%list
                (Int64.add (fold_left Int64.add (map Offset pre) 0) (Offset status)))
      as [tail Htail].
    destruct (display_loop _ _ post) as [w' [err|total]]; simpl in *; subst w'.
    - exists tail. now rewrite <- app_assoc.
    - exists (tail ++ [summaryLine (readings clock (calls clock) - start) total
                         (readings clock (S (calls clock)) - start)])%list.
      unfold Since, Now. simpl. unfold summaryLine.
      now rewrite <- !app_assoc. }
  destruct Hw as [tail ->].
  rewrite nth_error_app2; rewrite length_app, length_map; [|lia].
  now rewrite Nat.sub_diag.
Qed.

Lemma eventLine_transfer (status : ProgressInfo) :
  transferStatus (Status status) ->
  eventLine status
  = Fprintf transferFormat
      [OString (Ref status); OString (Status status);
       OBar (if Total status >? 0
             then Float64.div (Float64.of_int (Offset status))
                              (Float64.of_int (Total status))
             else Float64.zero);
       OBytes (Offset status); OBytes (Total status)].
Proof. unfold eventLine. intros [-> | ->]; reflexivity. Qed.

Lemma eventLine_idle (status : ProgressInfo) :
  idleStatus (Status status) ->
  eventLine status
  = Fprintf plainFormat
      [OString (Ref status); OString (Status status); OBar Float64.zero].
Proof. unfold eventLine. intros [-> | ->]; reflexivity. Qed.

Lemma eventLine_other (status : ProgressInfo) :
  ~ transferStatus (Status status) -> ~ idleStatus (Status status) ->
  eventLine status
  = Fprintf plainFormat
      [OString (Ref status); OString (Status status); OBar Float64.one].
Proof.
  unfold eventLine, transferStatus, idleStatus. intros Ht Hi.
  destruct (String.eqb_spec (Status status) "downloading"); [tauto|].
  destruct (String.eqb_spec (Status status) "uploading"); [tauto|].
  destruct (String.eqb_spec (Status status) "resolving"); [tauto|].
  destruct (String.eqb_spec (Status status) "waiting"); [tauto|].
  reflexivity.
Qed.

Lemma eventLine_not_summary (status : ProgressInfo) :
  format (eventLine status) <> summaryFormat.
Proof.
  unfold eventLine.
  destruct (_ || _)%bool; [discriminate|].
  destruct (_ || _)%bool; discriminate.
Qed.

(** ** fmt.Errorf on a message *)

Lemma doPrintf_noPercent (s : string) :
  forall fuel, (String.length s < fuel)%nat -> noPercent s = true ->
               Fmt.doPrintf fuel s = s.
Proof.
  induction s as [|c s IH]; intros fuel Hfuel Hs.
  - destruct fuel; reflexivity.
  - destruct fuel as [|fuel]; [simpl in Hfuel; lia|].
    simpl in *. apply andb_prop in Hs. destruct Hs as [Hc Hs].
    apply negb_true_iff in Hc. rewrite Hc.
    rewrite IH; [reflexivity|lia|assumption].
Qed.

(** A message without ['%'] is the message of the error. *)
Lemma Errorf_verbatim (msg : string) : noPercent msg = true -> Errorf msg = msg.
Proof.
  intros H. unfold Errorf, Fmt.Sprintf0. apply doPrintf_noPercent; [lia|exact H].
Qed.

(** ** The loops have fuel enough

    The loops that go through a string are given one unit of fuel more than
    the string has bytes, and each round consumes a byte: more fuel changes
    nothing. *)

Lemma drop_length (n : nat) (s : string) :
  (String.length (drop n s) <= String.length s)%nat.
Proof.
  revert s. induction n as [|n IH]; intros s; simpl; [lia|].
  destruct s as [|c s]; simpl; [lia|]. specialize (IH s). lia.
Qed.

Lemma drop_length_lt (n : nat) (c : ascii) (s : string) :
  (1 <= n)%nat -> (String.length (drop n (String c s)) < String.length (String c s))%nat.
Proof.
  intros Hn. destruct n as [|n]; [lia|]. simpl.
  pose proof (drop_length n s). lia.
Qed.

Lemma DecodeRune_size (c : ascii) (s : string) :
  (1 <= snd (Utf8.DecodeRune (String c s)))%nat.
Proof.
  unfold Utf8.DecodeRune.
  repeat match goal with
         | |- context [match ?x with _ => _ end] => destruct x
         end; simpl; lia.
Qed.

Lemma valid_fuel_enough (f1 : nat) :
  forall f2 s,
    (String.length s < f1)%nat -> (String.length s < f2)%nat ->
    Utf8.valid_fuel f1 s = Utf8.valid_fuel f2 s.
Proof.
  induction f1 as [|f1 IH]; intros f2 s H1 H2; [lia|].
  destruct f2 as [|f2]; [lia|].
  destruct s as [|c s]; [reflexivity|].
  cbn [Utf8.valid_fuel].
  pose proof (DecodeRune_size c s) as Hsize.
  destruct (Utf8.DecodeRune (String c s)) as [r size]. cbn [snd] in Hsize.
  destruct ((r =? Utf8.RuneError) && (size =? 1)%nat); [reflexivity|].
  pose proof (drop_length_lt size c s Hsize).
  apply IH; lia.
Qed.

Lemma escape_enough (f1 : nat) :
  forall f2 s,
    (String.length s < f1)%nat -> (String.length s < f2)%nat ->
    Marshal.escape f1 s = Marshal.escape f2 s.
Proof.
  induction f1 as [|f1 IH]; intros f2 s H1 H2; [lia|].
  destruct f2 as [|f2]; [lia|].
  destruct s as [|c s]; [reflexivity|].
  cbn [Marshal.escape].
  assert (Hs : Marshal.escape f1 s = Marshal.escape f2 s)
    by (apply IH; simpl in *; lia).
  destruct (code c <? 128).
  - rewrite Hs. reflexivity.
  - pose proof (DecodeRune_size c s) as Hsize.
    destruct (Utf8.DecodeRune (String c s)) as [r size]. cbn [snd] in Hsize.
    pose proof (drop_length_lt size c s Hsize).
    rewrite (IH f2 (drop size (String c s))) by lia.
    reflexivity.
Qed.

Lemma getu4_length (s : string) : 0 <= Json.getu4 s -> (6 <= String.length s)%nat.
Proof.
  destruct s as [|c0 [|c1 [|c2 [|c3 [|c4 [|c5 s]]]]]]; simpl; try lia;
    repeat match goal with
           | |- context [match ?x with _ => _ end] => destruct x
           end; simpl; lia.
Qed.

Lemma drop_length_le (n : nat) (s : string) :
  (n <= String.length s)%nat ->
  String.length (drop n s) = (String.length s - n)%nat.
Proof.
  revert s. induction n as [|n IH]; intros s Hn; simpl; [lia|].
  destruct s as [|c s]; simpl in *; [lia|]. apply IH. lia.
Qed.

Lemma unquote_loop_enough (f1 : nat) :
  forall f2 s,
    (String.length s < f1)%nat -> (String.length s < f2)%nat ->
    Json.unquote_loop f1 s = Json.unquote_loop f2 s.
Proof.
  induction f1 as [|f1 IH]; intros f2 s H1 H2; [lia|].
  destruct f2 as [|f2]; [lia|].
  destruct s as [|c s]; [reflexivity|].
  cbn [Json.unquote_loop].
  destruct (Ascii.eqb c "\").
  - destruct s as [|e s'']; [reflexivity|].
    assert (Hs : Json.unquote_loop f1 s'' = Json.unquote_loop f2 s'')
      by (apply IH; simpl in *; lia).
    assert (Hu :
      (let rr := Json.getu4 (String c (String e s'')) in
       if rr <? 0 then None
       else
         let s6 := drop 6 (String c (String e s'')) in
         if Json.IsSurrogate rr then
           let dec := Json.utf16DecodeRune rr (Json.getu4 s6) in
           if negb (dec =? Utf8.RuneError) then
             option_map (append (Utf8.EncodeRune dec))
                        (Json.unquote_loop f1 (drop 6 s6))
           else
             option_map (append (Utf8.EncodeRune Utf8.RuneError))
                        (Json.unquote_loop f1 s6)
         else
           option_map (append (Utf8.EncodeRune rr)) (Json.unquote_loop f1 s6))
      =
      (let rr := Json.getu4 (String c (String e s'')) in
       if rr <? 0 then None
       else
         let s6 := drop 6 (String c (String e s'')) in
         if Json.IsSurrogate rr then
           let dec := Json.utf16DecodeRune rr (Json.getu4 s6) in
           if negb (dec =? Utf8.RuneError) then
             option_map (append (Utf8.EncodeRune dec))
                        (Json.unquote_loop f2 (drop 6 s6))
           else
             option_map (append (Utf8.EncodeRune Utf8.RuneError))
                        (Json.unquote_loop f2 s6)
         else
           option_map (append (Utf8.EncodeRune rr)) (Json.unquote_loop f2 s6))).
    { cbv zeta.
      destruct (Z.ltb_spec (Json.getu4 (String c (String e s''))) 0) as [|Hu];
        [reflexivity|].
      apply getu4_length in Hu.
      pose proof (drop_length_le 6 _ Hu) as Hlen6.
      pose proof (drop_length 6 (drop 6 (String c (String e s'')))) as Hlen12.
      rewrite (IH f2 (drop 6 (String c (String e s'')))) by lia.
      rewrite (IH f2 (drop 6 (drop 6 (String c (String e s''))))) by lia.
      reflexivity. }
    destruct e as [[|] [|] [|] [|] [|] [|] [|] [|]];
      try reflexivity; try (rewrite Hs; reflexivity); exact Hu.
  - destruct (Ascii.eqb c DQuote || (code c <? 32)); [reflexivity|].
    destruct (code c <? 128).
    + rewrite (IH f2 s) by (simpl in *; lia). reflexivity.
    + pose proof (DecodeRune_size c s) as Hsize.
      destruct (Utf8.DecodeRune (String c s)) as [r size]. cbn [snd] in Hsize.
      pose proof (drop_length_lt size c s Hsize).
      rewrite (IH f2 (drop size (String c s))) by lia.
      reflexivity.
Qed.

Lemma skipFlags_length (s : string) :
  (String.length (Fmt.skipFlags s) <= String.length s)%nat.
Proof.
  induction s as [|c s IH]; simpl; [lia|].
  destruct (Fmt.isFlag c); simpl; lia.
Qed.

Lemma parsenum_loop_length (s : string) :
  forall num isnum r rest,
    Fmt.parsenum_loop s num isnum = Some (r, rest) ->
    (String.length rest <= String.length s)%nat.
Proof.
  induction s as [|c s IH]; intros num isnum r rest; simpl.
  - intros H; inversion H; subst; simpl; lia.
  - destruct (Fmt.isDigit c).
    + destruct (Fmt.tooLarge num); [discriminate|].
      intros H. apply IH in H. lia.
    + intros H; inversion H; subst; simpl; lia.
Qed.

Lemma parsenum_length (s : string) :
  (String.length (snd (Fmt.parsenum s)) <= String.length s)%nat.
Proof.
  unfold Fmt.parsenum.
  destruct (Fmt.parsenum_loop s 0 false) as [[r rest]|] eqn:H; simpl; [|lia].
  now apply parsenum_loop_length in H.
Qed.

Lemma cut_bracket_length (s : string) :
  forall inside after,
    Fmt.cut_bracket s = Some (inside, after) ->
    (String.length after < String.length s)%nat.
Proof.
  induction s as [|c s IH]; intros inside after; simpl; [discriminate|].
  destruct (Ascii.eqb c "]").
  - intros H; inversion H; subst; lia.
  - destruct (Fmt.cut_bracket s) as [[i a]|]; [|discriminate].
    intros H; inversion H; subst. specialize (IH i after eq_refl). lia.
Qed.

Lemma parseArgNumber_length (s : string) :
  (String.length (snd (Fmt.parseArgNumber s)) <= String.length s)%nat.
Proof.
  unfold Fmt.parseArgNumber.
  pose proof (drop_length 1 s).
  destruct (String.length s <? 3)%nat; cbn [snd]; [lia|].
  destruct (Fmt.cut_bracket (drop 1 s)) as [[inside after]|] eqn:Hcut;
    cbn [snd]; [|lia].
  apply cut_bracket_length in Hcut.
  destruct (Fmt.parsenum_loop inside 0 false) as [[[|] [|]]|]; cbn [snd]; lia.
Qed.

Lemma argNumber_length (good : bool) (s : string) :
  (String.length (snd (Fmt.argNumber good s)) <= String.length s)%nat.
Proof.
  unfold Fmt.argNumber.
  destruct s as [|c s']; simpl; [lia|].
  pose proof (parseArgNumber_length (String c s')) as H.
  destruct c as [[|] [|] [|] [|] [|] [|] [|] [|]]; simpl; try lia;
    destruct (Fmt.parseArgNumber _) as [ok rest]; simpl in *; lia.
Qed.

Lemma directive_length (s : string) :
  (String.length (snd (Fmt.directive s)) <= String.length s)%nat.
Proof.
  unfold Fmt.directive.
  pose proof (skipFlags_length s) as H0.
  set (s0 := Fmt.skipFlags s) in *.
  pose proof (argNumber_length true s0) as H1.
  destruct (Fmt.argNumber true s0) as [[afterIndex good] s1]. cbn [snd] in H1.
  (* width *)
  assert (Hw : forall r : string * bool * bool * string,
             r = match s1 with
                 | String "*"%char s' => (Fmt.badWidthString, false, good, s')
                 | _ =>
                   let '(widPresent, s') := Fmt.parsenum s1 in
                   (EmptyString, afterIndex,
                    good && negb (afterIndex && widPresent), s')
                 end ->
             (String.length (snd r) <= String.length s1)%nat).
  { intros r ->. pose proof (parsenum_length s1) as Hp.
    destruct (Fmt.parsenum s1) as [wp s']. cbn [snd] in Hp.
    destruct s1 as [|c s1']; [simpl in *; lia|].
    destruct c as [[|] [|] [|] [|] [|] [|] [|] [|]]; simpl in *; lia. }
  specialize (Hw _ eq_refl).
  destruct (match s1 with
            | String "*"%char s' => (Fmt.badWidthString, false, good, s')
            | _ =>
              let '(widPresent, s') := Fmt.parsenum s1 in
              (EmptyString, afterIndex,
               good && negb (afterIndex && widPresent), s')
            end) as [[[out afterIndex2] good2] s2].
  cbn [snd] in Hw.
  (* precision *)
  assert (Hp : forall r : string * bool * bool * string,
             r = match s2 with
                 | String "."%char s' =>
                   let good := good2 && negb afterIndex2 in
                   let '(afterIndex, good, s') := Fmt.argNumber good s' in
                   match s' with
                   | String "*"%char s'' =>
                     (out ++ Fmt.badPrecString, false, good, s'')
                   | _ =>
                     let '(_, s'') := Fmt.parsenum s' in
                     (out, afterIndex, good, s'')
                   end
                 | _ => (out, afterIndex2, good2, s2)
                 end ->
             (String.length (snd r) <= String.length s2)%nat).
  { intros r ->.
    destruct s2 as [|c s2']; [simpl; lia|].
    assert (Hdot :
      (String.length
         (snd (let good := good2 && negb afterIndex2 in
               let '(afterIndex, good, s') := Fmt.argNumber good s2' in
               match s' with
               | String "*"%char s'' =>
                 (out ++ Fmt.badPrecString, false, good, s'')
               | _ =>
                 let '(_, s'') := Fmt.parsenum s' in
                 (out, afterIndex, good, s'')
               end))
       <= String.length s2')%nat).
    { cbv zeta.
      pose proof (argNumber_length (good2 && negb afterIndex2) s2') as Ha.
      destruct (Fmt.argNumber (good2 && negb afterIndex2) s2')
        as [[ai g] s3]. cbn [snd] in Ha.
      pose proof (parsenum_length s3) as Hn.
      destruct (Fmt.parsenum s3) as [pp s4]. cbn [snd] in Hn.
      destruct s3 as [|c3 s3']; [simpl in *; lia|].
      destruct c3 as [[|] [|] [|] [|] [|] [|] [|] [|]]; simpl in *; lia. }
    destruct c as [[|] [|] [|] [|] [|] [|] [|] [|]];
      try (simpl; lia); simpl in *; lia. }
  specialize (Hp _ eq_refl).
  destruct (match s2 with
            | String "."%char s' => _
            | _ => (out, afterIndex2, good2, s2)
            end) as [[[out3 afterIndex3] good3] s3].
  cbn [snd] in Hp.
  pose proof (argNumber_length good3 s3) as H4.
  assert (H5 : (String.length
                  (snd (if afterIndex3 then (good3, s3)
                        else let '(_, good, s) := Fmt.argNumber good3 s3 in (good, s)))
                <= String.length s3)%nat).
  { destruct afterIndex3; [simpl; lia|].
    destruct (Fmt.argNumber good3 s3) as [[a g] s4]. simpl in *. lia. }
  destruct (if afterIndex3 then (good3, s3)
            else let '(_, good, s) := Fmt.argNumber good3 s3 in (good, s))
    as [good5 s5].
  cbn [snd] in H5.
  destruct s5 as [|c5 s5']; [simpl; lia|].
  pose proof (drop_length (snd (Utf8.DecodeRune (String c5 s5'))) (String c5 s5')) as H6.
  destruct (Utf8.DecodeRune (String c5 s5')) as [verb size]. cbn [snd] in H6.
  destruct (verb =? code "%"); [simpl; lia|].
  destruct (negb good5); simpl; lia.
Qed.

Lemma doPrintf_enough (f1 : nat) :
  forall f2 s,
    (String.length s < f1)%nat -> (String.length s < f2)%nat ->
    Fmt.doPrintf f1 s = Fmt.doPrintf f2 s.
Proof.
  induction f1 as [|f1 IH]; intros f2 s H1 H2; [lia|].
  destruct f2 as [|f2]; [lia|].
  destruct s as [|c s]; [reflexivity|].
  cbn [Fmt.doPrintf].
  destruct (Ascii.eqb c "%").
  - pose proof (directive_length s) as Hd.
    destruct (Fmt.directive s) as [out rest]. cbn [snd] in Hd.
    rewrite (IH f2 rest) by (simpl in *; lia). reflexivity.
  - rewrite (IH f2 s) by (simpl in *; lia). reflexivity.
Qed.

(** * Main theorems *)

(** ** Lines *)

(** C4: an event whose status is [downloading] or [uploading] is written, at
    its place in the pass, as a line with the byte-size column
    ([transferFormat], with [Offset] and [Total] as byte sizes) whose bar is
    the [float64] quotient of [Offset] by [Total] when [Total > 0] and [0]
    when [Total] is [0]; with [Offset = 50] and [Total = 100] the bar is
    [0.5] ([Float64.half]) whatever the reference. *)
Theorem transfer_line_ratio (w : Writer) (pre post : list ProgressInfo)
  (status : ProgressInfo) (start : Z) (clock : Clock) :
  Forall noError pre -> noError status -> transferStatus (Status status) ->
  exists bar,
    nth_error (fst (fst (display w (pre ++ status :: post) start clock)))
              (List.length w + List.length pre)
    = Some (Fprintf transferFormat
              [OString (Ref status); OString (Status status); OBar bar;
               OBytes (Offset status); OBytes (Total status)])
    /\ (Total status > 0 ->
        bar = Float64.div (Float64.of_int (Offset status))
                          (Float64.of_int (Total status)))
    /\ (Total status = 0 -> bar = Float64.zero)
    /\ (Offset status = 50 -> Total status = 100 -> bar = Float64.half).
Proof.
  intros Hpre Hs Hst.
  eexists. split.
  - rewrite display_writes_event by assumption.
    rewrite eventLine_transfer by assumption. reflexivity.
  - repeat split.
    + intros Hpos.
      assert (Hgt : (Total status >? 0) = true) by (apply Z.gtb_lt; lia).
      now rewrite Hgt.
    + intros ->. reflexivity.
    + intros -> ->. reflexivity.
Qed.

Lemma transfer_line_ratio_witness :
  exists bar,
    nth_error (fst (fst (display [] ([] ++ halfway "layer-1" :: []) 0 clock0)))
              (List.length (@nil printed) + List.length (@nil ProgressInfo))
    = Some (Fprintf transferFormat
              [OString "layer-1"; OString "downloading"; OBar bar;
               OBytes 50; OBytes 100])
    /\ (Total (halfway "layer-1") > 0 ->
        bar = Float64.div (Float64.of_int 50) (Float64.of_int 100))
    /\ (Total (halfway "layer-1") = 0 -> bar = Float64.zero)
    /\ (Offset (halfway "layer-1") = 50 -> Total (halfway "layer-1") = 100 ->
        bar = Float64.half).
Proof.
  apply (transfer_line_ratio [] [] [] (halfway "layer-1") 0 clock0).
  - constructor.
  - reflexivity.
  - left. reflexivity.
Defined.

(** C5: an event whose status is [resolving] or [waiting] is written as a
    line without byte-size column ([plainFormat]: reference, status, bar)
    whose bar is [0]; an event whose status is none of [downloading],
    [uploading], [resolving], [waiting] is written as such a line whose bar
    is [1]. *)
Theorem plain_line_bar (w : Writer) (pre post : list ProgressInfo)
  (status : ProgressInfo) (start : Z) (clock : Clock) :
  Forall noError pre -> noError status -> ~ transferStatus (Status status) ->
  exists bar,
    nth_error (fst (fst (display w (pre ++ status :: post) start clock)))
              (List.length w + List.length pre)
    = Some (Fprintf plainFormat
              [OString (Ref status); OString (Status status); OBar bar])
    /\ (idleStatus (Status status) -> bar = Float64.zero)
    /\ (~ idleStatus (Status status) -> bar = Float64.one).
Proof.
  intros Hpre Hs Hnt.
  rewrite display_writes_event by assumption.
  assert (Hdec : idleStatus (Status status) \/ ~ idleStatus (Status status)).
  { unfold idleStatus.
    destruct (string_dec (Status status) "resolving"); [tauto|].
    destruct (string_dec (Status status) "waiting"); tauto. }
  destruct Hdec as [Hi|Hi].
  - exists Float64.zero. rewrite eventLine_idle by assumption.
    repeat split; tauto.
  - exists Float64.one. rewrite eventLine_other by assumption.
    repeat split; tauto.
Qed.

Lemma plain_line_bar_witness :
  exists bar,
    nth_error (fst (fst (display [] ([halfway "layer-1"] ++ extracting :: []) 0 clock0)))
              (List.length (@nil printed) + List.length [halfway "layer-1"])
    = Some (Fprintf plainFormat [OString "layer-2"; OString "extracting"; OBar bar])
    /\ (idleStatus (Status extracting) -> bar = Float64.zero)
    /\ (~ idleStatus (Status extracting) -> bar = Float64.one).
Proof.
  apply (plain_line_bar [] [halfway "layer-1"] [] extracting 0 clock0).
  - repeat constructor.
  - reflexivity.
  - intros [H|H]; discriminate H.
Defined.

(** C6, as amended: a batch without error message is written as one line per
    event, in the order of the batch, followed by one summary line; the total
    of the summary line is the sum of the [Offset] fields of that batch,
    taken in [int64]: the sum itself whenever it fits in an [int64].  It is
    the total of that batch alone: the round of the loop of [renderOutput]
    puts on os.Stdout the screen made of these lines, whatever was decoded
    before. *)
Theorem batch_lines_then_summary :
  (forall w statuses start clock,
      Forall noError statuses ->
      exists elapsed elapsed' total clock',
        display w statuses start clock
        = ((w ++ map eventLine statuses ++ [summaryLine elapsed total elapsed'])%list,
           clock', None)
        /\ total = Int64.wrap (sumOffsets statuses)
        /\ (Int64.in_range (sumOffsets statuses) = true ->
            total = sumOffsets statuses))
  /\ (forall start r d d' objs,
         Progress.buf (fw r) = [] ->
         Json.More (dec r) = (true, d) ->
         Json.Decode d = inr (objs, d') ->
         Forall noError objs ->
         run_loop start r
         = run_loop start
             (mkRun d'
                (Progress.mkWriter []
                   (Progress.stdout (fw r) ++ [screen objs start (clk r)]))
                (tick2 (clk r)) (decoded r ++ [objs]))).
Proof.
  split.
  - intros w statuses start clock H. do 4 eexists. split; [|split].
    + apply display_noError. exact H.
    + reflexivity.
    + intros Hr. now apply wrap_in_range.
  - intros. now apply run_loop_batch with (d := d).
Qed.

Lemma batch_lines_then_summary_witness :
  Forall noError [halfway "layer-1"; extracting]
  /\ exists elapsed elapsed' total clock',
      display [] [halfway "layer-1"; extracting] 0 clock0
      = (([] ++ map eventLine [halfway "layer-1"; extracting]
             ++ [summaryLine elapsed total elapsed'])%list,
         clock', None)
      /\ total = Int64.wrap (sumOffsets [halfway "layer-1"; extracting])
      /\ (Int64.in_range (sumOffsets [halfway "layer-1"; extracting]) = true ->
          total = sumOffsets [halfway "layer-1"; extracting]).
Proof.
  assert (H : Forall noError [halfway "layer-1"; extracting])
    by (repeat constructor).
  split; [exact H|].
  apply (proj1 batch_lines_then_summary [] [halfway "layer-1"; extracting] 0 clock0 H).
Defined.

(** C6, as stated, fails: two events of [2^62] bytes each have the sum
    [2^63], and the summary line shows [-2^63]. *)
Lemma summary_total_wraps :
  Forall noError hugeBatch
  /\ sumOffsets hugeBatch = 9223372036854775808
  /\ nth_error (fst (fst (display [] hugeBatch 0 clock0))) 2
     = Some (summaryLine 0 (-9223372036854775808) 1000000000).
Proof.
  split; [repeat constructor|]. split; reflexivity.
Qed.

(** ** Errors of display *)

(** C10: [display] returns an error if and only if an event of the batch has
    a non-empty [ErrorMessage]; a batch without one is rendered without
    error whatever the references, statuses, offsets and totals. *)
Theorem display_error_iff (w : Writer) (statuses : list ProgressInfo)
  (start : Z) (clock : Clock) :
  (snd (display w statuses start clock) <> None <-> Exists hasError statuses)
  /\ (Forall noError statuses -> snd (display w statuses start clock) = None).
Proof.
  assert (Hok : Forall noError statuses ->
                snd (display w statuses start clock) = None).
  { intros H. now rewrite display_noError. }
  split; [|exact Hok]. split.
  - intros Herr. destruct (first_error statuses) as [Hall|H].
    + now rewrite Hok in Herr.
    + destruct H as (pre & s & post & -> & _ & Hs).
      apply Exists_app. right. now constructor.
  - intros Hex. apply Exists_hasError_split in Hex.
    destruct Hex as (pre & s & post & -> & Hpre & Hs).
    rewrite display_hasError by assumption. discriminate.
Qed.

Lemma display_error_iff_witness :
  Forall noError oddBatch /\ snd (display [] oddBatch 0 clock0) = None.
Proof.
  assert (H : Forall noError oddBatch) by (repeat constructor).
  split; [exact H|].
  exact (proj2 (display_error_iff [] oddBatch 0 clock0) H).
Defined.

(** C2: on a batch one of whose events carries the message
    [pull library%2Fredis: not found], no summary line is written, but the
    error that [display], and with it [renderOutput], returns does not carry
    that message: [fmt.Errorf] takes the message for a format string and
    [%2F] for a verb without operand. *)
Theorem error_message_is_formatted :
  display Tabwriter.NewWriter
    [mkProgressInfo "library/redis" "resolving" 0 0 "pull library%2Fredis: not found"]
    0 clock0
  = ([], clock0, Some "pull library%!F(MISSING)redis: not found")
  /\ fst (renderOutput
       (json "[[{'reference':'library/redis','status':'resolving','errorMessage':'pull library%2Fredis: not found'}]]")
       clock0)
     = Some (TaskError "pull library%!F(MISSING)redis: not found")
  /\ "pull library%!F(MISSING)redis: not found" <> "pull library%2Fredis: not found".
Proof.
  split; [reflexivity|]. split; [vm_compute; reflexivity|discriminate].
Qed.

Lemma render_loop_result (start : Z) (fuel : nat) :
  forall r res r',
    render_loop fuel start r = Some (res, r') ->
    Progress.buf (fw r) = [] ->
    screens start (decoded r) (stdout r) ->
    loop_result start res r'.
Proof.
  induction fuel as [|fuel IH]; intros r res r' Hloop Hbuf Hinv; [discriminate|].
  simpl in Hloop.
  destruct (Json.More (dec r)) as [[|] d] eqn:Hmore.
  2:{ inversion Hloop; subst. exact Hinv. }
  destruct (Json.Decode d) as [e|[objs d']] eqn:Hdec.
  { inversion Hloop; subst. exact Hinv. }
  destruct (first_error objs) as [Hok|(pre & s & post & -> & Hpre & Hs)].
  - rewrite display_noError in Hloop by assumption.
    apply IH in Hloop; [exact Hloop| |].
    + simpl. unfold Tabwriter.Flush, Progress.Write, Progress.Flush.
      simpl. rewrite Hbuf.
      destruct (_ ++ _)%list eqn:Hl; [|reflexivity].
      apply app_eq_nil in Hl. destruct Hl as [_ Hl].
      apply app_eq_nil in Hl. destruct Hl as [_ Hl]. discriminate.
    + unfold stdout. simpl. unfold Tabwriter.Flush, Progress.Write, Progress.Flush.
      simpl. rewrite Hbuf.
      destruct (_ ++ _)%list eqn:Hl.
      { apply app_eq_nil in Hl. destruct Hl as [_ Hl].
        apply app_eq_nil in Hl. destruct Hl as [_ Hl]. discriminate. }
      rewrite <- Hl. simpl.
      apply Forall2_app; [exact Hinv|].
      constructor; [|constructor]. split; [exact Hok|].
      exists (clk r). reflexivity.
  - rewrite display_hasError in Hloop by assumption.
    inversion Hloop; subst. simpl.
    exists (decoded r), pre, s, post. repeat split; assumption.
Qed.

Lemma renderOutput_task_error (body : string) (clock : Clock) (msg : string)
  (r : Run) :
  renderOutput body clock = (Some (TaskError msg), r) ->
  loop_result (readings clock (calls clock)) (Some (TaskError msg)) r.
Proof.
  rewrite renderOutput_eq. cbv zeta.
  destruct (Json.Token _) as [e|[t d]]; [discriminate|].
  destruct (run_loop _ _) as [[[err|] r1]|] eqn:Hloop; try discriminate.
  - intros H; inversion H; subst.
    unfold run_loop in Hloop.
    apply render_loop_result in Hloop; [exact Hloop|reflexivity|constructor].
  - destruct (Json.Token (dec r1)) as [e|[t' d']]; discriminate.
Qed.

(** C3: in a batch with an error message, [display] stops at the first event
    that has one: the lines written are those of the events before it, no
    line is written for it or for a later event, and no summary line; the
    loop of [renderOutput] returns that error with the decoder where
    [Decode] left it after this batch; and when [renderOutput] returns the
    error, the batch with the error message is the last one decoded. *)
Theorem abort_at_first_error :
  (forall w pre status post start clock,
      Forall noError pre -> hasError status ->
      display w (pre ++ status :: post) start clock
      = ((w ++ map eventLine pre)%list, clock, Some (Errorf (ErrorMessage status)))
      /\ Forall (fun line => format line <> summaryFormat) (map eventLine pre))
  /\ (forall start r d d' pre status post,
         Json.More (dec r) = (true, d) ->
         Json.Decode d = inr ((pre ++ status :: post)%list, d') ->
         Forall noError pre -> hasError status ->
         run_loop start r
         = Some (Some (TaskError (Errorf (ErrorMessage status))),
                 mkRun d' (fw r) (clk r)
                       (decoded r ++ [(pre ++ status :: post)%list])))
  /\ (forall body clock msg r,
         renderOutput body clock = (Some (TaskError msg), r) ->
         exists batches pre status post,
           decoded r = (batches ++ [(pre ++ status :: post)%list])%list
           /\ Forall (Forall noError) batches
           /\ Forall noError pre /\ hasError status).
Proof.
  split; [|split].
  - intros w pre status post start clock Hpre Hs. split.
    + now apply display_hasError.
    + apply Forall_forall. intros line Hin.
      apply in_map_iff in Hin. destruct Hin as (s & <- & _).
      apply eventLine_not_summary.
  - intros. now apply run_loop_task_error with (d := d).
  - intros body clock msg r H.
    apply renderOutput_task_error in H.
    destruct H as (batches & pre & s & post & Hdec & Hpre & Hs & _ & Hscr).
    exists batches, pre, s, post. repeat split; try assumption.
    clear Hdec. unfold screens in Hscr.
    induction Hscr as [|objs scr bs out [Hok _] _ IH]; constructor; assumption.
Qed.

Lemma abort_at_first_error_witness :
  exists batches pre status post,
    decoded (snd (renderOutput failingStream clock0))
    = (batches ++ [(pre ++ status :: post)%list])%list
    /\ Forall (Forall noError) batches
    /\ Forall noError pre /\ hasError status.
Proof.
  apply (proj2 (proj2 abort_at_first_error) failingStream clock0 "unauthorized"
               (snd (renderOutput failingStream clock0))).
  vm_compute. reflexivity.
Defined.

(** C9: when the rendering of a batch fails, the loop of [renderOutput]
    returns without [tw.Flush()] and [fw.Flush()]: os.Stdout has received
    what it had received before that batch; and when [renderOutput] returns
    the error, os.Stdout has received one screen for each batch decoded
    before the failing one, each the screen of its batch, and nothing else. *)
Theorem failing_batch_not_flushed :
  (forall start r d d' objs,
      Json.More (dec r) = (true, d) ->
      Json.Decode d = inr (objs, d') ->
      Exists hasError objs ->
      exists msg r',
        run_loop start r = Some (Some (TaskError msg), r')
        /\ stdout r' = stdout r)
  /\ (forall body clock msg r,
         renderOutput body clock = (Some (TaskError msg), r) ->
         exists batches failing,
           decoded r = (batches ++ [failing])%list
           /\ Exists hasError failing
           /\ screens (readings clock (calls clock)) batches (stdout r)).
Proof.
  split.
  - intros start r d d' objs Hmore Hdec Hex.
    apply Exists_hasError_split in Hex.
    destruct Hex as (pre & s & post & -> & Hpre & Hs).
    eexists. eexists. split.
    + apply run_loop_task_error with (d := d); eassumption.
    + reflexivity.
  - intros body clock msg r H.
    apply renderOutput_task_error in H.
    destruct H as (batches & pre & s & post & Hdec & Hpre & Hs & _ & Hscr).
    exists batches, (pre ++ s :: post)%list. repeat split; try assumption.
    apply Exists_app. right. now constructor.
Qed.

Lemma failing_batch_not_flushed_witness :
  exists batches failing,
    decoded (snd (renderOutput failingStream clock0)) = (batches ++ [failing])%list
    /\ Exists hasError failing
    /\ screens (readings clock0 (calls clock0)) batches
               (stdout (snd (renderOutput failingStream clock0))).
Proof.
  apply (proj2 failing_batch_not_flushed failingStream clock0 "unauthorized"
               (snd (renderOutput failingStream clock0))).
  vm_compute. reflexivity.
Defined.

(** ** The outer array *)

Lemma allSpace_cons (c : ascii) (s : string) :
  Json.allSpace (String c s) = Json.isSpace c && Json.allSpace s.
Proof. reflexivity. Qed.

Lemma skipSpace_app (ws : string) (c : ascii) (s : string) :
  Json.allSpace ws = true -> Json.isSpace c = false ->
  Json.skipSpace (ws ++ String c s) = String c s.
Proof.
  intros Hws Hc. induction ws as [|w ws IH]; simpl.
  - now rewrite Hc.
  - rewrite allSpace_cons in Hws. apply andb_prop in Hws.
    destruct Hws as [Hw Hws]. rewrite Hw. now apply IH.
Qed.

Lemma peek_app (ws : string) (c : ascii) (s : string) (st : Json.tokenState)
  (stack : list Json.tokenState) :
  Json.allSpace ws = true -> Json.isSpace c = false ->
  Json.peek (Json.mkDecoder (ws ++ String c s) st stack)
  = inr (c, Json.mkDecoder (String c s) st stack).
Proof.
  intros Hws Hc. unfold Json.peek. simpl.
  now rewrite skipSpace_app by assumption.
Qed.

Lemma Token_open (ws s : string) (st : Json.tokenState)
  (stack : list Json.tokenState) :
  Json.allSpace ws = true -> Json.tokenValueAllowed st = true ->
  Json.Token (Json.mkDecoder (ws ++ "[" ++ s) st stack)
  = inr (Json.Delim "[", Json.mkDecoder s Json.tokenArrayStart (stack ++ [st])).
Proof.
  intros Hws Hst. unfold Json.Token. cbn [Json.Token_loop].
  change (ws ++ "[" ++ s) with (ws ++ String "[" s).
  rewrite peek_app by (assumption || reflexivity).
  cbn. now rewrite Hst.
Qed.

Lemma Token_open_brace (ws s : string) (st : Json.tokenState)
  (stack : list Json.tokenState) :
  Json.allSpace ws = true -> Json.tokenValueAllowed st = true ->
  Json.Token (Json.mkDecoder (ws ++ "{" ++ s) st stack)
  = inr (Json.Delim "{", Json.mkDecoder s Json.tokenObjectStart (stack ++ [st])).
Proof.
  intros Hws Hst. unfold Json.Token. cbn [Json.Token_loop].
  change (ws ++ "{" ++ s) with (ws ++ String "{" s).
  rewrite peek_app by (assumption || reflexivity).
  cbn. now rewrite Hst.
Qed.

Lemma Token_close_empty (ws s : string) (st : Json.tokenState) :
  Json.allSpace ws = true ->
  Json.Token (Json.mkDecoder (ws ++ "]" ++ s) Json.tokenArrayStart [st])
  = inr (Json.Delim "]", Json.mkDecoder s (Json.tokenValueEnd st) []).
Proof.
  intros Hws. unfold Json.Token. cbn [Json.Token_loop].
  change (ws ++ "]" ++ s) with (ws ++ String "]" s).
  rewrite peek_app by (assumption || reflexivity).
  reflexivity.
Qed.

Lemma More_close (ws s : string) (st : Json.tokenState)
  (stack : list Json.tokenState) :
  Json.allSpace ws = true ->
  Json.More (Json.mkDecoder (ws ++ "]" ++ s) st stack)
  = (false, Json.mkDecoder ("]" ++ s) st stack).
Proof.
  intros Hws. unfold Json.More.
  change (ws ++ "]" ++ s) with (ws ++ String "]" s).
  now rewrite peek_app by (assumption || reflexivity).
Qed.

(** C7: on a stream that is an empty outer array, [renderOutput] returns
    [nil]; nothing has been decoded, nothing written to the progress writer
    or os.Stdout, and the decoder has consumed the closing delimiter (what
    follows it is left unread). *)
Theorem empty_array_stream (ws1 ws2 rest : string) (clock : Clock) :
  Json.allSpace ws1 = true -> Json.allSpace ws2 = true ->
  renderOutput (ws1 ++ "[" ++ ws2 ++ "]" ++ rest) clock
  = (None,
     mkRun (Json.mkDecoder rest Json.tokenTopValue []) Progress.NewWriter
           (mkClock (readings clock) (S (calls clock))) []).
Proof.
  intros H1 H2. rewrite renderOutput_eq. cbv zeta.
  unfold Json.NewDecoder. cbn [dec].
  rewrite Token_open by (assumption || reflexivity).
  erewrite run_loop_done by (cbn [dec]; apply More_close; assumption).
  cbn [dec fw clk decoded app].
  pose proof (Token_close_empty "" rest Json.tokenTopValue eq_refl) as Hclose.
  cbn [append] in Hclose. cbn [append]. rewrite Hclose.
  reflexivity.
Qed.

Lemma empty_array_stream_witness :
  (Json.allSpace " " = true /\ Json.allSpace "" = true)
  /\ renderOutput (" " ++ "[" ++ "" ++ "]" ++ "") clock0
     = (None,
        mkRun (Json.mkDecoder "" Json.tokenTopValue []) Progress.NewWriter
              (mkClock (readings clock0) (S (calls clock0))) []).
Proof.
  split; [split; reflexivity|].
  apply (empty_array_stream " " "" "" clock0); reflexivity.
Defined.

Lemma render_loop_errors (start : Z) (fuel : nat) :
  forall r err r',
    render_loop fuel start r = Some (Some err, r') ->
    (exists e, err = DecodeError e) \/ (exists msg, err = TaskError msg).
Proof.
  induction fuel as [|fuel IH]; intros r err r' H; [discriminate|].
  simpl in H.
  destruct (Json.More (dec r)) as [[|] d]; [|discriminate].
  destruct (Json.Decode d) as [e|[objs d']].
  - inversion H; subst. left. now exists e.
  - destruct (display Tabwriter.NewWriter objs start (clk r)) as [[tw c] [msg|]].
    + inversion H; subst. right. now exists msg.
    + now apply IH in H.
Qed.

(** C1, as amended: [renderOutput] fails with the opening-token error, with
    nothing decoded and nothing written, on every stream whose first token
    cannot be read, and on no other stream; the kind of the first token is not
    looked at, so a stream that starts with [{] does not fail with it. *)
Theorem opening_token_error :
  (forall body clock e,
      Json.Token (Json.NewDecoder body) = inl e ->
      renderOutput body clock
      = (Some (OpeningTokenError e),
         mkRun (Json.NewDecoder body) Progress.NewWriter
               (mkClock (readings clock) (S (calls clock))) []))
  /\ (forall body clock e,
         fst (renderOutput body clock) = Some (OpeningTokenError e) ->
         Json.Token (Json.NewDecoder body) = inl e)
  /\ (forall ws rest clock e,
         Json.allSpace ws = true ->
         fst (renderOutput (ws ++ "{" ++ rest) clock) <> Some (OpeningTokenError e)).
Proof.
  assert (Hconv : forall body clock e,
             fst (renderOutput body clock) = Some (OpeningTokenError e) ->
             Json.Token (Json.NewDecoder body) = inl e).
  { intros body clock e. rewrite renderOutput_eq. cbv zeta. cbn [dec].
    destruct (Json.Token (Json.NewDecoder body)) as [e0|[t d]].
    - simpl. intros H; inversion H; reflexivity.
    - destruct (run_loop _ _) as [[[err|] r1]|] eqn:Hloop; simpl.
      + intros H; inversion H; subst.
        apply render_loop_errors in Hloop.
        destruct Hloop as [[e0 He]|[msg He]]; discriminate.
      + destruct (Json.Token (dec r1)) as [e0|[t' d']]; simpl; discriminate.
      + discriminate. }
  split; [|split].
  - intros body clock e H. rewrite renderOutput_eq. cbv zeta. cbn [dec].
    now rewrite H.
  - exact Hconv.
  - intros ws rest clock e Hws H. apply Hconv in H.
    unfold Json.NewDecoder in H.
    rewrite Token_open_brace in H by (assumption || reflexivity).
    discriminate.
Qed.

Lemma opening_token_error_witness :
  Json.Token (Json.NewDecoder "") = inl Json.EOF
  /\ renderOutput "" clock0
     = (Some (OpeningTokenError Json.EOF),
        mkRun (Json.NewDecoder "") Progress.NewWriter
              (mkClock (readings clock0) (S (calls clock0))) []).
Proof.
  split; [reflexivity|].
  apply (proj1 opening_token_error "" clock0 Json.EOF). reflexivity.
Defined.

(** C1, as stated, fails: the stream [{}] starts with [{] and is rendered
    without any error; and the stream [7 [...]] starts with a number, has its
    array decoded and rendered as a batch, and fails only at the closing
    token. *)
Lemma object_stream_is_accepted :
  Json.Token (Json.NewDecoder "{}")
  = inr (Json.Delim "{", Json.mkDecoder "}" Json.tokenObjectStart [Json.tokenTopValue])
  /\ fst (renderOutput "{}" clock0) = None
  /\ fst (renderOutput (json "7 [{'reference':'a','status':'done'}]") clock0)
     = Some (ClosingTokenError Json.EOF)
  /\ decoded (snd (renderOutput (json "7 [{'reference':'a','status':'done'}]") clock0))
     = [[mkProgressInfo "a" "done" 0 0 ""]]
  /\ stdout (snd (renderOutput (json "7 [{'reference':'a','status':'done'}]") clock0))
     = [[Fprintf plainFormat [OString "a"; OString "done"; OBar Float64.one];
         summaryLine 1000000000 0 2000000000]].
Proof. repeat split; vm_compute; reflexivity. Qed.

(** * Decoding what was encoded *)

(** ** Bytes and bits *)

Lemma code_range (c : ascii) : 0 <= code c < 256.
Proof.
  unfold code. pose proof (N_ascii_bounded c). lia.
Qed.

Lemma chr_code (c : ascii) : chr (code c) = c.
Proof. unfold chr, code. rewrite N2Z.id. apply ascii_N_embedding. Qed.

Lemma code_chr (z : Z) : 0 <= z < 256 -> code (chr z) = z.
Proof.
  intros H. unfold chr, code. rewrite N_ascii_embedding; lia.
Qed.

Lemma lor_add (a b n : Z) :
  0 <= n -> 0 <= b < 2 ^ n -> Z.lor (a * 2 ^ n) b = a * 2 ^ n + b.
Proof.
  intros Hn Hb.
  assert (Hland : Z.land (a * 2 ^ n) b = 0).
  { apply Z.bits_inj'. intros i Hi. rewrite Z.land_spec, Z.bits_0.
    destruct (Z.lt_ge_cases i n) as [Hlt|Hge].
    - rewrite Z.mul_pow2_bits_low by lia. reflexivity.
    - destruct (Z.eq_dec b 0) as [->|Hb0].
      + rewrite Z.bits_0. apply andb_false_r.
      + rewrite (Z.bits_above_log2 b i); [apply andb_false_r|lia|].
        apply Z.log2_lt_pow2; [lia|].
        apply Z.lt_le_trans with (2 ^ n); [lia|].
        apply Z.pow_le_mono_r; lia. }
  rewrite <- Z.lxor_lor by assumption.
  symmetry. apply Z.add_nocarry_lxor. assumption.
Qed.

Lemma land_ones6 (x : Z) : Z.land x 0x3F = x mod 64.
Proof. change 0x3F with (Z.ones 6). now rewrite Z.land_ones by lia. Qed.
Lemma land_ones5 (x : Z) : Z.land x 0x1F = x mod 32.
Proof. change 0x1F with (Z.ones 5). now rewrite Z.land_ones by lia. Qed.
Lemma land_ones4 (x : Z) : Z.land x 0x0F = x mod 16.
Proof. change 0x0F with (Z.ones 4). now rewrite Z.land_ones by lia. Qed.
Lemma land_ones3 (x : Z) : Z.land x 0x07 = x mod 8.
Proof. change 0x07 with (Z.ones 3). now rewrite Z.land_ones by lia. Qed.

Ltac to_arith :=
  rewrite ?land_ones6, ?land_ones5, ?land_ones4, ?land_ones3,
          ?Z.shiftl_mul_pow2, ?Z.shiftr_div_pow2 by lia.

Lemma decode2_arith (p0 b1 : Z) :
  0xC2 <= p0 <= 0xDF -> 0x80 <= b1 <= 0xBF ->
  Z.lor (Z.shiftl (Z.land p0 0x1F) 6) (Z.land b1 0x3F)
  = (p0 - 0xC0) * 64 + (b1 - 0x80).
Proof.
  intros H0 H1. to_arith.
  rewrite lor_add by (try lia; apply Z.mod_pos_bound; lia).
  change (2 ^ 6) with 64.
  Z.div_mod_to_equations. lia.
Qed.

Lemma decode3_arith (p0 b1 b2 : Z) :
  0xE0 <= p0 <= 0xEF -> 0x80 <= b1 <= 0xBF -> 0x80 <= b2 <= 0xBF ->
  Z.lor (Z.lor (Z.shiftl (Z.land p0 0x0F) 12) (Z.shiftl (Z.land b1 0x3F) 6))
        (Z.land b2 0x3F)
  = (p0 - 0xE0) * 4096 + (b1 - 0x80) * 64 + (b2 - 0x80).
Proof.
  intros H0 H1 H2. to_arith.
  assert (E0 : p0 mod 16 = p0 - 0xE0) by (Z.div_mod_to_equations; lia).
  assert (E1 : b1 mod 64 = b1 - 0x80) by (Z.div_mod_to_equations; lia).
  assert (E2 : b2 mod 64 = b2 - 0x80) by (Z.div_mod_to_equations; lia).
  rewrite E0, E1, E2.
  rewrite (lor_add (p0 - 0xE0) ((b1 - 0x80) * 2 ^ 6) 12) by lia.
  replace ((p0 - 0xE0) * 2 ^ 12 + (b1 - 0x80) * 2 ^ 6)
    with (((p0 - 0xE0) * 64 + (b1 - 0x80)) * 2 ^ 6) by lia.
  rewrite lor_add by lia. lia.
Qed.

Lemma decode4_arith (p0 b1 b2 b3 : Z) :
  0xF0 <= p0 <= 0xF4 -> 0x80 <= b1 <= 0xBF -> 0x80 <= b2 <= 0xBF ->
  0x80 <= b3 <= 0xBF ->
  Z.lor (Z.lor (Z.lor (Z.shiftl (Z.land p0 0x07) 18)
                      (Z.shiftl (Z.land b1 0x3F) 12))
               (Z.shiftl (Z.land b2 0x3F) 6))
        (Z.land b3 0x3F)
  = (p0 - 0xF0) * 262144 + (b1 - 0x80) * 4096 + (b2 - 0x80) * 64 + (b3 - 0x80).
Proof.
  intros H0 H1 H2 H3. to_arith.
  assert (E0 : p0 mod 8 = p0 - 0xF0) by (Z.div_mod_to_equations; lia).
  assert (E1 : b1 mod 64 = b1 - 0x80) by (Z.div_mod_to_equations; lia).
  assert (E2 : b2 mod 64 = b2 - 0x80) by (Z.div_mod_to_equations; lia).
  assert (E3 : b3 mod 64 = b3 - 0x80) by (Z.div_mod_to_equations; lia).
  rewrite E0, E1, E2, E3.
  rewrite (lor_add (p0 - 0xF0) ((b1 - 0x80) * 2 ^ 12) 18) by lia.
  replace ((p0 - 0xF0) * 2 ^ 18 + (b1 - 0x80) * 2 ^ 12)
    with (((p0 - 0xF0) * 64 + (b1 - 0x80)) * 2 ^ 12) by lia.
  rewrite (lor_add _ ((b2 - 0x80) * 2 ^ 6) 12) by lia.
  replace (((p0 - 0xF0) * 64 + (b1 - 0x80)) * 2 ^ 12 + (b2 - 0x80) * 2 ^ 6)
    with ((((p0 - 0xF0) * 64 + (b1 - 0x80)) * 64 + (b2 - 0x80)) * 2 ^ 6) by lia.
  rewrite lor_add by lia. lia.
Qed.

Lemma lor_const (k a n b : Z) :
  0 <= n -> k = a * 2 ^ n -> 0 <= b < 2 ^ n -> Z.lor k b = k + b.
Proof. intros Hn -> Hb. now apply lor_add. Qed.

Lemma encode2 (r : Z) :
  0x80 <= r <= 0x7FF ->
  Utf8.EncodeRune r
  = String (chr (0xC0 + r / 64)) (String (chr (0x80 + r mod 64)) "").
Proof.
  intros H. unfold Utf8.EncodeRune.
  destruct (Z.leb_spec 0 r); [|lia].
  destruct (Z.leb_spec r 0x7F); [lia|].
  destruct (Z.leb_spec r 0x7FF); [|lia].
  cbn [andb]. to_arith.
  rewrite (lor_const 0xC0 3 6) by (try reflexivity; try lia; Z.div_mod_to_equations; lia).
  rewrite (lor_const 0x80 2 6) by (try reflexivity; try lia; Z.div_mod_to_equations; lia).
  reflexivity.
Qed.

Lemma encode3 (r : Z) :
  0x800 <= r <= 0xFFFF -> ~ (0xD800 <= r <= 0xDFFF) ->
  Utf8.EncodeRune r
  = String (chr (0xE0 + r / 4096))
      (String (chr (0x80 + (r / 64) mod 64)) (String (chr (0x80 + r mod 64)) "")).
Proof.
  intros H Hs. unfold Utf8.EncodeRune, Utf8.MaxRune.
  destruct (Z.leb_spec 0 r); [|lia].
  destruct (Z.leb_spec r 0x7F); [lia|].
  destruct (Z.leb_spec r 0x7FF); [lia|].
  destruct (Z.ltb_spec r 0); [lia|].
  destruct (Z.ltb_spec 0x10FFFF r); [lia|].
  cbn [andb orb].
  assert (Hsur : (0xD800 <=? r) && (r <=? 0xDFFF) = false).
  { destruct (Z.leb_spec 0xD800 r); destruct (Z.leb_spec r 0xDFFF); try reflexivity. lia. }
  rewrite Hsur.
  destruct (Z.leb_spec r 0xFFFF); [|lia].
  unfold Utf8.encode3. to_arith.
  rewrite (lor_const 0xE0 14 4) by (try reflexivity; try lia; Z.div_mod_to_equations; lia).
  rewrite (lor_const 0x80 2 6) by (try reflexivity; try lia; Z.div_mod_to_equations; lia).
  rewrite (lor_const 0x80 2 6) by (try reflexivity; try lia; Z.div_mod_to_equations; lia).
  reflexivity.
Qed.

Lemma encode4 (r : Z) :
  0x10000 <= r <= 0x10FFFF ->
  Utf8.EncodeRune r
  = String (chr (0xF0 + r / 262144))
      (String (chr (0x80 + (r / 4096) mod 64))
         (String (chr (0x80 + (r / 64) mod 64)) (String (chr (0x80 + r mod 64)) ""))).
Proof.
  intros H. unfold Utf8.EncodeRune, Utf8.MaxRune.
  destruct (Z.leb_spec 0 r); [|lia].
  destruct (Z.leb_spec r 0x7F); [lia|].
  destruct (Z.leb_spec r 0x7FF); [lia|].
  destruct (Z.ltb_spec r 0); [lia|].
  destruct (Z.ltb_spec 0x10FFFF r); [lia|].
  cbn [andb orb].
  assert (Hsur : (0xD800 <=? r) && (r <=? 0xDFFF) = false).
  { destruct (Z.leb_spec 0xD800 r); destruct (Z.leb_spec r 0xDFFF); try reflexivity. lia. }
  rewrite Hsur.
  destruct (Z.leb_spec r 0xFFFF); [lia|].
  to_arith.
  rewrite (lor_const 0xF0 30 3) by (try reflexivity; try lia; Z.div_mod_to_equations; lia).
  rewrite !(lor_const 0x80 2 6) by (try reflexivity; try lia; Z.div_mod_to_equations; lia).
  reflexivity.
Qed.

Lemma first_LeadSeq (p0 : Z) (sz : nat) (lo hi : Z) :
  Utf8.first p0 = Utf8.LeadSeq sz lo hi ->
  0x80 <= lo /\ hi <= 0xBF /\
  ((sz = 2%nat /\ 0xC2 <= p0 <= 0xDF)
   \/ (sz = 3%nat /\ 0xE0 <= p0 <= 0xEF
       /\ (p0 = 0xE0 -> lo = 0xA0) /\ (p0 = 0xED -> hi = 0x9F))
   \/ (sz = 4%nat /\ 0xF0 <= p0 <= 0xF4
       /\ (p0 = 0xF0 -> lo = 0x90) /\ (p0 = 0xF4 -> hi = 0x8F))).
Proof.
  unfold Utf8.first.
  repeat match goal with
         | |- context [if ?x <? ?y then _ else _] => destruct (Z.ltb_spec x y)
         | |- context [if ?x =? ?y then _ else _] => destruct (Z.eqb_spec x y)
         end;
    intros Heq; inversion Heq; subst; clear Heq; (split; [lia|split; [lia|]]);
    first [ left; repeat split; lia
          | right; left; repeat split; lia
          | right; right; repeat split; lia ].
Qed.

Ltac bad_size H := inversion H; subst; lia.
Ltac pair_eq H :=
  let Hr := fresh in let Hs := fresh in
  pose proof (f_equal fst H) as Hr; pose proof (f_equal snd H) as Hs;
  cbn [fst snd] in Hr, Hs; subst; clear H.

Lemma DecodeRune_multibyte (s : string) (r : Z) (size : nat) :
  Utf8.DecodeRune s = (r, size) -> (1 < size)%nat ->
  exists p t,
    s = p ++ t /\ String.length p = size /\ Utf8.EncodeRune r = p
    /\ allHigh p
    /\ (forall t', Utf8.DecodeRune (p ++ t') = (r, size)).
Proof.
  intros Hdec Hsize.
  destruct s as [|c0 s1]; [bad_size Hdec|].
  unfold Utf8.DecodeRune in Hdec.
  destruct (Utf8.first (code c0)) as [| |sz lo hi] eqn:Hf; try bad_size Hdec.
  pose proof (code_range c0) as R0.
  pose proof (first_LeadSeq _ _ _ _ Hf) as (Hlo & Hhi & Hsz).
  destruct s1 as [|c1 s2]; [bad_size Hdec|].
  pose proof (code_range c1) as R1.
  destruct ((code c1 <? lo) || (hi <? code c1)) eqn:Hb1; [bad_size Hdec|].
  pose proof Hb1 as Hb1'.
  apply orb_false_elim in Hb1'. destruct Hb1' as [Hb1l Hb1h].
  apply Z.ltb_ge in Hb1l. apply Z.ltb_ge in Hb1h.
  destruct Hsz as [(-> & H0)|[(-> & H0 & Hl & Hh)|(-> & H0 & Hl & Hh)]].
  - (* two bytes *)
    cbn [Nat.leb] in Hdec. pair_eq Hdec.
    exists (String c0 (String c1 "")), s2. repeat split.
    + rewrite decode2_arith by lia. rewrite encode2 by lia.
      replace (0xC0 + ((code c0 - 0xC0) * 64 + (code c1 - 0x80)) / 64)
        with (code c0) by (Z.div_mod_to_equations; lia).
      replace (0x80 + ((code c0 - 0xC0) * 64 + (code c1 - 0x80)) mod 64)
        with (code c1) by (Z.div_mod_to_equations; lia).
      now rewrite !chr_code.
    + repeat constructor; lia.
    + intros t'. cbn [append]. unfold Utf8.DecodeRune.
      rewrite Hf, Hb1. reflexivity.
  - (* three bytes *)
    cbn [Nat.leb] in Hdec.
    destruct s2 as [|c2 s3]; [bad_size Hdec|].
    pose proof (code_range c2) as R2.
    destruct (Utf8.continuation (code c2)) eqn:Hb2; [|bad_size Hdec].
    pose proof Hb2 as Hb2'. unfold Utf8.continuation in Hb2'.
    apply andb_prop in Hb2'. destruct Hb2' as [Hb2l Hb2h].
    apply Z.leb_le in Hb2l. apply Z.leb_le in Hb2h.
    cbn [negb] in Hdec. pair_eq Hdec.
    exists (String c0 (String c1 (String c2 ""))), s3. repeat split.
    + rewrite decode3_arith by lia. rewrite encode3 by lia.
      replace (0xE0 + ((code c0 - 0xE0) * 4096 + (code c1 - 0x80) * 64 + (code c2 - 0x80)) / 4096)
        with (code c0) by (Z.div_mod_to_equations; lia).
      replace (0x80 + (((code c0 - 0xE0) * 4096 + (code c1 - 0x80) * 64 + (code c2 - 0x80)) / 64) mod 64)
        with (code c1) by (Z.div_mod_to_equations; lia).
      replace (0x80 + ((code c0 - 0xE0) * 4096 + (code c1 - 0x80) * 64 + (code c2 - 0x80)) mod 64)
        with (code c2) by (Z.div_mod_to_equations; lia).
      now rewrite !chr_code.
    + repeat constructor; lia.
    + intros t'. cbn [append]. unfold Utf8.DecodeRune.
      rewrite Hf, Hb1, Hb2. reflexivity.
  - (* four bytes *)
    cbn [Nat.leb] in Hdec.
    destruct s2 as [|c2 s3]; [bad_size Hdec|].
    pose proof (code_range c2) as R2.
    destruct (Utf8.continuation (code c2)) eqn:Hb2; [|bad_size Hdec].
    pose proof Hb2 as Hb2'. unfold Utf8.continuation in Hb2'.
    apply andb_prop in Hb2'. destruct Hb2' as [Hb2l Hb2h].
    apply Z.leb_le in Hb2l. apply Z.leb_le in Hb2h.
    cbn [negb] in Hdec.
    destruct s3 as [|c3 s4]; [bad_size Hdec|].
    pose proof (code_range c3) as R3.
    destruct (Utf8.continuation (code c3)) eqn:Hb3; [|bad_size Hdec].
    pose proof Hb3 as Hb3'. unfold Utf8.continuation in Hb3'.
    apply andb_prop in Hb3'. destruct Hb3' as [Hb3l Hb3h].
    apply Z.leb_le in Hb3l. apply Z.leb_le in Hb3h.
    cbn [negb] in Hdec. pair_eq Hdec.
    exists (String c0 (String c1 (String c2 (String c3 "")))), s4. repeat split.
    + rewrite decode4_arith by lia. rewrite encode4 by lia.
      replace (0xF0 + ((code c0 - 0xF0) * 262144 + (code c1 - 0x80) * 4096 + (code c2 - 0x80) * 64 + (code c3 - 0x80)) / 262144)
        with (code c0) by (Z.div_mod_to_equations; lia).
      replace (0x80 + (((code c0 - 0xF0) * 262144 + (code c1 - 0x80) * 4096 + (code c2 - 0x80) * 64 + (code c3 - 0x80)) / 4096) mod 64)
        with (code c1) by (Z.div_mod_to_equations; lia).
      replace (0x80 + (((code c0 - 0xF0) * 262144 + (code c1 - 0x80) * 4096 + (code c2 - 0x80) * 64 + (code c3 - 0x80)) / 64) mod 64)
        with (code c2) by (Z.div_mod_to_equations; lia).
      replace (0x80 + ((code c0 - 0xF0) * 262144 + (code c1 - 0x80) * 4096 + (code c2 - 0x80) * 64 + (code c3 - 0x80)) mod 64)
        with (code c3) by (Z.div_mod_to_equations; lia).
      now rewrite !chr_code.
    + repeat constructor; lia.
    + intros t'. cbn [append]. unfold Utf8.DecodeRune.
      rewrite Hf, Hb1, Hb2, Hb3. reflexivity.
Qed.

(** ** Strings: unquote after escape *)

Lemma append_assoc (a b c : string) : (a ++ b) ++ c = a ++ (b ++ c).
Proof. induction a as [|x a IH]; simpl; [reflexivity|now rewrite IH]. Qed.

Lemma append_nil_r (a : string) : a ++ "" = a.
Proof. induction a as [|x a IH]; simpl; [reflexivity|now rewrite IH]. Qed.

Lemma length_append (a b : string) :
  String.length (a ++ b) = (String.length a + String.length b)%nat.
Proof. induction a as [|x a IH]; simpl; [reflexivity|now rewrite IH]. Qed.

Lemma drop_append (p t : string) : drop (String.length p) (p ++ t) = t.
Proof. induction p as [|x p IH]; simpl; [reflexivity|exact IH]. Qed.

Lemma take_append (p t : string) : take (String.length p) (p ++ t) = p.
Proof. induction p as [|x p IH]; simpl; [reflexivity|now rewrite IH]. Qed.

Lemma escape_ascii (fuel : nat) (c : ascii) (s : string) :
  code c < 128 ->
  Marshal.escape (S fuel) (String c s) = escape1 c ++ Marshal.escape fuel s.
Proof.
  intros Hc. cbn [Marshal.escape].
  destruct (Z.ltb_spec (code c) 128); [|lia].
  unfold escape1. destruct (Marshal.htmlSafe c); [reflexivity|].
  reflexivity.
Qed.

Lemma escape1_nonempty (c : ascii) : (0 < String.length (escape1 c))%nat.
Proof.
  unfold escape1. destruct (Marshal.htmlSafe c); simpl; lia.
Qed.

Lemma unquote_ascii (c : ascii) (t : string) (fuel : nat) :
  code c < 128 ->
  Json.unquote_loop (S fuel) (escape1 c ++ t)
  = option_map (String c) (Json.unquote_loop fuel t).
Proof.
  destruct c as [[|] [|] [|] [|] [|] [|] [|] [|]];
    intros Hc; try (exfalso; vm_compute in Hc; congruence); reflexivity.
Qed.

Lemma code_inj (c c' : ascii) : code c = code c' -> c = c'.
Proof. intros H. rewrite <- (chr_code c), <- (chr_code c'). now rewrite H. Qed.

Lemma eqb_code (c c' : ascii) : code c <> code c' -> Ascii.eqb c c' = false.
Proof.
  intros H. destruct (Ascii.eqb_spec c c') as [->|]; [congruence|reflexivity].
Qed.

Lemma DecodeRune_high (c : ascii) (s : string) (r : Z) (size : nat) :
  128 <= code c ->
  Utf8.DecodeRune (String c s) = (r, size) ->
  (r = Utf8.RuneError /\ size = 1%nat) \/ (1 < size)%nat.
Proof.
  intros Hc. unfold Utf8.DecodeRune.
  destruct (Utf8.first (code c)) as [| |sz lo hi] eqn:Hf.
  - unfold Utf8.first in Hf. destruct (Z.ltb_spec (code c) 0x80); [lia|].
    repeat match type of Hf with
           | (if ?b then _ else _) = _ => destruct b
           end; discriminate.
  - intros H; inversion H; subst; now left.
  - pose proof (first_LeadSeq _ _ _ _ Hf) as (_ & _ & Hsz).
    assert (Hsize : sz = 2%nat \/ sz = 3%nat \/ sz = 4%nat) by tauto.
    clear Hsz.
    repeat match goal with
           | |- (match ?x with EmptyString => _ | String _ _ => _ end) = _ -> _ =>
             destruct x
           | |- (if ?b then _ else _) = _ -> _ => destruct b eqn:?
           | |- (_, _) = (_, _) -> _ =>
             let H := fresh in intros H; pair_eq H
           end; try (left; split; reflexivity); try (right; lia).
Qed.

Lemma unquote_multibyte (p t : string) (r : Z) (fuel : nat) :
  Utf8.DecodeRune (p ++ t) = (r, String.length p) ->
  Utf8.EncodeRune r = p -> allHigh p -> (1 < String.length p)%nat ->
  Json.unquote_loop (S fuel) (p ++ t)
  = option_map (append p) (Json.unquote_loop fuel t).
Proof.
  intros Hdec Henc Hhigh Hlen.
  destruct p as [|c p']; [simpl in Hlen; lia|].
  inversion Hhigh as [|x l Hc Hrest]; subst.
  cbn [append Json.unquote_loop].
  rewrite (eqb_code c "\") by (vm_compute (code "\"); lia).
  rewrite (eqb_code c DQuote) by (vm_compute (code DQuote); lia).
  destruct (Z.ltb_spec (code c) 32); [lia|].
  destruct (Z.ltb_spec (code c) 128); [lia|].
  cbn [orb].
  change (String c (p' ++ t)) with (String c p' ++ t).
  rewrite Hdec, Henc, drop_append. reflexivity.
Qed.

Lemma unquote_u202x (r : Z) (t : string) (fuel : nat) :
  r = 0x2028 \/ r = 0x2029 ->
  Json.unquote_loop (S fuel)
    ("\u202" ++ String (Marshal.hex (Z.land r 0xF)) t)
  = option_map (append (Utf8.EncodeRune r)) (Json.unquote_loop fuel t).
Proof. intros [-> | ->]; reflexivity. Qed.

Lemma valid_fuel_step (fuel : nat) (c : ascii) (s : string) :
  Utf8.valid_fuel (S fuel) (String c s) = true ->
  let '(r, size) := Utf8.DecodeRune (String c s) in
  ((r =? Utf8.RuneError) && (size =? 1)%nat = false)
  /\ Utf8.valid_fuel fuel (drop size (String c s)) = true.
Proof.
  cbn [Utf8.valid_fuel].
  destruct (Utf8.DecodeRune (String c s)) as [r size].
  destruct ((r =? Utf8.RuneError) && (size =? 1)%nat); [discriminate|].
  intros H. split; [reflexivity|exact H].
Qed.

Lemma DecodeRune_ascii (c : ascii) (s : string) :
  code c < 128 -> Utf8.DecodeRune (String c s) = (code c, 1%nat).
Proof.
  intros Hc. unfold Utf8.DecodeRune, Utf8.first.
  destruct (Z.ltb_spec (code c) 0x80); [reflexivity|lia].
Qed.

Lemma unquote_escape (f1 : nat) :
  forall s f2,
    (String.length s < f1)%nat ->
    Utf8.valid_fuel f1 s = true ->
    (String.length (Marshal.escape f1 s) < f2)%nat ->
    Json.unquote_loop f2 (Marshal.escape f1 s) = Some s.
Proof.
  induction f1 as [|f1 IH]; intros s f2 Hlen Hvalid Hf2; [lia|].
  destruct f2 as [|f2]; [lia|].
  destruct s as [|c s]; [reflexivity|].
  apply valid_fuel_step in Hvalid.
  destruct (Z.lt_ge_cases (code c) 128) as [Hc|Hc].
  - rewrite DecodeRune_ascii in Hvalid by assumption.
    destruct Hvalid as [_ Hvalid]. cbn [drop] in Hvalid.
    rewrite escape_ascii in * by assumption.
    rewrite unquote_ascii by assumption.
    rewrite IH; [reflexivity| simpl in Hlen; lia | assumption |].
    rewrite length_append in Hf2. pose proof (escape1_nonempty c). lia.
  - cbn [Marshal.escape] in *.
    destruct (Z.ltb_spec (code c) 128); [lia|].
    destruct (Utf8.DecodeRune (String c s)) as [r size] eqn:Hdec.
    destruct Hvalid as [Hnot Hvalid]. rewrite Hnot in *.
    destruct (DecodeRune_high _ _ _ _ Hc Hdec) as [[-> ->]|Hsize];
      [discriminate|].
    destruct (DecodeRune_multibyte _ _ _ Hdec Hsize)
      as (p & t & Hs & Hp & Henc & Hhigh & Hpre).
    rewrite Hs in *. subst size.
    rewrite drop_append, take_append in *.
    assert (Hlt : (String.length t < f1)%nat).
    { rewrite length_append in Hlen. lia. }
    destruct ((r =? 0x2028) || (r =? 0x2029)) eqn:Hsep.
    + assert (Hr : r = 0x2028 \/ r = 0x2029).
      { apply orb_prop in Hsep.
        destruct Hsep as [Heq|Heq]; apply Z.eqb_eq in Heq; tauto. }
      rewrite unquote_u202x by assumption.
      rewrite IH; [simpl; now rewrite Henc|assumption|assumption|].
      simpl in Hf2. lia.
    + rewrite (unquote_multibyte p _ r); try assumption; [|apply Hpre].
      rewrite IH; [reflexivity|assumption|assumption|].
      rewrite length_append in Hf2. lia.
Qed.

(** ** Strings under the scanner *)

Lemma scan_ascii (c : ascii) (acc t : string) (stack : list Json.parseState) :
  code c < 128 ->
  Json.scan (Json.stateInString acc) stack (escape1 c ++ t)
  = Json.scan (Json.stateInString (acc ++ escape1 c)) stack t.
Proof.
  destruct c as [[|] [|] [|] [|] [|] [|] [|] [|]];
    intros Hc; try (exfalso; vm_compute in Hc; congruence);
    cbn; unfold Json.snoc; rewrite ?append_assoc; reflexivity.
Qed.

Lemma scan_high (p : string) :
  forall acc t stack,
    allHigh p ->
    Json.scan (Json.stateInString acc) stack (p ++ t)
    = Json.scan (Json.stateInString (acc ++ p)) stack t.
Proof.
  induction p as [|c p IH]; intros acc t stack Hhigh.
  - now rewrite append_nil_r.
  - inversion Hhigh as [|x l Hc Hrest]; subst.
    cbn [append Json.scan Json.step].
    rewrite (eqb_code c DQuote) by (vm_compute (code DQuote); lia).
    rewrite (eqb_code c "\") by (vm_compute (code "\"); lia).
    destruct (Z.ltb_spec (code c) 32); [lia|].
    rewrite IH by assumption. unfold Json.snoc.
    now rewrite append_assoc.
Qed.

Lemma scan_u202x (r : Z) (acc t : string) (stack : list Json.parseState) :
  r = 0x2028 \/ r = 0x2029 ->
  Json.scan (Json.stateInString acc) stack
    ("\u202" ++ String (Marshal.hex (Z.land r 0xF)) t)
  = Json.scan
      (Json.stateInString (acc ++ "\u202" ++ String (Marshal.hex (Z.land r 0xF)) ""))
      stack t.
Proof.
  intros [-> | ->]; cbn; unfold Json.snoc; rewrite ?append_assoc; reflexivity.
Qed.

Lemma scan_escape (f : nat) :
  forall s acc t stack,
    (String.length s < f)%nat ->
    Utf8.valid_fuel f s = true ->
    Json.scan (Json.stateInString acc) stack (Marshal.escape f s ++ t)
    = Json.scan (Json.stateInString (acc ++ Marshal.escape f s)) stack t.
Proof.
  induction f as [|f IH]; intros s acc t stack Hlen Hvalid; [lia|].
  destruct s as [|c s]; [cbn; now rewrite append_nil_r|].
  apply valid_fuel_step in Hvalid.
  destruct (Z.lt_ge_cases (code c) 128) as [Hc|Hc].
  - rewrite DecodeRune_ascii in Hvalid by assumption.
    destruct Hvalid as [_ Hvalid]. cbn [drop] in Hvalid.
    rewrite escape_ascii by assumption.
    rewrite append_assoc, scan_ascii by assumption.
    rewrite IH; [now rewrite append_assoc|simpl in Hlen; lia|assumption].
  - cbn [Marshal.escape].
    destruct (Z.ltb_spec (code c) 128); [lia|].
    destruct (Utf8.DecodeRune (String c s)) as [r size] eqn:Hdec.
    destruct Hvalid as [Hnot Hvalid]. rewrite Hnot.
    destruct (DecodeRune_high _ _ _ _ Hc Hdec) as [[-> ->]|Hsize];
      [discriminate|].
    destruct (DecodeRune_multibyte _ _ _ Hdec Hsize)
      as (p & u & Hs & Hp & Henc & Hhigh & Hpre).
    rewrite Hs in *. subst size.
    rewrite drop_append, take_append in *.
    assert (Hlt : (String.length u < f)%nat).
    { rewrite length_append in Hlen. lia. }
    destruct ((r =? 0x2028) || (r =? 0x2029)) eqn:Hsep.
    + assert (Hr : r = 0x2028 \/ r = 0x2029).
      { apply orb_prop in Hsep.
        destruct Hsep as [Heq|Heq]; apply Z.eqb_eq in Heq; tauto. }
      rewrite append_assoc.
      change (String (Marshal.hex (Z.land r 15)) (Marshal.escape f u) ++ t)
        with (String (Marshal.hex (Z.land r 15)) (Marshal.escape f u ++ t)).
      rewrite (scan_u202x r) by assumption.
      rewrite IH by assumption.
      rewrite !append_assoc. reflexivity.
    + rewrite append_assoc, scan_high by assumption.
      rewrite IH by assumption. now rewrite append_assoc.
Qed.

(** ** Integers *)

Lemma digit_spec (d : Z) :
  0 <= d <= 9 ->
  Json.isDigit (digit d) = true /\ code (digit d) - code "0" = d
  /\ (0 < d -> Json.isDigit19 (digit d) = true)
  /\ (d = 0 -> digit d = "0"%char).
Proof.
  intros H.
  assert (Hd : d = 0 \/ d = 1 \/ d = 2 \/ d = 3 \/ d = 4 \/ d = 5 \/ d = 6
               \/ d = 7 \/ d = 8 \/ d = 9) by lia.
  repeat (destruct Hd as [-> | Hd]); try subst d;
    repeat split; try reflexivity; intros; lia.
Qed.

Lemma allDigits_app (a b : string) :
  allDigits a -> allDigits b -> allDigits (a ++ b).
Proof.
  unfold allDigits. induction a as [|c a IH]; simpl; intros Ha Hb; [exact Hb|].
  inversion Ha; subst. constructor; [assumption|]. now apply IH.
Qed.

Lemma formatBits_small (n : nat) (u : Z) (acc : string) :
  0 <= u < 10 ->
  exists d ds,
    Marshal.formatBits (S n) u acc = String d (ds ++ acc) /\ digits_of u d ds.
Proof.
  intros Hlt. cbn [Marshal.formatBits].
  destruct (Z.ltb_spec u 10); [|lia].
  exists (digit u), "".
  destruct (digit_spec u ltac:(lia)) as (Hd & Hv & H19 & H0).
  split; [reflexivity|]. unfold digits_of.
  split; [assumption|]. split; [constructor|]. split; [assumption|].
  split.
  - intros Hu0. split; [now apply H0|reflexivity].
  - intros a rest. cbn [append Json.digitsValue String.length].
    rewrite Hd, Hv. reflexivity.
Qed.

Lemma formatBits_spec (n : nat) :
  forall u acc,
    0 <= u < 10 ^ Z.of_nat (S n) ->
    exists d ds,
      Marshal.formatBits (S n) u acc = String d (ds ++ acc) /\ digits_of u d ds.
Proof.
  induction n as [|n IH]; intros u acc Hu.
  { apply formatBits_small. simpl in Hu. lia. }
  destruct (Z.ltb_spec u 10) as [Hlt|Hge]; [apply formatBits_small; lia|].
  assert (Hq : 0 <= u / 10 < 10 ^ Z.of_nat (S n)).
  { rewrite (Nat2Z.inj_succ (S n)), Z.pow_succ_r in Hu by lia.
    split; [apply Z.div_pos; lia|].
    apply Z.div_lt_upper_bound; lia. }
  destruct (IH (u / 10) (String (digit (u mod 10)) acc) Hq)
    as (d & ds & Heq & Hd & Hds & H19 & _ & Hval).
  destruct (digit_spec (u mod 10) ltac:(Z.div_mod_to_equations; lia))
    as (Hd0 & Hv0 & _ & _).
  exists d, (ds ++ String (digit (u mod 10)) "").
  split.
  - change (Marshal.formatBits (S (S n)) u acc)
      with (if u <? 10 then String (chr (code "0" + u)) acc
            else Marshal.formatBits (S n) (u / 10)
                   (String (digit (u mod 10)) acc)).
    destruct (Z.ltb_spec u 10); [lia|].
    rewrite Heq. now rewrite append_assoc.
  - unfold digits_of.
    split; [assumption|]. split.
    { apply allDigits_app; [assumption|]. repeat constructor. assumption. }
    split.
    { intros _. apply H19. Z.div_mod_to_equations; lia. }
    split; [lia|].
    intros a rest. rewrite append_assoc. cbn [append].
    rewrite Hval. cbn [Json.digitsValue]. rewrite Hd0, Hv0.
    f_equal. rewrite length_append. cbn [String.length].
    replace (Z.of_nat (S (String.length ds + 1)))
      with (Z.succ (Z.of_nat (S (String.length ds)))) by lia.
    rewrite Z.pow_succ_r by lia.
    Z.div_mod_to_equations. nia.
Qed.

Lemma log2_fuel (u : Z) : 0 <= u -> 0 <= u < 10 ^ Z.of_nat (S (Z.to_nat (Z.log2 u))).
Proof.
  intros Hu. split; [assumption|].
  rewrite Nat2Z.inj_succ, Z2Nat.id by apply Z.log2_nonneg.
  destruct (Z.eq_dec u 0) as [->|Hne].
  - simpl. lia.
  - pose proof (Z.log2_spec u ltac:(lia)) as [_ Hlt].
    apply Z.lt_le_trans with (2 ^ Z.succ (Z.log2 u)); [assumption|].
    apply Z.pow_le_mono_l. lia.
Qed.

Lemma FormatInt_nonneg (v : Z) :
  0 <= v ->
  exists d ds, Marshal.FormatInt v = String d ds /\ digits_of v d ds.
Proof.
  intros Hv. unfold Marshal.FormatInt.
  destruct (Z.ltb_spec v 0); [lia|].
  destruct (formatBits_spec _ v "" (log2_fuel v Hv)) as (d & ds & Heq & Hd).
  exists d, ds. rewrite Heq, append_nil_r. split; [reflexivity|assumption].
Qed.

Lemma FormatInt_neg (v : Z) :
  v < 0 ->
  exists d ds, Marshal.FormatInt v = String "-" (String d ds) /\ digits_of (- v) d ds.
Proof.
  intros Hv. unfold Marshal.FormatInt.
  destruct (Z.ltb_spec v 0); [|lia].
  destruct (formatBits_spec _ (- v) "" (log2_fuel (- v) ltac:(lia)))
    as (d & ds & Heq & Hd).
  exists d, ds. rewrite Heq, append_nil_r. split; [reflexivity|assumption].
Qed.

Lemma digitsValue_digits (u : Z) (d : ascii) (ds : string) :
  digits_of u d ds -> Json.digitsValue (String d ds) 0 = Some u.
Proof.
  intros (_ & _ & _ & _ & Hval).
  specialize (Hval 0 ""). rewrite append_nil_r in Hval. rewrite Hval.
  reflexivity.
Qed.

Lemma ParseInt_digit (d : ascii) (ds : string) :
  Json.isDigit d = true ->
  Json.ParseInt (String d ds)
  = match Json.digitsValue (String d ds) 0 with
    | Some n => if Int64.in_range n then Some n else None
    | None => None
    end.
Proof.
  destruct d as [[|] [|] [|] [|] [|] [|] [|] [|]];
    intros Hd; try discriminate Hd; reflexivity.
Qed.

Lemma ParseInt_FormatInt (v : Z) :
  Int64.in_range v = true -> Json.ParseInt (Marshal.FormatInt v) = Some v.
Proof.
  intros Hr. destruct (Z.lt_ge_cases v 0) as [Hv|Hv].
  - destruct (FormatInt_neg v Hv) as (d & ds & -> & Hd).
    unfold Json.ParseInt.
    destruct ds as [|]; rewrite (digitsValue_digits _ _ _ Hd);
      replace (- - v) with v by lia; now rewrite Hr.
  - destruct (FormatInt_nonneg v Hv) as (d & ds & -> & Hd).
    rewrite ParseInt_digit by apply Hd.
    rewrite (digitsValue_digits _ _ _ Hd). now rewrite Hr.
Qed.

(** *** Numbers under the scanner *)

Lemma scan_digits (ds : string) :
  forall acc t stack,
    allDigits ds ->
    Json.scan (Json.state1 acc) stack (ds ++ t)
    = Json.scan (Json.state1 (acc ++ ds)) stack t.
Proof.
  induction ds as [|c ds IH]; intros acc t stack Hds.
  - now rewrite append_nil_r.
  - inversion Hds as [|x l Hc Hrest]; subst.
    cbn [append Json.scan Json.step]. rewrite Hc.
    rewrite IH by assumption. unfold Json.snoc. now rewrite append_assoc.
Qed.

Lemma beginValue_digit19 (d : ascii) (stack : list Json.parseState) :
  Json.isDigit19 d = true ->
  Json.beginValue stack d = Json.scanContinue (Json.state1 (String d "")) stack.
Proof.
  destruct d as [[|] [|] [|] [|] [|] [|] [|] [|]];
    intros Hd; try discriminate Hd; reflexivity.
Qed.

Lemma stateNeg_digit19 (d : ascii) (acc : string) (stack : list Json.parseState) :
  Json.isDigit19 d = true ->
  Json.step (Json.stateNeg acc) stack d
  = Json.scanContinue (Json.state1 (acc ++ String d "")) stack.
Proof.
  destruct d as [[|] [|] [|] [|] [|] [|] [|] [|]];
    intros Hd; try discriminate Hd; reflexivity.
Qed.

(** An integer that is the value of a member and is followed by a comma. *)
Lemma scan_int_member (v : Z) (members : list (string * Json.value))
  (key rest : string) (stack : list Json.parseState) :
  Json.scan Json.stateBeginValue (Json.parseObjectValue members key :: stack)
    (Marshal.FormatInt v ++ "," ++ rest)
  = Json.scan Json.stateBeginString
      (Json.parseObjectKey
         (members ++ [(key, Json.Number (Marshal.FormatInt v))]) "" :: stack)
      rest.
Proof.
  destruct (Z.lt_ge_cases v 0) as [Hv|Hv].
  - destruct (FormatInt_neg v Hv) as (d & ds & -> & Hd).
    destruct Hd as (_ & Hds & H19 & _).
    cbn [append Json.scan]. change (Json.step Json.stateBeginValue ?s "-")
      with (Json.scanContinue (Json.stateNeg "-") s).
    cbv iota. cbn [Json.scan]. rewrite stateNeg_digit19 by (apply H19; lia).
    rewrite scan_digits by assumption. reflexivity.
  - destruct (FormatInt_nonneg v Hv) as (d & ds & -> & Hd).
    destruct Hd as (_ & Hds & H19 & H0 & _).
    destruct (Z.eq_dec v 0) as [->|Hne].
    + destruct (H0 eq_refl) as [-> ->]. reflexivity.
    + cbn [append Json.scan Json.step].
      rewrite beginValue_digit19 by (apply H19; lia).
      rewrite scan_digits by assumption. reflexivity.
Qed.

(** ** A batch under the scanner *)

Lemma scan_string_member (s : string) (members : list (string * Json.value))
  (key rest : string) (stack : list Json.parseState) :
  Utf8.ValidString s = true ->
  Json.scan Json.stateBeginValue (Json.parseObjectValue members key :: stack)
    (Marshal.encodeString s ++ rest)
  = Json.scan Json.stateEndValue
      (Json.parseObjectValue (members ++ [(key, Json.Str (rawString s))]) key :: stack)
      rest.
Proof.
  intros Hs. unfold Marshal.encodeString.
  cbn [append Json.scan]. change (Json.step Json.stateBeginValue ?k DQuote)
    with (Json.scanContinue (Json.stateInString "") k).
  cbv iota. rewrite append_assoc.
  rewrite scan_escape by (try lia; exact Hs).
  reflexivity.
Qed.

Lemma scan_key (name : string) (members : list (string * Json.value))
  (k rest : string) (stack : list Json.parseState) :
  fieldName name ->
  Json.scan Json.stateBeginString (Json.parseObjectKey members k :: stack)
    (Marshal.key name ++ rest)
  = Json.scan Json.stateBeginValue (Json.parseObjectValue members name :: stack)
      rest.
Proof.
  intros [<-|[<-|[<-|[<-|[<-|[]]]]]]; reflexivity.
Qed.

Lemma scan_open_object (rest : string) (stack : list Json.parseState)
  (st : Json.state) :
  st = Json.stateBeginValue \/ st = Json.stateBeginValueOrEmpty ->
  Json.scan st stack ("{" ++ Marshal.key Json.nameRef ++ rest)
  = Json.scan Json.stateBeginValue
      (Json.parseObjectValue [] Json.nameRef :: stack) rest.
Proof. intros [-> | ->]; reflexivity. Qed.

Lemma scan_comma (members : list (string * Json.value)) (k rest : string)
  (stack : list Json.parseState) :
  Json.scan Json.stateEndValue (Json.parseObjectValue members k :: stack)
    ("," ++ rest)
  = Json.scan Json.stateBeginString (Json.parseObjectKey members "" :: stack) rest.
Proof. reflexivity. Qed.

Lemma scan_close_object (members : list (string * Json.value)) (k rest : string)
  (elems : list Json.value) (stack : list Json.parseState) :
  Json.scan Json.stateEndValue
    (Json.parseObjectValue members k :: Json.parseArrayValue elems :: stack)
    ("}" ++ rest)
  = Json.scan Json.stateEndValue
      (Json.parseArrayValue (elems ++ [Json.Object members]) :: stack) rest.
Proof. reflexivity. Qed.

Lemma scan_event (p : ProgressInfo) (elems : list Json.value) (rest : string)
  (stack : list Json.parseState) (st : Json.state) :
  st = Json.stateBeginValue \/ st = Json.stateBeginValueOrEmpty ->
  wellFormed p ->
  Json.scan st (Json.parseArrayValue elems :: stack)
    (Marshal.encodeProgressInfo p ++ rest)
  = Json.scan Json.stateEndValue
      (Json.parseArrayValue (elems ++ [treeOf p]) :: stack) rest.
Proof.
  intros Hst (Href & Hstatus & Hmsg & _ & _).
  unfold Marshal.encodeProgressInfo. rewrite !append_assoc.
  rewrite scan_open_object by assumption.
  rewrite scan_string_member by assumption.
  rewrite scan_comma, scan_key by (unfold fieldName; simpl; tauto).
  rewrite scan_string_member by assumption.
  rewrite scan_comma, scan_key by (unfold fieldName; simpl; tauto).
  rewrite scan_int_member, scan_key by (unfold fieldName; simpl; tauto).
  rewrite scan_int_member, scan_key by (unfold fieldName; simpl; tauto).
  rewrite scan_string_member by assumption.
  rewrite scan_close_object. reflexivity.
Qed.

Lemma scan_elems (ps : list ProgressInfo) :
  forall (p : ProgressInfo) (elems : list Json.value) (rest : string)
         (st : Json.state),
    st = Json.stateBeginValue \/ st = Json.stateBeginValueOrEmpty ->
    Forall wellFormed (p :: ps) ->
    Json.scan st [Json.parseArrayValue elems]
      (Marshal.encodeElems (p :: ps) ++ "]" ++ rest)
    = Some (inr (Json.Array (elems ++ map treeOf (p :: ps)), rest)).
Proof.
  induction ps as [|q ps IH]; intros p elems rest st Hst Hwf;
    inversion Hwf as [|x l Hp Hps]; subst.
  - cbn [Marshal.encodeElems]. rewrite scan_event by assumption. reflexivity.
  - change (Marshal.encodeElems (p :: q :: ps))
      with (Marshal.encodeProgressInfo p ++ "," ++ Marshal.encodeElems (q :: ps)).
    rewrite !append_assoc. rewrite scan_event by assumption.
    change (Json.scan Json.stateEndValue [Json.parseArrayValue (elems ++ [treeOf p])]
              ("," ++ Marshal.encodeElems (q :: ps) ++ "]" ++ rest))
      with (Json.scan Json.stateBeginValue [Json.parseArrayValue (elems ++ [treeOf p])]
              (Marshal.encodeElems (q :: ps) ++ "]" ++ rest)).
    rewrite IH by (assumption || now left).
    cbn [map]. rewrite <- app_assoc. reflexivity.
Qed.

Lemma readValue_encodeBatch (ps : list ProgressInfo) (rest : string) :
  Forall wellFormed ps ->
  Json.readValue (Marshal.encodeBatch ps ++ rest)
  = inr (Json.Array (map treeOf ps), rest).
Proof.
  intros Hwf. unfold Json.readValue, Marshal.encodeBatch.
  rewrite !append_assoc.
  change (Json.scan Json.stateBeginValue []
            ("[" ++ Marshal.encodeElems ps ++ "]" ++ rest))
    with (Json.scan Json.stateBeginValueOrEmpty [Json.parseArrayValue []]
            (Marshal.encodeElems ps ++ "]" ++ rest)).
  destruct ps as [|p ps]; [reflexivity|].
  rewrite scan_elems by (assumption || now right). reflexivity.
Qed.

(** ** The tree stored into the struct *)

Lemma unquote_rawString (s : string) :
  Utf8.ValidString s = true -> Json.unquote (rawString s) = Some s.
Proof.
  intros Hs. unfold Json.unquote, rawString.
  apply unquote_escape; [lia|exact Hs|lia].
Qed.

Lemma storeProgressInfo_treeOf (p : ProgressInfo) :
  wellFormed p -> Json.storeProgressInfo (treeOf p) = inr p.
Proof.
  intros (Href & Hstatus & Hmsg & Hoff & Htot).
  unfold Json.storeProgressInfo, treeOf.
  cbn [Json.storeMembers].
  change (Json.unquote Json.nameRef) with (Some Json.nameRef).
  change (Json.unquote Json.nameStatus) with (Some Json.nameStatus).
  change (Json.unquote Json.nameOffset) with (Some Json.nameOffset).
  change (Json.unquote Json.nameTotal) with (Some Json.nameTotal).
  change (Json.unquote Json.nameErrorMessage) with (Some Json.nameErrorMessage).
  cbv iota.
  unfold Json.storeMember at 1.
  change (Json.equalFold Json.nameRef Json.nameRef) with true. cbv iota.
  unfold Json.storeString at 1. rewrite unquote_rawString by assumption.
  unfold Json.storeMember at 1.
  change (Json.equalFold Json.nameRef Json.nameStatus) with false.
  change (Json.equalFold Json.nameStatus Json.nameStatus) with true. cbv iota.
  unfold Json.storeString at 1. rewrite unquote_rawString by assumption.
  unfold Json.storeMember at 1.
  change (Json.equalFold Json.nameRef Json.nameOffset) with false.
  change (Json.equalFold Json.nameStatus Json.nameOffset) with false.
  change (Json.equalFold Json.nameOffset Json.nameOffset) with true. cbv iota.
  unfold Json.storeInt64 at 1. rewrite ParseInt_FormatInt by assumption.
  unfold Json.storeMember at 1.
  change (Json.equalFold Json.nameRef Json.nameTotal) with false.
  change (Json.equalFold Json.nameStatus Json.nameTotal) with false.
  change (Json.equalFold Json.nameOffset Json.nameTotal) with false.
  change (Json.equalFold Json.nameTotal Json.nameTotal) with true. cbv iota.
  unfold Json.storeInt64 at 1. rewrite ParseInt_FormatInt by assumption.
  unfold Json.storeMember at 1.
  change (Json.equalFold Json.nameRef Json.nameErrorMessage) with false.
  change (Json.equalFold Json.nameStatus Json.nameErrorMessage) with false.
  change (Json.equalFold Json.nameOffset Json.nameErrorMessage) with false.
  change (Json.equalFold Json.nameTotal Json.nameErrorMessage) with false.
  change (Json.equalFold Json.nameErrorMessage Json.nameErrorMessage) with true.
  cbv iota.
  unfold Json.storeString at 1. rewrite unquote_rawString by assumption.
  cbn. destruct p; reflexivity.
Qed.

Lemma storeElems_treeOf (ps : list ProgressInfo) :
  Forall wellFormed ps -> Json.storeElems (map treeOf ps) = inr ps.
Proof.
  induction 1 as [|p ps Hp _ IH]; [reflexivity|].
  cbn [map Json.storeElems].
  now rewrite storeProgressInfo_treeOf, IH.
Qed.

Lemma Decode_encodeBatch_value (ps : list ProgressInfo) (rest : string)
  (st : Json.tokenState) (stack : list Json.tokenState) :
  Forall wellFormed ps ->
  Json.tokenValueAllowed st = true ->
  Json.Decode (Json.mkDecoder (Marshal.encodeBatch ps ++ rest) st stack)
  = inr (ps, Json.mkDecoder rest (Json.tokenValueEnd st) stack).
Proof.
  intros Hwf Hst. unfold Json.Decode, Json.DecodeWith.
  assert (Hprep : Json.tokenPrepareForDecode
                    (Json.mkDecoder (Marshal.encodeBatch ps ++ rest) st stack)
                  = inr (Json.mkDecoder (Marshal.encodeBatch ps ++ rest) st stack)).
  { destruct st; try discriminate Hst; reflexivity. }
  rewrite Hprep. cbn [Json.tokState Json.buf Json.tokenStack].
  rewrite Hst. cbn [negb].
  rewrite readValue_encodeBatch by assumption.
  cbn [Json.unmarshalBatch]. now rewrite storeElems_treeOf.
Qed.

Lemma More_encodeBatch (ps : list ProgressInfo) (rest : string)
  (st : Json.tokenState) (stack : list Json.tokenState) :
  Json.More (Json.mkDecoder (Marshal.encodeBatch ps ++ rest) st stack)
  = (true, Json.mkDecoder (Marshal.encodeBatch ps ++ rest) st stack).
Proof. reflexivity. Qed.

Lemma Decode_encodeNil (rest : string) (st : Json.tokenState)
  (stack : list Json.tokenState) :
  Json.tokenValueAllowed st = true ->
  Json.Decode (Json.mkDecoder (Marshal.encodeNil ++ rest) st stack)
  = inr ([], Json.mkDecoder rest (Json.tokenValueEnd st) stack).
Proof. destruct st; intros Hst; try discriminate Hst; reflexivity. Qed.

Lemma renderOutput_one_batch (ps : list ProgressInfo) (clock : Clock) :
  Forall wellFormed ps ->
  decoded (snd (renderOutput ("[" ++ Marshal.encodeBatch ps ++ "]") clock)) = [ps].
Proof.
  intros Hwf. rewrite renderOutput_eq. cbv zeta. unfold Json.NewDecoder. cbn [dec].
  change ("[" ++ Marshal.encodeBatch ps ++ "]")
    with ("" ++ "[" ++ Marshal.encodeBatch ps ++ "]").
  rewrite (Token_open "" (Marshal.encodeBatch ps ++ "]") Json.tokenTopValue [])
    by reflexivity.
  cbn [app].
  pose proof (Decode_encodeBatch_value ps "]" Json.tokenArrayStart
                [Json.tokenTopValue] Hwf eq_refl) as Hdec.
  cbn [Json.tokenValueEnd] in Hdec.
  destruct (first_error ps) as [Hok|(pre & s & post & Hps & Hpre & Hs)].
  - erewrite run_loop_batch;
      [|reflexivity|apply More_encodeBatch|exact Hdec|exact Hok].
    erewrite run_loop_done by reflexivity.
    reflexivity.
  - subst ps.
    erewrite run_loop_task_error;
      [|apply More_encodeBatch|exact Hdec|exact Hpre|exact Hs].
    reflexivity.
Qed.

(** C8: a batch of well-formed events (strings that are valid UTF-8, integers
    in the range of [int64]), encoded and handed to the decoder, is decoded
    into the same list: as many events, in the same order, every field the
    same; so are the nil batch, and a batch that travels as the only element
    of the stream given to [renderOutput]. *)
Theorem decode_after_encode :
  (forall ps rest st stack,
      Forall wellFormed ps ->
      Json.tokenValueAllowed st = true ->
      Json.Decode (Json.mkDecoder (Marshal.encodeBatch ps ++ rest) st stack)
      = inr (ps, Json.mkDecoder rest (Json.tokenValueEnd st) stack))
  /\ (forall rest st stack,
         Json.tokenValueAllowed st = true ->
         Json.Decode (Json.mkDecoder (Marshal.encodeNil ++ rest) st stack)
         = inr ([], Json.mkDecoder rest (Json.tokenValueEnd st) stack))
  /\ (forall ps clock,
         Forall wellFormed ps ->
         decoded (snd (renderOutput ("[" ++ Marshal.encodeBatch ps ++ "]") clock))
         = [ps]).
Proof.
  split; [|split].
  - intros. now apply Decode_encodeBatch_value.
  - intros. now apply Decode_encodeNil.
  - intros. now apply renderOutput_one_batch.
Qed.

Lemma decode_after_encode_witness :
  Forall wellFormed sampleBatch
  /\ Json.Decode (Json.mkDecoder (Marshal.encodeBatch sampleBatch ++ "]")
                    Json.tokenArrayStart [Json.tokenTopValue])
     = inr (sampleBatch,
            Json.mkDecoder "]" (Json.tokenValueEnd Json.tokenArrayStart)
                           [Json.tokenTopValue]).
Proof.
  assert (Hwf : Forall wellFormed sampleBatch).
  { repeat constructor. }
  split; [exact Hwf|].
  apply (proj1 decode_after_encode sampleBatch "]" Json.tokenArrayStart
               [Json.tokenTopValue] Hwf).
  reflexivity.
Defined.

(** * The run as a whole *)

(** ** What reaches os.Stdout *)

Lemma flush_screen (fw0 : Progress.Writer) (objs : list ProgressInfo)
  (line : printed) :
  Progress.buf fw0 = [] ->
  Progress.Flush (Tabwriter.Flush (Tabwriter.NewWriter ++ map eventLine objs ++ [line])%list fw0)
  = Progress.mkWriter [] (Progress.stdout fw0 ++ [(map eventLine objs ++ [line])%list]).
Proof.
  intros Hbuf.
  unfold Tabwriter.Flush, Progress.Write, Progress.Flush, Tabwriter.NewWriter.
  cbn [Progress.buf Progress.stdout app]. rewrite Hbuf. cbn [app].
  destruct (map eventLine objs ++ [line])%list eqn:Hl; [|reflexivity].
  apply app_eq_nil in Hl. destruct Hl as [_ Hl]. discriminate.
Qed.

(** What the loop adds to what has been decoded and written. *)
Lemma render_loop_exact (start : Z) (fuel : nat) :
  forall r res r',
    render_loop fuel start r = Some (res, r') ->
    Progress.buf (fw r) = [] ->
    exists news,
      decoded r' = (decoded r ++ news)%list
      /\ stdout r' = (stdout r ++ screensAt start (clk r) (rendered res news))%list
      /\ Forall (Forall noError) (rendered res news)
      /\ clk r' = ticks (2 * List.length (rendered res news)) (clk r)
      /\ Progress.buf (fw r') = []
      /\ (forall msg, res = Some (TaskError msg) -> news <> []).
Proof.
  induction fuel as [|fuel IH]; intros r res r' Hloop Hbuf; [discriminate|].
  simpl in Hloop.
  destruct (Json.More (dec r)) as [[|] d] eqn:Hmore.
  2:{ inversion Hloop; subst. exists []. cbn.
      rewrite !app_nil_r. repeat split; try assumption; try constructor.
      - destruct (clk r); reflexivity.
      - discriminate. }
  destruct (Json.Decode d) as [e|[objs d']] eqn:Hdec.
  { inversion Hloop; subst. exists []. cbn.
    rewrite !app_nil_r. repeat split; try assumption; try constructor.
    - destruct (clk r); reflexivity.
    - discriminate. }
  destruct (first_error objs) as [Hok|(pre & s & post & -> & Hpre & Hs)].
  - rewrite display_noError in Hloop by assumption.
    rewrite flush_screen in Hloop by assumption.
    apply IH in Hloop; [|reflexivity].
    destruct Hloop as (news & Hd & Hout & Hall & Hclk & Hb & Hne).
    cbn [decoded clk fw stdout Progress.stdout] in *.
    exists (objs :: news).
    assert (Hr : rendered res (objs :: news) = objs :: rendered res news).
    { destruct res as [[| | |msg]|]; try reflexivity.
      cbn [rendered]. specialize (Hne msg eq_refl).
      destruct news; [congruence|reflexivity]. }
    rewrite Hr. repeat split.
    + rewrite Hd. now rewrite <- app_assoc.
    + unfold stdout in *. rewrite Hout. rewrite <- app_assoc. reflexivity.
    + constructor; assumption.
    + rewrite Hclk. unfold ticks, tick2. cbn [readings calls List.length].
      f_equal. lia.
    + exact Hb.
    + discriminate.
  - rewrite display_hasError in Hloop by assumption.
    inversion Hloop; subst. exists [(pre ++ s :: post)%list]. cbn.
    rewrite !app_nil_r. repeat split; try assumption; try constructor.
    + destruct (clk r); reflexivity.
    + discriminate.
Qed.

Lemma renderOutput_exact (body : string) (clock : Clock) :
  let start := readings clock (calls clock) in
  let clock1 := mkClock (readings clock) (S (calls clock)) in
  let res := renderOutput body clock in
  let shown := rendered (fst res) (decoded (snd res)) in
  stdout (snd res) = screensAt start clock1 shown
  /\ Forall (Forall noError) shown
  /\ clk (snd res) = ticks (2 * List.length shown) clock1
  /\ Progress.buf (fw (snd res)) = [].
Proof.
  cbv zeta. rewrite renderOutput_eq. cbv zeta. cbn [dec].
  destruct (Json.Token (Json.NewDecoder body)) as [e|[t d]].
  { cbn. repeat split; constructor. }
  destruct (run_loop _ _) as [[res r1]|] eqn:Hloop.
  2:{ now apply run_loop_total in Hloop. }
  unfold run_loop in Hloop. apply render_loop_exact in Hloop; [|reflexivity].
  destruct Hloop as (news & Hd & Hout & Hall & Hclk & Hb & Hne).
  cbn [decoded clk fw stdout Progress.stdout app] in *.
  destruct res as [err|].
  - cbn [fst snd]. rewrite Hd. repeat split; assumption.
  - cbn [rendered] in *.
    destruct (Json.Token (dec r1)) as [e|[t' d']]; cbn [fst snd rendered decoded clk fw];
      rewrite Hd; repeat split; assumption.
Qed.

Lemma screensAt_length (start : Z) (bs : list (list ProgressInfo)) :
  forall clock, List.length (screensAt start clock bs) = List.length bs.
Proof. induction bs as [|b bs IH]; intros clock; simpl; [reflexivity|now rewrite IH]. Qed.

(** X1: whatever [renderOutput] returns, os.Stdout has received one screen
    for each batch whose rendering pass came to its end (every batch decoded,
    but for the last one when [display] returned its error), in the order of
    the stream, and nothing else; the screen of a batch is its event lines
    followed by its summary line, made with the two clock readings of its
    pass. *)
Theorem stdout_holds_the_screens (body : string) (clock : Clock) :
  let res := renderOutput body clock in
  let shown := rendered (fst res) (decoded (snd res)) in
  stdout (snd res)
  = screensAt (readings clock (calls clock))
              (mkClock (readings clock) (S (calls clock))) shown
  /\ Forall (Forall noError) shown.
Proof.
  cbv zeta. destruct (renderOutput_exact body clock) as (Hout & Hall & _).
  auto.
Qed.

(** X13: [renderOutput] reads the clock once for [start] and twice for each
    screen that reaches os.Stdout, and at no other time. *)
Theorem clock_is_read_twice_a_screen (body : string) (clock : Clock) :
  let r := snd (renderOutput body clock) in
  readings (clk r) = readings clock
  /\ calls (clk r) = (S (calls clock) + 2 * List.length (stdout r))%nat.
Proof.
  cbv zeta. destruct (renderOutput_exact body clock) as (Hout & _ & Hclk & _).
  cbv zeta in *. rewrite Hclk, Hout, screensAt_length.
  unfold ticks. cbn [readings calls]. split; [reflexivity|lia].
Qed.

Lemma monotone_le (readings : nat -> Z) (n k : nat) :
  monotone readings -> readings n <= readings (k + n)%nat.
Proof.
  intros H. induction k as [|k IH]; [simpl; lia|].
  specialize (H (k + n)%nat). simpl. lia.
Qed.

Lemma elapsedOf_eventLine (status : ProgressInfo) : elapsedOf (eventLine status) = [].
Proof.
  unfold eventLine.
  destruct (_ || _)%bool; [reflexivity|].
  destruct (_ || _)%bool; reflexivity.
Qed.

Lemma elapsedOf_screen (objs : list ProgressInfo) (start : Z) (clock : Clock) :
  flat_map elapsedOf (screen objs start clock) = [readings clock (calls clock) - start].
Proof.
  unfold screen. rewrite flat_map_app. cbn.
  induction objs as [|s objs IH]; [reflexivity|].
  cbn [map flat_map]. now rewrite elapsedOf_eventLine.
Qed.

Lemma elapsedShown_screensAt (start : Z) (bs : list (list ProgressInfo)) :
  forall clock,
    monotone (readings clock) ->
    StronglySorted Z.le (elapsedShown (screensAt start clock bs))
    /\ Forall (fun e => readings clock (calls clock) - start <= e)
              (elapsedShown (screensAt start clock bs)).
Proof.
  induction bs as [|b bs IH]; intros clock Hm.
  - split; constructor.
  - unfold elapsedShown. cbn [screensAt flat_map]. rewrite elapsedOf_screen.
    cbn [app]. destruct (IH (tick2 clock) Hm) as [Hs Hall].
    assert (Hall' : Forall (fun e => readings clock (calls clock) - start <= e)
                           (elapsedShown (screensAt start (tick2 clock) bs))).
    { eapply Forall_impl; [|exact Hall]. cbn. intros e He.
      pose proof (monotone_le _ (calls clock) 2 Hm). simpl in *. lia. }
    split; constructor; try assumption. lia.
Qed.

Lemma elapsedShown_length (start : Z) (bs : list (list ProgressInfo)) :
  forall clock, List.length (elapsedShown (screensAt start clock bs)) = List.length bs.
Proof.
  induction bs as [|b bs IH]; intros clock; [reflexivity|].
  unfold elapsedShown. cbn [screensAt flat_map]. rewrite elapsedOf_screen.
  cbn. f_equal. apply IH.
Qed.

(** X14: with a clock that does not go back, every screen shows one elapsed
    time, no elapsed time is negative, and the elapsed times do not decrease
    from a screen to the next. *)
Theorem elapsed_never_decreases (body : string) (clock : Clock) :
  monotone (readings clock) ->
  let out := stdout (snd (renderOutput body clock)) in
  List.length (elapsedShown out) = List.length out
  /\ StronglySorted Z.le (elapsedShown out)
  /\ Forall (fun e => 0 <= e) (elapsedShown out).
Proof.
  intros Hm. cbv zeta.
  destruct (renderOutput_exact body clock) as (Hout & _ & _ & _).
  cbv zeta in Hout. rewrite Hout.
  split; [|split].
  - now rewrite elapsedShown_length, screensAt_length.
  - now apply elapsedShown_screensAt.
  - eapply Forall_impl; [|apply elapsedShown_screensAt; exact Hm].
    cbn. intros e He. pose proof (Hm (calls clock)). lia.
Qed.

Lemma elapsed_never_decreases_witness :
  monotone (readings clock0)
  /\ let out := stdout (snd (renderOutput failingStream clock0)) in
     List.length (elapsedShown out) = List.length out
     /\ StronglySorted Z.le (elapsedShown out)
     /\ Forall (fun e => 0 <= e) (elapsedShown out).
Proof.
  assert (H : monotone (readings clock0)).
  { intros n. unfold clock0. cbn [readings]. lia. }
  split; [exact H|].
  apply (elapsed_never_decreases failingStream clock0 H).
Defined.

(** ** The writer, the clock and the message of the error *)

(** X12: [display] only appends to the writer it is given.  When it returns
    an error it has not read the clock; when it returns [nil] it has read it
    twice: the last line written is the summary line, which shows the elapsed
    time of the first reading and hands the rate the duration of the
    second. *)
Theorem display_clock_and_writer (w : Writer) (statuses : list ProgressInfo)
  (start : Z) (clock : Clock) :
  let '(w', clock', err) := display w statuses start clock in
  (exists lines, w' = (w ++ lines)%list)
  /\ match err with
     | Some _ => clock' = clock
     | None =>
       clock' = tick2 clock
       /\ exists total,
           last w' (Fprintf "" [])
           = summaryLine (readings clock (calls clock) - start) total
                         (readings clock (S (calls clock)) - start)
     end.
Proof.
  destruct (first_error statuses) as [Hok|(pre & s & post & -> & Hpre & Hs)].
  - rewrite display_noError by assumption. split.
    + eexists. reflexivity.
    + split; [reflexivity|]. eexists.
      rewrite app_assoc. apply last_last.
  - rewrite display_hasError by assumption. split.
    + eexists. reflexivity.
    + reflexivity.
Qed.

Lemma Errorf_cons (c : ascii) (s : string) :
  Ascii.eqb c "%" = false -> Errorf (String c s) = String c (Errorf s).
Proof.
  intros Hc. unfold Errorf, Fmt.Sprintf0. cbn [String.length Fmt.doPrintf].
  now rewrite Hc.
Qed.

Lemma Errorf_app (a b : string) :
  noPercent a = true -> Errorf (a ++ b) = a ++ Errorf b.
Proof.
  induction a as [|c a IH]; intros Ha; [reflexivity|].
  cbn [noPercent] in Ha. apply andb_prop in Ha. destruct Ha as [Hc Ha].
  apply negb_true_iff in Hc.
  cbn [append]. rewrite Errorf_cons by assumption. now rewrite IH.
Qed.

Lemma doPrintf_percent (fuel : nat) (s : string) :
  Fmt.doPrintf (S fuel) (String "%" s)
  = let '(out, rest) := Fmt.directive s in out ++ Fmt.doPrintf fuel rest.
Proof. reflexivity. Qed.

Lemma Errorf_percent_percent (b : string) : Errorf ("%%" ++ b) = "%" ++ Errorf b.
Proof.
  unfold Errorf, Fmt.Sprintf0.
  change ("%%" ++ b) with (String "%" (String "%" b)).
  change (String.length (String "%" (String "%" b))) with (S (S (String.length b))).
  rewrite doPrintf_percent.
  assert (Hd : Fmt.directive (String "%" b) = ("%", b)) by reflexivity.
  rewrite Hd. cbn [append]. f_equal.
  apply doPrintf_enough; lia.
Qed.

(** X11: [fmt.Errorf] with a message as its only argument keeps the text
    before the first ['%'] of the message as it is, and writes a doubled
    ['%'] as a single one. *)
Theorem Errorf_keeps_text_before_percent (a b : string) :
  noPercent a = true ->
  Errorf (a ++ b) = a ++ Errorf b
  /\ Errorf (a ++ "%%" ++ b) = a ++ "%" ++ Errorf b
  /\ Errorf a = a.
Proof.
  intros Ha. split; [|split].
  - now apply Errorf_app.
  - rewrite Errorf_app by assumption. now rewrite Errorf_percent_percent.
  - now apply Errorf_verbatim.
Qed.

Lemma Errorf_keeps_text_before_percent_witness :
  noPercent "disk 100" = true
  /\ Errorf ("disk 100" ++ " full") = "disk 100" ++ Errorf " full"
  /\ Errorf ("disk 100" ++ "%%" ++ " full") = "disk 100" ++ "%" ++ Errorf " full"
  /\ Errorf "disk 100" = "disk 100".
Proof.
  split; [reflexivity|].
  apply (Errorf_keeps_text_before_percent "disk 100" " full"); reflexivity.
Defined.

(** X10: when [renderOutput] returns the error of [display], its message
    is [fmt.Errorf] of the [ErrorMessage] of the first event with one in the
    last batch decoded; when that message has no ['%'] the error carries it
    byte for byte. *)
Theorem message_without_percent_is_verbatim (body : string) (clock : Clock)
  (msg : string) (r : Run) :
  renderOutput body clock = (Some (TaskError msg), r) ->
  exists batches pre status post,
    decoded r = (batches ++ [(pre ++ status :: post)%list])%list
    /\ Forall noError pre /\ hasError status
    /\ msg = Errorf (ErrorMessage status)
    /\ (noPercent (ErrorMessage status) = true -> msg = ErrorMessage status).
Proof.
  intros H. apply renderOutput_task_error in H.
  destruct H as (batches & pre & s & post & Hdec & Hpre & Hs & Hmsg & _).
  exists batches, pre, s, post. repeat split; try assumption.
  intros Hp. rewrite Hmsg. now apply Errorf_verbatim.
Qed.

Lemma message_without_percent_is_verbatim_witness :
  exists batches pre status post,
    decoded (snd (renderOutput failingStream clock0))
    = (batches ++ [(pre ++ status :: post)%list])%list
    /\ Forall noError pre /\ hasError status
    /\ "unauthorized" = Errorf (ErrorMessage status)
    /\ (noPercent (ErrorMessage status) = true -> "unauthorized" = ErrorMessage status).
Proof.
  apply (message_without_percent_is_verbatim failingStream clock0 "unauthorized"
           (snd (renderOutput failingStream clock0))).
  vm_compute. reflexivity.
Defined.

Lemma append_nonempty_r (a b : string) : b <> "" -> a ++ b <> "".
Proof. intros Hb H. destruct a; [now apply Hb|discriminate]. Qed.

(** A directive always writes something. *)
Lemma directive_writes (s : string) : fst (Fmt.directive s) <> "".
Proof.
  unfold Fmt.directive.
  destruct (Fmt.argNumber true (Fmt.skipFlags s)) as [[afterIndex good] s1].
  destruct (match s1 with
            | String "*"%char s' => _
            | _ => _
            end) as [[[out afterIndex2] good2] s2].
  destruct (match s2 with
            | String "."%char s' => _
            | _ => (out, afterIndex2, good2, s2)
            end) as [[[out3 afterIndex3] good3] s3].
  destruct (if afterIndex3 then (good3, s3)
            else let '(_, good, s) := Fmt.argNumber good3 s3 in (good, s))
    as [good5 s5].
  destruct s5 as [|c5 s5']; [apply append_nonempty_r; discriminate|].
  destruct (Utf8.DecodeRune (String c5 s5')) as [verb size].
  destruct (verb =? code "%"); [apply append_nonempty_r; discriminate|].
  destruct (negb good5); apply append_nonempty_r; discriminate.
Qed.

Lemma Errorf_nonempty (msg : string) : msg <> "" -> Errorf msg <> "".
Proof.
  intros Hmsg. destruct msg as [|c msg]; [now destruct Hmsg|].
  unfold Errorf, Fmt.Sprintf0. cbn [String.length Fmt.doPrintf].
  destruct (Ascii.eqb c "%"); [|discriminate].
  pose proof (directive_writes msg) as Hd.
  destruct (Fmt.directive msg) as [out rest]. cbn [fst] in Hd.
  destruct out; [now destruct Hd|discriminate].
Qed.

(** X16: the error that [display] returns never has an empty text: a
    message that is not empty gives a text that is not empty, also when
    [fmt] takes all of it for directives. *)
Theorem error_of_display_is_not_empty (w : Writer) (statuses : list ProgressInfo)
  (start : Z) (clock : Clock) :
  snd (display w statuses start clock) <> Some "".
Proof.
  destruct (first_error statuses) as [Hok|(pre & s & post & -> & Hpre & Hs)].
  - now rewrite display_noError.
  - rewrite display_hasError by assumption. cbn [snd].
    intros H. inversion H as [He]. revert He. now apply Errorf_nonempty.
Qed.

(** ** Where the decoder stands *)

Lemma skipSpace_split (s : string) :
  exists ws, s = ws ++ Json.skipSpace s /\ Json.allSpace ws = true.
Proof.
  induction s as [|c s IH].
  - exists "". split; reflexivity.
  - cbn [Json.skipSpace]. destruct (Json.isSpace c) eqn:Hc.
    + destruct IH as (ws & Hs & Hws). exists (String c ws). split.
      * cbn [append]. now rewrite <- Hs.
      * rewrite allSpace_cons, Hc. exact Hws.
    + exists "". split; reflexivity.
Qed.

Lemma skipSpace_head (s : string) (c : ascii) (rest : string) :
  Json.skipSpace s = String c rest -> Json.isSpace c = false.
Proof.
  induction s as [|c0 s IH]; [discriminate|].
  cbn [Json.skipSpace]. destruct (Json.isSpace c0) eqn:Hc0; [exact IH|].
  intros H. inversion H; subst. exact Hc0.
Qed.

Lemma skipSpace_nil (s : string) :
  Json.skipSpace s = "" -> Json.allSpace s = true.
Proof.
  intros H. destruct (skipSpace_split s) as (ws & Hs & Hws).
  rewrite H in Hs. rewrite Hs. clear Hs H.
  induction ws as [|c ws IH]; [reflexivity|].
  rewrite allSpace_cons in Hws. apply andb_prop in Hws. destruct Hws as [Hc Hws].
  cbn [append]. rewrite allSpace_cons, Hc. now apply IH.
Qed.

Lemma allSpace_skipSpace (s : string) :
  Json.allSpace s = true -> Json.skipSpace s = "".
Proof.
  induction s as [|c s IH]; [reflexivity|].
  rewrite allSpace_cons. intros H. apply andb_prop in H. destruct H as [Hc Hs].
  cbn [Json.skipSpace]. rewrite Hc. now apply IH.
Qed.

(** [More] is true: the decoder stands at a byte that is neither a space nor
    a closing delimiter. *)
Lemma More_true (d0 d : Json.Decoder) :
  Json.More d0 = (true, d) ->
  exists ws c rest,
    Json.buf d0 = ws ++ String c rest /\ Json.allSpace ws = true
    /\ Json.buf d = String c rest
    /\ Json.tokState d = Json.tokState d0 /\ Json.tokenStack d = Json.tokenStack d0
    /\ Json.isSpace c = false /\ c <> "]"%char /\ c <> "}"%char.
Proof.
  unfold Json.More, Json.peek. intros H.
  destruct (skipSpace_split (Json.buf d0)) as (ws & Hs & Hws).
  destruct (Json.skipSpace (Json.buf d0)) as [|c rest] eqn:Hskip; [discriminate|].
  injection H as Hb Hd. subst d. exists ws, c, rest. cbn.
  apply andb_prop in Hb. destruct Hb as [H1 H2].
  apply negb_true_iff in H1, H2.
  split; [exact Hs|]. split; [exact Hws|]. do 3 (split; [reflexivity|]).
  split; [now apply skipSpace_head in Hskip|].
  split; intros ->; discriminate.
Qed.

(** [More] is false: the input is at its end, or the decoder stands at a
    closing delimiter. *)
Lemma More_false (d0 d : Json.Decoder) :
  Json.More d0 = (false, d) ->
  (d = d0 /\ Json.allSpace (Json.buf d) = true)
  \/ exists ws c rest,
      Json.buf d0 = ws ++ String c rest /\ Json.allSpace ws = true
      /\ Json.buf d = String c rest
      /\ Json.tokState d = Json.tokState d0 /\ Json.tokenStack d = Json.tokenStack d0
      /\ (c = "]"%char \/ c = "}"%char).
Proof.
  unfold Json.More, Json.peek. intros H.
  destruct (skipSpace_split (Json.buf d0)) as (ws & Hs & Hws).
  destruct (Json.skipSpace (Json.buf d0)) as [|c rest] eqn:Hskip.
  - inversion H; subst. left. split; [reflexivity|]. now apply skipSpace_nil.
  - injection H as Hb Hd. subst d. right. exists ws, c, rest. cbn.
    split; [exact Hs|]. split; [exact Hws|]. do 3 (split; [reflexivity|]).
    destruct (Ascii.eqb_spec c "]"); [now left|].
    destruct (Ascii.eqb_spec c "}"); [now right|]. discriminate.
Qed.

(** The places at which the loop returns. *)
Lemma render_loop_position (start : Z) (fuel : nat) :
  forall r res r',
    render_loop fuel start r = Some (res, r') ->
    match res with
    | Some (DecodeError e) =>
      Json.Decode (dec r') = inl e /\ exists d0, Json.More d0 = (true, dec r')
    | None => exists d0, Json.More d0 = (false, dec r')
    | _ => True
    end.
Proof.
  induction fuel as [|fuel IH]; intros r res r' Hloop; [discriminate|].
  simpl in Hloop.
  destruct (Json.More (dec r)) as [[|] d] eqn:Hmore.
  2:{ inversion Hloop; subst. now exists (dec r). }
  destruct (Json.Decode d) as [e|[objs d']] eqn:Hdec.
  { inversion Hloop; subst. split; [exact Hdec|now exists (dec r)]. }
  destruct (display Tabwriter.NewWriter objs start (clk r)) as [[tw c] [msg|]].
  - inversion Hloop; subst. exact I.
  - now apply IH in Hloop.
Qed.

(** The closing [Token], called where [More] was false. *)
Lemma Token_closing (d0 d : Json.Decoder) (e : Json.error) :
  Json.More d0 = (false, d) ->
  Json.Token d = inl e ->
  (e = Json.EOF /\ Json.allSpace (Json.buf d) = true)
  \/ (e = Json.SyntaxError
      /\ exists c rest, Json.buf d = String c rest /\ (c = "]"%char \/ c = "}"%char)).
Proof.
  intros Hmore Htok. apply More_false in Hmore.
  destruct Hmore as [[-> Hsp]|(ws & c & rest & _ & _ & Hbuf & _ & _ & Hc)].
  - left. split; [|exact Hsp].
    unfold Json.Token in Htok. cbn [Json.Token_loop] in Htok.
    unfold Json.peek in Htok. rewrite (allSpace_skipSpace _ Hsp) in Htok.
    now inversion Htok.
  - right. split; [|now exists c, rest].
    unfold Json.Token in Htok. cbn [Json.Token_loop] in Htok.
    unfold Json.peek in Htok. rewrite Hbuf in Htok.
    destruct Hc as [-> | ->]; cbn in Htok;
      destruct (Json.tokState d); cbn in Htok;
        try (now inversion Htok);
        destruct (Json.popState (Json.tokenStack d)); discriminate.
Qed.

Lemma renderOutput_lengths (body : string) (clock : Clock) (res : option Error)
  (r : Run) :
  renderOutput body clock = (res, r) ->
  (forall msg, res <> Some (TaskError msg)) ->
  List.length (stdout r) = List.length (decoded r)
  /\ Forall (Forall noError) (decoded r).
Proof.
  intros H Hres.
  destruct (renderOutput_exact body clock) as (Hout & Hall & _ & _).
  cbv zeta in *. rewrite H in *. cbn [fst snd] in *.
  assert (Hr : rendered res (decoded r) = decoded r).
  { destruct res as [[| | |msg]|]; try reflexivity. now destruct (Hres msg). }
  rewrite Hr in *. rewrite Hout, screensAt_length. auto.
Qed.



(** X3: when [renderOutput] returns the error of the closing [dec.Token],
    every batch decoded has been rendered and flushed; the error is [io.EOF]
    when nothing but spaces is left of the stream, and a syntax error when the
    decoder stands at a closing delimiter that closes nothing. *)
Theorem closing_token_error_after_all_batches (body : string) (clock : Clock)
  (e : Json.error) (r : Run) :
  renderOutput body clock = (Some (ClosingTokenError e), r) ->
  List.length (stdout r) = List.length (decoded r)
  /\ Forall (Forall noError) (decoded r)
  /\ ((e = Json.EOF /\ Json.allSpace (Json.buf (dec r)) = true)
      \/ (e = Json.SyntaxError
          /\ exists c rest,
              Json.buf (dec r) = String c rest /\ (c = "]"%char \/ c = "}"%char))).
Proof.
  intros H.
  destruct (renderOutput_lengths _ _ _ _ H) as [Hlen Hall]; [discriminate|].
  split; [exact Hlen|]. split; [exact Hall|].
  rewrite renderOutput_eq in H. cbv zeta in H. cbn [dec] in H.
  destruct (Json.Token (Json.NewDecoder body)) as [e0|[t d]]; [discriminate|].
  destruct (run_loop _ _) as [[res r1]|] eqn:Hloop; [|discriminate].
  unfold run_loop in Hloop.
  pose proof Hloop as Herr. apply render_loop_position in Hloop.
  destruct res as [err|].
  - inversion H; subst. apply render_loop_errors in Herr.
    destruct Herr as [[e0 He]|[msg He]]; discriminate.
  - destruct Hloop as [d0 Hmore].
    destruct (Json.Token (dec r1)) as [e1|[t' d']] eqn:Htok; [|discriminate].
    inversion H; subst. eapply Token_closing; eassumption.
Qed.

Lemma closing_token_error_after_all_batches_witness :
  List.length (stdout (snd (renderOutput truncatedStream clock0)))
  = List.length (decoded (snd (renderOutput truncatedStream clock0)))
  /\ Forall (Forall noError) (decoded (snd (renderOutput truncatedStream clock0)))
  /\ ((Json.EOF = Json.EOF
       /\ Json.allSpace (Json.buf (dec (snd (renderOutput truncatedStream clock0)))) = true)
      \/ (Json.EOF = Json.SyntaxError
          /\ exists c rest,
              Json.buf (dec (snd (renderOutput truncatedStream clock0))) = String c rest
              /\ (c = "]"%char \/ c = "}"%char))).
Proof.
  apply (closing_token_error_after_all_batches truncatedStream clock0 Json.EOF
           (snd (renderOutput truncatedStream clock0))).
  vm_compute. reflexivity.
Defined.

(** ** The token state *)

Lemma Token_loop_step (fuel : nat) (d d1 : Json.Decoder) (c : ascii) :
  Json.peek d = inr (c, d1) ->
  Json.Token_loop (S fuel) d
  = match c with
    | "["%char =>
      if negb (Json.tokenValueAllowed (Json.tokState d1)) then Some (inl Json.SyntaxError)
      else Some (inr (Json.Delim c,
             Json.advance d1 Json.tokenArrayStart (Json.tokenStack d1 ++ [Json.tokState d1])))
    | "]"%char =>
      match Json.tokState d1 with
      | Json.tokenArrayStart | Json.tokenArrayComma =>
        let '(st', stack) := Json.popState (Json.tokenStack d1) in
        Some (inr (Json.Delim c, Json.advance d1 (Json.tokenValueEnd st') stack))
      | _ => Some (inl Json.SyntaxError)
      end
    | "{"%char =>
      if negb (Json.tokenValueAllowed (Json.tokState d1)) then Some (inl Json.SyntaxError)
      else Some (inr (Json.Delim c,
             Json.advance d1 Json.tokenObjectStart (Json.tokenStack d1 ++ [Json.tokState d1])))
    | "}"%char =>
      match Json.tokState d1 with
      | Json.tokenObjectStart | Json.tokenObjectComma =>
        let '(st', stack) := Json.popState (Json.tokenStack d1) in
        Some (inr (Json.Delim c, Json.advance d1 (Json.tokenValueEnd st') stack))
      | _ => Some (inl Json.SyntaxError)
      end
    | ":"%char =>
      match Json.tokState d1 with
      | Json.tokenObjectColon =>
        Json.Token_loop fuel (Json.advance d1 Json.tokenObjectValue (Json.tokenStack d1))
      | _ => Some (inl Json.SyntaxError)
      end
    | ","%char =>
      match Json.tokState d1 with
      | Json.tokenArrayComma =>
        Json.Token_loop fuel (Json.advance d1 Json.tokenArrayValue (Json.tokenStack d1))
      | Json.tokenObjectComma =>
        Json.Token_loop fuel (Json.advance d1 Json.tokenObjectKey (Json.tokenStack d1))
      | _ => Some (inl Json.SyntaxError)
      end
    | DQuote =>
      match Json.tokState d1 with
      | Json.tokenObjectStart | Json.tokenObjectKey =>
        match Json.DecodeWith Json.decodeScalar
                (Json.mkDecoder (Json.buf d1) Json.tokenTopValue (Json.tokenStack d1)) with
        | inl e => Some (inl e)
        | inr (x, dec') =>
          Some (inr (x, Json.mkDecoder (Json.buf dec') Json.tokenObjectColon (Json.tokenStack d1)))
        end
      | _ => Some (Json.tokenValue d1)
      end
    | _ => Some (Json.tokenValue d1)
    end.
Proof. intros H. cbn [Json.Token_loop]. rewrite H. reflexivity. Qed.

(** A scalar read as a token at the top level leaves the decoder there. *)
Lemma tokenValue_top (s : string) (tok : Json.token) (d : Json.Decoder) :
  Json.tokenValue (Json.mkDecoder s Json.tokenTopValue []) = inr (tok, d) ->
  tok = Json.Scalar /\ Json.tokState d = Json.tokenTopValue /\ Json.tokenStack d = [].
Proof.
  unfold Json.tokenValue, Json.DecodeWith. cbn.
  destruct (Json.readValue s) as [e|[v rest]]; [discriminate|].
  unfold Json.decodeScalar. destruct (Json.unmarshalScalar v); [discriminate|].
  intros H; inversion H; subst. auto.
Qed.

(** The first token of a stream: a delimiter that opens an array or an
    object, or a scalar. *)
Lemma Token_first (body : string) (tok : Json.token) (d : Json.Decoder) :
  Json.Token (Json.NewDecoder body) = inr (tok, d) ->
  (exists ws, Json.allSpace ws = true /\ body = ws ++ "[" ++ Json.buf d
              /\ Json.tokState d = Json.tokenArrayStart
              /\ Json.tokenStack d = [Json.tokenTopValue])
  \/ (exists ws, Json.allSpace ws = true /\ body = ws ++ "{" ++ Json.buf d
                 /\ Json.tokState d = Json.tokenObjectStart
                 /\ Json.tokenStack d = [Json.tokenTopValue])
  \/ (tok = Json.Scalar /\ Json.tokState d = Json.tokenTopValue
      /\ Json.tokenStack d = []).
Proof.
  unfold Json.Token. intros H.
  destruct (Json.peek (Json.NewDecoder body)) as [e|[c d1]] eqn:Hp.
  { cbn [Json.Token_loop] in H. rewrite Hp in H. discriminate. }
  rewrite (Token_loop_step _ _ _ _ Hp) in H.
  unfold Json.peek, Json.NewDecoder in Hp. cbn [Json.buf Json.tokState Json.tokenStack] in Hp.
  destruct (skipSpace_split body) as (ws & Hs & Hws).
  destruct (Json.skipSpace body) as [|c0 rest]; [discriminate|].
  injection Hp as Hc Hd1. subst c0 d1.
  cbn [Json.buf Json.tokState Json.tokenStack] in H.
  destruct c as [[|] [|] [|] [|] [|] [|] [|] [|]];
    cbv beta iota in H;
    try discriminate;
    try (right; right; exact (tokenValue_top _ _ _ H)).
  - right. left. exists ws. cbn in H. inversion H; subst. cbn. auto.
  - left. exists ws. cbn in H. inversion H; subst. cbn. auto.
Qed.

Lemma tokenPrepareForDecode_state (d d1 : Json.Decoder) :
  Json.tokenPrepareForDecode d = inr d1 ->
  Json.tokenStack d1 = Json.tokenStack d
  /\ Json.tokState d1
     = match Json.tokState d with
       | Json.tokenArrayComma => Json.tokenArrayValue
       | Json.tokenObjectColon => Json.tokenObjectValue
       | st => st
       end.
Proof.
  unfold Json.tokenPrepareForDecode.
  destruct (Json.tokState d) eqn:Hst;
    try (intros H; inversion H; subst; split; [reflexivity|exact Hst]).
  - destruct (Json.peek d) as [e|[c d0]] eqn:Hp; [discriminate|].
    destruct (peek_length _ _ _ Hp) as (_ & _ & Hstack & _).
    destruct (negb (Ascii.eqb c ",")); [discriminate|].
    intros H; inversion H; subst. cbn. auto.
  - destruct (Json.peek d) as [e|[c d0]] eqn:Hp; [discriminate|].
    destruct (peek_length _ _ _ Hp) as (_ & _ & Hstack & _).
    destruct (negb (Ascii.eqb c ":")); [discriminate|].
    intros H; inversion H; subst. cbn. auto.
Qed.

(** [Decode] keeps the stack of the token states, and the state within its
    family: inside an array it ends after a value of the array, at the top
    level it stays there; it is refused where a key is expected. *)
Lemma Decode_state (d d' : Json.Decoder) (objs : list ProgressInfo) :
  Json.Decode d = inr (objs, d') ->
  Json.tokenStack d' = Json.tokenStack d
  /\ (Json.tokState d = Json.tokenArrayStart \/ Json.tokState d = Json.tokenArrayComma ->
      Json.tokState d' = Json.tokenArrayComma)
  /\ (Json.tokState d = Json.tokenTopValue -> Json.tokState d' = Json.tokenTopValue)
  /\ Json.tokState d <> Json.tokenObjectStart.
Proof.
  unfold Json.Decode, Json.DecodeWith.
  destruct (Json.tokenPrepareForDecode d) as [e|d1] eqn:Hprep; [discriminate|].
  apply tokenPrepareForDecode_state in Hprep. destruct Hprep as [Hstack Hst].
  destruct (Json.tokenValueAllowed (Json.tokState d1)) eqn:Hallowed; [|discriminate].
  cbn [negb].
  destruct (Json.readValue (Json.buf d1)) as [e|[v rest]]; [discriminate|].
  destruct (Json.unmarshalBatch v); [discriminate|].
  intros H; inversion H; subst. cbn [Json.tokenStack Json.tokState].
  rewrite Hst in *.
  split; [exact Hstack|].
  destruct (Json.tokState d); cbn in *; try discriminate;
    repeat split; try reflexivity; try discriminate;
      try (intros [?|?]; discriminate); intros; reflexivity.
Qed.

(** ** What the decoder consumes *)

Lemma peek_suffix (d d1 : Json.Decoder) (c : ascii) :
  Json.peek d = inr (c, d1) ->
  exists ws rest,
    Json.buf d = ws ++ String c rest /\ Json.allSpace ws = true
    /\ Json.isSpace c = false
    /\ d1 = Json.mkDecoder (String c rest) (Json.tokState d) (Json.tokenStack d).
Proof.
  unfold Json.peek. intros H.
  destruct (skipSpace_split (Json.buf d)) as (ws & Hs & Hws).
  destruct (Json.skipSpace (Json.buf d)) as [|c0 rest] eqn:Hskip; [discriminate|].
  injection H as Hc Hd. subst c0 d1.
  exists ws, rest. repeat split; try assumption.
  now apply skipSpace_head in Hskip.
Qed.

Lemma scan_suffix (s : string) :
  forall st stack v rest,
    Json.scan st stack s = Some (inr (v, rest)) -> exists a, s = a ++ rest.
Proof.
  induction s as [|c s IH]; intros st stack v rest; cbn [Json.scan].
  - destruct (Json.step st stack " "); try discriminate.
    intros H; inversion H; subst. now exists "".
  - destruct (Json.step st stack c) as [st' stack'|v' [|]|]; try discriminate.
    + intros H. apply IH in H. destruct H as [a ->]. now exists (String c a).
    + intros H; inversion H; subst. now exists (String c "").
    + intros H; inversion H; subst. now exists "".
Qed.

Lemma readValue_suffix (s rest : string) (v : Json.value) :
  Json.readValue s = inr (v, rest) -> exists a, s = a ++ rest.
Proof.
  unfold Json.readValue.
  destruct (Json.scan Json.stateBeginValue [] s) as [r|] eqn:Hscan; [|discriminate].
  intros ->. eapply scan_suffix; eassumption.
Qed.

Lemma tokenPrepareForDecode_suffix (d d1 : Json.Decoder) :
  Json.tokenPrepareForDecode d = inr d1 -> exists a, Json.buf d = a ++ Json.buf d1.
Proof.
  unfold Json.tokenPrepareForDecode.
  destruct (Json.tokState d);
    try (intros H; inversion H; subst; now exists "").
  - destruct (Json.peek d) as [e|[c d0]] eqn:Hp; [discriminate|].
    apply peek_suffix in Hp. destruct Hp as (ws & rest & Hbuf & _ & _ & ->).
    destruct (negb (Ascii.eqb c ",")); [discriminate|].
    intros H; inversion H; subst. cbn.
    exists (ws ++ String c ""). rewrite Hbuf. now rewrite append_assoc.
  - destruct (Json.peek d) as [e|[c d0]] eqn:Hp; [discriminate|].
    apply peek_suffix in Hp. destruct Hp as (ws & rest & Hbuf & _ & _ & ->).
    destruct (negb (Ascii.eqb c ":")); [discriminate|].
    intros H; inversion H; subst. cbn.
    exists (ws ++ String c ""). rewrite Hbuf. now rewrite append_assoc.
Qed.

Lemma Decode_suffix (d d' : Json.Decoder) (objs : list ProgressInfo) :
  Json.Decode d = inr (objs, d') -> exists a, Json.buf d = a ++ Json.buf d'.
Proof.
  unfold Json.Decode, Json.DecodeWith.
  destruct (Json.tokenPrepareForDecode d) as [e|d1] eqn:Hprep; [discriminate|].
  apply tokenPrepareForDecode_suffix in Hprep. destruct Hprep as [a1 Ha1].
  destruct (negb (Json.tokenValueAllowed (Json.tokState d1))); [discriminate|].
  destruct (Json.readValue (Json.buf d1)) as [e|[v rest]] eqn:Hread; [discriminate|].
  apply readValue_suffix in Hread. destruct Hread as [a2 Ha2].
  destruct (Json.unmarshalBatch v); [discriminate|].
  intros H; inversion H; subst. cbn.
  exists (a1 ++ a2). rewrite Ha1, Ha2. now rewrite append_assoc.
Qed.

Lemma More_suffix (d0 d : Json.Decoder) (more : bool) :
  Json.More d0 = (more, d) ->
  exists ws, Json.buf d0 = ws ++ Json.buf d /\ Json.allSpace ws = true
             /\ Json.tokState d = Json.tokState d0
             /\ Json.tokenStack d = Json.tokenStack d0.
Proof.
  destruct more; intros H.
  - apply More_true in H.
    destruct H as (ws & c & rest & Hb & Hws & Hd & Hst & Hstack & _).
    exists ws. rewrite Hd. auto.
  - apply More_false in H.
    destruct H as [[-> _]|(ws & c & rest & Hb & Hws & Hd & Hst & Hstack & _)].
    + now exists "".
    + exists ws. rewrite Hd. auto.
Qed.

(** The loop consumes a prefix of its input and keeps the decoder in the
    array, or at the top level, in which it found it. *)
Lemma render_loop_state (start : Z) (fuel : nat) :
  forall r res r',
    render_loop fuel start r = Some (res, r') ->
    (exists a, Json.buf (dec r) = a ++ Json.buf (dec r'))
    /\ Json.tokenStack (dec r') = Json.tokenStack (dec r)
    /\ (Json.tokState (dec r) = Json.tokenArrayStart
        \/ Json.tokState (dec r) = Json.tokenArrayComma ->
        Json.tokState (dec r') = Json.tokenArrayStart
        \/ Json.tokState (dec r') = Json.tokenArrayComma)
    /\ (Json.tokState (dec r) = Json.tokenTopValue ->
        Json.tokState (dec r') = Json.tokenTopValue).
Proof.
  induction fuel as [|fuel IH]; intros r res r' Hloop; [discriminate|].
  simpl in Hloop.
  destruct (Json.More (dec r)) as [more d] eqn:Hmore.
  apply More_suffix in Hmore. destruct Hmore as (ws & Hws & _ & Hst & Hstack).
  assert (Hhere : (exists a, Json.buf (dec r) = a ++ Json.buf d)
                  /\ Json.tokenStack d = Json.tokenStack (dec r)
                  /\ (Json.tokState (dec r) = Json.tokenArrayStart
                      \/ Json.tokState (dec r) = Json.tokenArrayComma ->
                      Json.tokState d = Json.tokenArrayStart
                      \/ Json.tokState d = Json.tokenArrayComma)
                  /\ (Json.tokState (dec r) = Json.tokenTopValue ->
                      Json.tokState d = Json.tokenTopValue)).
  { rewrite Hst. repeat split; try assumption; try tauto. now exists ws. }
  destruct more.
  2:{ inversion Hloop; subst. exact Hhere. }
  destruct (Json.Decode d) as [e|[objs d']] eqn:Hdec.
  { inversion Hloop; subst. exact Hhere. }
  pose proof (Decode_suffix _ _ _ Hdec) as [a Ha].
  apply Decode_state in Hdec. destruct Hdec as (Hstack' & Harr & Htop & _).
  assert (Hthere : (exists a, Json.buf (dec r) = a ++ Json.buf d')
                   /\ Json.tokenStack d' = Json.tokenStack (dec r)
                   /\ (Json.tokState (dec r) = Json.tokenArrayStart
                       \/ Json.tokState (dec r) = Json.tokenArrayComma ->
                       Json.tokState d' = Json.tokenArrayStart
                       \/ Json.tokState d' = Json.tokenArrayComma)
                   /\ (Json.tokState (dec r) = Json.tokenTopValue ->
                       Json.tokState d' = Json.tokenTopValue)).
  { rewrite Hst in *. repeat split.
    - exists (ws ++ a). rewrite Hws, Ha. now rewrite append_assoc.
    - congruence.
    - intros H. right. now apply Harr.
    - exact Htop. }
  destruct (display Tabwriter.NewWriter objs start (clk r)) as [[tw c] [msg|]].
  - inversion Hloop; subst. exact Hthere.
  - apply IH in Hloop. cbn [dec] in Hloop.
    destruct Hloop as ([a' Ha'] & Hs' & Harr' & Htop').
    destruct Hthere as ([a0 Ha0] & Hs0 & Harr0 & Htop0).
    repeat split.
    + exists (a0 ++ a'). rewrite Ha0, Ha'. now rewrite append_assoc.
    + congruence.
    + intros H. apply Harr'. now apply Harr0.
    + intros H. apply Htop'. now apply Htop0.
Qed.

(** The closing [Token] on a delimiter: it is accepted where it closes what
    the decoder is in. *)
Lemma Token_close (d d' : Json.Decoder) (tok : Json.token) (c : ascii)
  (rest : string) :
  Json.buf d = String c rest -> c = "]"%char \/ c = "}"%char ->
  Json.Token d = inr (tok, d') ->
  Json.buf d' = rest
  /\ Json.tokState d' = Json.tokenValueEnd (fst (Json.popState (Json.tokenStack d)))
  /\ Json.tokenStack d' = snd (Json.popState (Json.tokenStack d))
  /\ (c = "]"%char ->
      Json.tokState d = Json.tokenArrayStart \/ Json.tokState d = Json.tokenArrayComma)
  /\ (c = "}"%char ->
      Json.tokState d = Json.tokenObjectStart \/ Json.tokState d = Json.tokenObjectComma).
Proof.
  intros Hbuf Hc. unfold Json.Token.
  assert (Hp : Json.peek d = inr (c, d)).
  { unfold Json.peek. rewrite Hbuf.
    destruct Hc as [-> | ->]; cbn; rewrite <- Hbuf; now destruct d. }
  rewrite (Token_loop_step _ _ _ _ Hp).
  destruct Hc as [-> | ->]; cbv beta iota;
    destruct (Json.tokState d); try discriminate;
      destruct (Json.popState (Json.tokenStack d)) as [st' stack];
      intros H; inversion H; subst; cbn; rewrite Hbuf; cbn;
        repeat split; try discriminate; auto.
Qed.

(** ** Streams that open with a brace *)

Lemma Decode_at_object_start (s : string) (stack : list Json.tokenState) :
  Json.Decode (Json.mkDecoder s Json.tokenObjectStart stack) = inl Json.SyntaxError.
Proof. reflexivity. Qed.

Lemma renderOutput_object (ws rest : string) (clock : Clock) :
  Json.allSpace ws = true ->
  renderOutput (ws ++ "{" ++ rest) clock
  = match Json.skipSpace rest with
    | EmptyString =>
      (Some (ClosingTokenError Json.EOF),
       mkRun (Json.mkDecoder rest Json.tokenObjectStart [Json.tokenTopValue])
             Progress.NewWriter (mkClock (readings clock) (S (calls clock))) [])
    | String c rest' =>
      if Ascii.eqb c "}" then
        (None,
         mkRun (Json.mkDecoder rest' Json.tokenTopValue [])
               Progress.NewWriter (mkClock (readings clock) (S (calls clock))) [])
      else
        (Some (if Ascii.eqb c "]" then ClosingTokenError Json.SyntaxError
               else DecodeError Json.SyntaxError),
         mkRun (Json.mkDecoder (String c rest') Json.tokenObjectStart [Json.tokenTopValue])
               Progress.NewWriter (mkClock (readings clock) (S (calls clock))) [])
    end.
Proof.
  intros Hws. rewrite renderOutput_eq. cbv zeta.
  unfold Json.NewDecoder. cbn [dec].
  rewrite Token_open_brace by (assumption || reflexivity).
  cbn [app].
  destruct (Json.skipSpace rest) as [|c rest'] eqn:Hskip.
  - assert (Hmore : Json.More (Json.mkDecoder rest Json.tokenObjectStart [Json.tokenTopValue])
                    = (false, Json.mkDecoder rest Json.tokenObjectStart [Json.tokenTopValue])).
    { unfold Json.More, Json.peek. cbn [Json.buf]. now rewrite Hskip. }
    erewrite run_loop_done by (cbn [dec]; exact Hmore).
    cbn [dec fw clk decoded].
    unfold Json.Token. cbn [Json.Token_loop]. unfold Json.peek. cbn [Json.buf].
    now rewrite Hskip.
  - assert (Hpeek : Json.peek (Json.mkDecoder rest Json.tokenObjectStart [Json.tokenTopValue])
                    = inr (c, Json.mkDecoder (String c rest') Json.tokenObjectStart
                                             [Json.tokenTopValue])).
    { unfold Json.peek. cbn [Json.buf]. now rewrite Hskip. }
    destruct (Ascii.eqb_spec c "}") as [->|Hbrace].
    + erewrite run_loop_done
        by (cbn [dec]; unfold Json.More; rewrite Hpeek; reflexivity).
      reflexivity.
    + destruct (Ascii.eqb_spec c "]") as [->|Hbracket].
      * erewrite run_loop_done
          by (cbn [dec]; unfold Json.More; rewrite Hpeek; reflexivity).
        reflexivity.
      * erewrite run_loop_decode_error.
        -- reflexivity.
        -- cbn [dec]. unfold Json.More. rewrite Hpeek.
           apply Ascii.eqb_neq in Hbrace, Hbracket. rewrite Hbrace, Hbracket.
           reflexivity.
        -- reflexivity.
Qed.

(** X5: on a stream whose first token is a left brace nothing is ever
    decoded or written; [renderOutput] returns [nil] when the next byte that
    is not a space is the right brace, the closing-token error when the stream
    ends there or has a right bracket, and otherwise the error of [Decode],
    which refuses a value where a key is expected. *)
Theorem object_stream_renders_nothing (ws rest : string) (clock : Clock) :
  Json.allSpace ws = true ->
  let res := renderOutput (ws ++ "{" ++ rest) clock in
  decoded (snd res) = [] /\ stdout (snd res) = []
  /\ fst res
     = match Json.skipSpace rest with
       | EmptyString => Some (ClosingTokenError Json.EOF)
       | String c _ =>
         if Ascii.eqb c "}" then None
         else if Ascii.eqb c "]" then Some (ClosingTokenError Json.SyntaxError)
         else Some (DecodeError Json.SyntaxError)
       end.
Proof.
  intros Hws. cbv zeta. rewrite renderOutput_object by assumption.
  destruct (Json.skipSpace rest) as [|c rest']; [repeat split|].
  destruct (Ascii.eqb c "}"); [repeat split|].
  destruct (Ascii.eqb c "]"); repeat split.
Qed.

Lemma object_stream_renders_nothing_witness :
  Json.allSpace " " = true
  /\ let res := renderOutput (" " ++ "{" ++ json "'layers':[]}") clock0 in
     decoded (snd res) = [] /\ stdout (snd res) = []
     /\ fst res
        = match Json.skipSpace (json "'layers':[]}") with
          | EmptyString => Some (ClosingTokenError Json.EOF)
          | String c _ =>
            if Ascii.eqb c "}" then None
            else if Ascii.eqb c "]" then Some (ClosingTokenError Json.SyntaxError)
            else Some (DecodeError Json.SyntaxError)
          end.
Proof.
  split; [reflexivity|].
  apply (object_stream_renders_nothing " " (json "'layers':[]}") clock0).
  reflexivity.
Defined.

(** ** Streams that are rendered without error *)

Lemma renderOutput_nil (body : string) (clock : Clock) (r : Run) :
  renderOutput body clock = (None, r) ->
  exists ws mid,
    Json.allSpace ws = true
    /\ (body = ws ++ "[" ++ mid ++ "]" ++ Json.buf (dec r)
        \/ (body = ws ++ "{" ++ mid ++ "}" ++ Json.buf (dec r)
            /\ Json.allSpace mid = true /\ decoded r = []))
    /\ Json.tokState (dec r) = Json.tokenTopValue
    /\ Json.tokenStack (dec r) = [].
Proof.
  intros H. pose proof H as Hobj.
  rewrite renderOutput_eq in H. cbv zeta in H. cbn [dec] in H.
  destruct (Json.Token (Json.NewDecoder body)) as [e|[t d]] eqn:Hfirst; [discriminate|].
  destruct (run_loop _ _) as [[[err|] r1]|] eqn:Hloop; try discriminate.
  destruct (Json.Token (dec r1)) as [e|[t' d']] eqn:Hlast; [discriminate|].
  inversion H; subst r. clear H. cbn [dec].
  unfold run_loop in Hloop.
  pose proof (render_loop_position _ _ _ _ _ Hloop) as [d0 Hmore].
  apply render_loop_state in Hloop. cbn [dec] in Hloop.
  destruct Hloop as ([mid Hmid] & Hstack & Harr & Htop).
  apply More_false in Hmore.
  destruct Hmore as [[_ Hsp]|(_ & c & rest & _ & _ & Hbuf & _ & _ & Hc)].
  { exfalso. unfold Json.Token in Hlast. cbn [Json.Token_loop] in Hlast.
    unfold Json.peek in Hlast. rewrite (allSpace_skipSpace _ Hsp) in Hlast.
    discriminate. }
  pose proof (Token_close _ _ _ _ _ Hbuf Hc Hlast) as (Hrest & Hst' & Hstack' & Hc1 & Hc2).
  apply Token_first in Hfirst.
  destruct Hfirst as [(ws & Hws & Hbody & Hst & Hstk)
                     |[(ws & Hws & Hbody & Hst & Hstk)|(_ & Hst & Hstk)]].
  - (* an array *)
    exists ws, mid. rewrite Hstack, Hstk in *. cbn in Hst', Hstack'.
    split; [exact Hws|]. split; [|split; assumption].
    left. specialize (Harr (or_introl Hst)).
    destruct Hc as [-> | ->].
    + rewrite Hbody, Hmid, Hbuf, Hrest. reflexivity.
    + destruct (Hc2 eq_refl) as [Hx|Hx]; rewrite Hx in Harr;
        destruct Harr; discriminate.
  - (* an object *)
    rewrite Hbody in Hobj. rewrite renderOutput_object in Hobj by assumption.
    destruct (skipSpace_split (Json.buf d)) as (ws' & Hsplit & Hws').
    destruct (Json.skipSpace (Json.buf d)) as [|c' rest']; [discriminate|].
    destruct (Ascii.eqb_spec c' "}") as [->|]; [|discriminate].
    injection Hobj as Hd' _ _ Hdecoded. subst d'. exists ws, ws'. cbn.
    split; [exact Hws|]. split; [|split; reflexivity].
    right. rewrite Hbody, Hsplit, <- Hdecoded. auto.
  - (* a scalar *)
    exfalso. specialize (Htop Hst).
    destruct Hc as [-> | ->].
    + destruct (Hc1 eq_refl) as [Hx|Hx]; congruence.
    + destruct (Hc2 eq_refl) as [Hx|Hx]; congruence.
Qed.

(** X4: [renderOutput] returns [nil] only on a stream that opens with a
    left bracket and has the matching right bracket where the loop ends, or
    that is an empty object (a left brace, spaces, a right brace); so never on
    a stream whose first token is a scalar, and never when the closing
    delimiter is of the other kind.  The decoder is then back at the top
    level, and what follows the closing delimiter is unread. *)
Theorem nil_only_between_matching_delimiters (body : string) (clock : Clock)
  (r : Run) :
  renderOutput body clock = (None, r) ->
  exists ws mid,
    Json.allSpace ws = true
    /\ (body = ws ++ "[" ++ mid ++ "]" ++ Json.buf (dec r)
        \/ (body = ws ++ "{" ++ mid ++ "}" ++ Json.buf (dec r)
            /\ Json.allSpace mid = true /\ decoded r = []))
    /\ Json.tokState (dec r) = Json.tokenTopValue
    /\ Json.tokenStack (dec r) = [].
Proof. apply renderOutput_nil. Qed.

Lemma nil_only_between_matching_delimiters_witness :
  exists ws mid,
    Json.allSpace ws = true
    /\ (twoBatches = ws ++ "[" ++ mid ++ "]"
                        ++ Json.buf (dec (snd (renderOutput twoBatches clock0)))
        \/ (twoBatches = ws ++ "{" ++ mid ++ "}"
                            ++ Json.buf (dec (snd (renderOutput twoBatches clock0)))
            /\ Json.allSpace mid = true
            /\ decoded (snd (renderOutput twoBatches clock0)) = []))
    /\ Json.tokState (dec (snd (renderOutput twoBatches clock0))) = Json.tokenTopValue
    /\ Json.tokenStack (dec (snd (renderOutput twoBatches clock0))) = [].
Proof.
  apply (nil_only_between_matching_delimiters twoBatches clock0
           (snd (renderOutput twoBatches clock0))).
  vm_compute. reflexivity.
Defined.

(** ** The scanner: what it needs of the input *)

Lemma finish_end (v v' : Json.value) (stack : list Json.parseState) (b : bool) :
  Json.finish v stack = Json.scanEnd v' b -> b = true /\ v' = v /\ stack = [].
Proof.
  unfold Json.finish. destruct stack as [|[| |] stack]; try discriminate.
  intros H; inversion H; auto.
Qed.

Lemma finish_continue (v : Json.value) (stack stack' : list Json.parseState)
  (st' : Json.state) :
  Json.finish v stack = Json.scanContinue st' stack' ->
  st' = Json.stateEndValue /\ stack <> [] /\ stack' <> [].
Proof.
  unfold Json.finish. destruct stack as [|[| |] stack]; try discriminate;
    intros H; inversion H; repeat split; discriminate.
Qed.

Lemma finish_not_error (v : Json.value) (stack : list Json.parseState) :
  Json.finish v stack <> Json.scanError.
Proof. unfold Json.finish. destruct stack as [|[| |] stack]; discriminate. Qed.

Lemma endValue_end (stack : list Json.parseState) (c : ascii) (v : Json.value)
  (b : bool) :
  Json.endValue stack c = Json.scanEnd v b ->
  b = true /\ isNumber v = false /\ Json.isSpace c = false.
Proof.
  unfold Json.endValue. destruct (Json.isSpace c); [discriminate|].
  destruct stack as [|[| |] stack]; try discriminate.
  - destruct (Ascii.eqb c ":"); discriminate.
  - destruct (Ascii.eqb c ","); [discriminate|].
    destruct (Ascii.eqb c "}"); [|discriminate].
    intros H. apply finish_end in H. destruct H as (-> & -> & _). auto.
  - destruct (Ascii.eqb c ","); [discriminate|].
    destruct (Ascii.eqb c "]"); [|discriminate].
    intros H. apply finish_end in H. destruct H as (-> & -> & _). auto.
Qed.

Lemma endValue_continue (stack stack' : list Json.parseState) (c : ascii)
  (st' : Json.state) :
  Json.endValue stack c = Json.scanContinue st' stack' ->
  literalState st' = true /\ numberState st' = false.
Proof.
  unfold Json.endValue. destruct (Json.isSpace c).
  { intros H; inversion H; auto. }
  destruct stack as [|[| |] stack]; try discriminate.
  - destruct (Ascii.eqb c ":"); [|discriminate]. intros H; inversion H; auto.
  - destruct (Ascii.eqb c ","); [intros H; inversion H; auto|].
    destruct (Ascii.eqb c "}"); [|discriminate].
    intros H. apply finish_continue in H. destruct H as (-> & _). auto.
  - destruct (Ascii.eqb c ","); [intros H; inversion H; auto|].
    destruct (Ascii.eqb c "]"); [|discriminate].
    intros H. apply finish_continue in H. destruct H as (-> & _). auto.
Qed.

Lemma endNumber_end (acc : string) (stack : list Json.parseState) (c : ascii)
  (v : Json.value) (b : bool) :
  Json.endNumber acc stack c = Json.scanEnd v b ->
  (b = false /\ v = Json.Number acc /\ stack = [])
  \/ (b = true /\ isNumber v = false /\ stack <> [] /\ Json.isSpace c = false).
Proof.
  unfold Json.endNumber.
  destruct (Json.finish (Json.Number acc) stack) as [st1 stack1|v1 b1|] eqn:Hf.
  - apply finish_continue in Hf. destruct Hf as (_ & Hne & _).
    intros H. apply endValue_end in H. right. tauto.
  - apply finish_end in Hf. destruct Hf as (_ & _ & ->).
    intros H; inversion H. left. auto.
  - now apply finish_not_error in Hf.
Qed.

Lemma endNumber_continue (acc : string) (stack stack' : list Json.parseState)
  (c : ascii) (st' : Json.state) :
  Json.endNumber acc stack c = Json.scanContinue st' stack' ->
  literalState st' = true /\ numberState st' = false /\ stack <> [].
Proof.
  unfold Json.endNumber.
  destruct (Json.finish (Json.Number acc) stack) as [st1 stack1|v1 b1|] eqn:Hf.
  - apply finish_continue in Hf. destruct Hf as (_ & Hne & _).
    intros H. apply endValue_continue in H. tauto.
  - discriminate.
  - now apply finish_not_error in Hf.
Qed.

Lemma beginValue_continue (stack stack' : list Json.parseState) (c : ascii)
  (st' : Json.state) :
  Json.beginValue stack c = Json.scanContinue st' stack' -> literalState st' = true.
Proof.
  unfold Json.beginValue.
  destruct (Json.isSpace c); [intros H; inversion H; reflexivity|].
  destruct c as [[|] [|] [|] [|] [|] [|] [|] [|]]; cbv beta iota;
    try (intros H; inversion H; reflexivity);
    match goal with
    | |- (if ?b then _ else _) = _ -> _ =>
      destruct b; [intros H; inversion H; reflexivity|discriminate]
    end.
Qed.

Lemma beginString_continue (stack stack' : list Json.parseState) (c : ascii)
  (st' : Json.state) :
  Json.beginString stack c = Json.scanContinue st' stack' ->
  literalState st' = true /\ numberState st' = false.
Proof.
  unfold Json.beginString.
  destruct (Json.isSpace c); [intros H; inversion H; auto|].
  destruct (Ascii.eqb c DQuote); [intros H; inversion H; auto|discriminate].
Qed.

Lemma inStringEsc_continue (acc : string) (stack stack' : list Json.parseState)
  (c : ascii) (st' : Json.state) :
  Json.step (Json.stateInStringEsc acc) stack c = Json.scanContinue st' stack' ->
  literalState st' = true /\ numberState st' = false.
Proof.
  cbn [Json.step].
  destruct c as [[|] [|] [|] [|] [|] [|] [|] [|]]; cbv beta iota;
    try discriminate; intros H; inversion H; auto.
Qed.

Lemma inStringEsc_not_end (acc : string) (stack : list Json.parseState)
  (c : ascii) (v : Json.value) (b : bool) :
  Json.step (Json.stateInStringEsc acc) stack c <> Json.scanEnd v b.
Proof.
  cbn [Json.step].
  destruct c as [[|] [|] [|] [|] [|] [|] [|] [|]]; cbv beta iota; discriminate.
Qed.

Lemma noSpaceIn_head (e : ascii) (expect : string) :
  noSpaceIn (String e expect) = true -> Json.isSpace e = false /\ noSpaceIn expect = true.
Proof.
  cbn [noSpaceIn]. intros H. apply andb_prop in H. destruct H as [H1 H2].
  apply negb_true_iff in H1. auto.
Qed.

(** A step keeps the invariant of the literals. *)
Lemma step_literalState (st st' : Json.state) (stack stack' : list Json.parseState)
  (c : ascii) :
  literalState st = true ->
  Json.step st stack c = Json.scanContinue st' stack' ->
  literalState st' = true.
Proof.
  intros Hwf.
  destruct st.
  all: try (intros H; now apply inStringEsc_continue in H).
  all: cbn [Json.step]; unfold Json.step0, Json.stepESign.
  all: try (intros H;
         repeat match type of H with
                | (if ?b then _ else _) = _ => destruct b
                | match ?x with _ => _ end = _ => destruct x
                end;
         first [ discriminate H
               | now inversion H
               | now apply beginValue_continue in H
               | now apply beginString_continue in H
               | now apply endValue_continue in H
               | now apply endNumber_continue in H
               | apply finish_continue in H; destruct H as (-> & _); reflexivity ]).
  (* stateLiteral *)
  cbn [literalState] in Hwf.
  destruct expect as [|e [|e2 expect]]; [discriminate| |].
  - destruct (Ascii.eqb c e); [|discriminate].
    intros H. apply finish_continue in H. destruct H as (-> & _). reflexivity.
  - destruct (Ascii.eqb c e); [|discriminate].
    intros H; inversion H; subst. cbn [literalState].
    now apply noSpaceIn_head in Hwf.
Qed.

(** Only a number ends before the byte that is read. *)
Lemma step_end_before (st : Json.state) (stack : list Json.parseState) (c : ascii)
  (v : Json.value) :
  Json.step st stack c = Json.scanEnd v false ->
  isNumber v = true /\ numberState st = true /\ stack = [].
Proof.
  destruct st.
  all: try (intros H; now apply inStringEsc_not_end in H).
  all: cbn [Json.step]; unfold Json.step0, Json.stepESign.
  all: intros H;
    repeat match type of H with
           | (if ?b then _ else _) = _ => destruct b
           | match ?x with _ => _ end = _ => destruct x
           end;
    first [ discriminate H
          | now apply beginValue_not_end in H
          | apply endValue_end in H; destruct H as (H & _); discriminate H
          | apply finish_end in H; destruct H as (H & _); discriminate H
          | apply endNumber_end in H;
            destruct H as [(_ & -> & ->)|(H & _)]; [auto|discriminate H]
          | unfold Json.beginString in H;
            repeat match type of H with
                   | (if ?b then _ else _) = _ => destruct b
                   end; discriminate H ].
Qed.

(** At a space, only a number at the top level ends. *)
Lemma step_end_at_space (st : Json.state) (stack : list Json.parseState)
  (v : Json.value) (b : bool) :
  literalState st = true ->
  Json.step st stack " " = Json.scanEnd v b ->
  numberState st = true /\ stack = [].
Proof.
  intros Hwf H. destruct b.
  - exfalso. destruct st.
    all: try (now apply inStringEsc_not_end in H).
    all: cbn [Json.step] in H; unfold Json.step0, Json.stepESign in H.
    all: try (cbn in H; discriminate H).
    all: try (cbn in H;
              match type of H with
              | Json.endNumber _ _ _ = _ =>
                apply endNumber_end in H;
                destruct H as [(H & _)|(_ & _ & _ & H)]; discriminate H
              end).
    cbn [literalState] in Hwf.
    destruct expect as [|e [|e2 expect]]; [discriminate| |].
    + apply noSpaceIn_head in Hwf. destruct Hwf as [He _].
      destruct (Ascii.eqb_spec " "%char e) as [<-|]; discriminate.
    + destruct (Ascii.eqb " " e); discriminate.
  - apply step_end_before in H. tauto.
Qed.

Lemma step_number (st : Json.state) (c : ascii) :
  numberState st = true ->
  match Json.step st [] c with
  | Json.scanContinue st' stack' => numberState st' = true /\ stack' = []
  | Json.scanEnd v _ => isNumber v = true
  | Json.scanError => True
  end.
Proof.
  destruct st; try discriminate; intros _;
    cbn [Json.step]; unfold Json.step0, Json.stepESign, Json.endNumber;
      cbn [Json.finish];
      repeat match goal with
             | |- context [if ?b then _ else _] => destruct b
             end; cbn; auto.
Qed.

(** What begins inside a number is a number. *)
Lemma scan_number (s : string) :
  forall st v rest,
    numberState st = true ->
    Json.scan st [] s = Some (inr (v, rest)) -> isNumber v = true.
Proof.
  induction s as [|c s IH]; intros st v rest Hst; cbn [Json.scan].
  - pose proof (step_number st " " Hst) as Hstep.
    destruct (Json.step st [] " "); try discriminate.
    intros H; inversion H; subst. exact Hstep.
  - pose proof (step_number st c Hst) as Hstep.
    destruct (Json.step st [] c) as [st' stack'|v' [|]|]; try discriminate.
    + destruct Hstep as [Hst' ->]. now apply IH.
    + intros H; inversion H; subst. exact Hstep.
    + intros H; inversion H; subst. exact Hstep.
Qed.

Lemma scan_nil_None (st : Json.state) (stack : list Json.parseState) (s : string)
  (v : Json.value) (rest : string) :
  literalState st = true ->
  Json.scan st stack s = Some (inr (v, rest)) -> isNumber v = false ->
  Json.scan st stack "" = None.
Proof.
  intros Hwf Hscan Hv. cbn [Json.scan].
  destruct (Json.step st stack " ") as [st' stack'|v' b|] eqn:Hstep; try reflexivity.
  apply step_end_at_space in Hstep; [|exact Hwf].
  destruct Hstep as [Hn ->].
  apply scan_number in Hscan; [congruence|exact Hn].
Qed.

(** The scan of a value that is not a number: it consumes a non-empty part
    of the input, it does not look at what follows, and it does not end
    before the end of that part. *)
Lemma scan_value (s : string) :
  forall st stack v rest,
    literalState st = true ->
    Json.scan st stack s = Some (inr (v, rest)) ->
    isNumber v = false ->
    exists a,
      s = a ++ rest /\ a <> ""
      /\ (forall t, Json.scan st stack (a ++ t) = Some (inr (v, t)))
      /\ (forall a' q, a = a' ++ q -> q <> "" -> Json.scan st stack a' = None).
Proof.
  induction s as [|c s IH]; intros st stack v rest Hwf Hscan Hv.
  - exfalso. pose proof (scan_nil_None _ _ _ _ _ Hwf Hscan Hv) as H.
    congruence.
  - pose proof (scan_nil_None _ _ _ _ _ Hwf Hscan Hv) as Hnil.
    cbn [Json.scan] in Hscan.
    destruct (Json.step st stack c) as [st' stack'|v' [|]|] eqn:Hstep;
      try discriminate.
    + pose proof (step_literalState _ _ _ _ _ Hwf Hstep) as Hwf'.
      destruct (IH _ _ _ _ Hwf' Hscan Hv) as (a & Hs & Hne & Hext & Htrunc).
      exists (String c a). repeat split.
      * cbn. now rewrite Hs.
      * discriminate.
      * intros t. cbn [append Json.scan]. rewrite Hstep. apply Hext.
      * intros a' q Ha Hq. destruct a' as [|c' a']; [exact Hnil|].
        cbn [append] in Ha. inversion Ha; subst c'.
        cbn [Json.scan]. rewrite Hstep. eapply Htrunc; eassumption.
    + inversion Hscan; subst v' rest.
      exists (String c ""). repeat split.
      * discriminate.
      * intros t. cbn [append Json.scan]. now rewrite Hstep.
      * intros a' q Ha Hq. destruct a' as [|c' a']; [exact Hnil|].
        cbn [append] in Ha. inversion Ha as [[Hc Ha']].
        destruct a'; [|discriminate]. cbn in Ha'. congruence.
    + inversion Hscan; subst v' rest.
      apply step_end_before in Hstep. destruct Hstep as [Hn _]. congruence.
Qed.

Lemma allSpace_app (a b : string) :
  Json.allSpace (a ++ b) = Json.allSpace a && Json.allSpace b.
Proof.
  induction a as [|c a IH]; [reflexivity|].
  cbn [append]. rewrite !allSpace_cons, IH. now rewrite andb_assoc.
Qed.

(** [readValue] on a value that is not a number. *)
Lemma readValue_value (s rest : string) (v : Json.value) :
  Json.readValue s = inr (v, rest) ->
  isNumber v = false ->
  exists a,
    s = a ++ rest /\ a <> ""
    /\ (forall t, Json.readValue (a ++ t) = inr (v, t))
    /\ (forall a' q, a = a' ++ q -> q <> "" -> exists e, Json.readValue a' = inl e).
Proof.
  unfold Json.readValue. intros H Hv.
  destruct (Json.scan Json.stateBeginValue [] s) as [r|] eqn:Hscan; [|discriminate].
  subst r.
  destruct (scan_value s Json.stateBeginValue [] v rest eq_refl Hscan Hv) as (a & Hs & Hne & Hext & Htrunc).
  exists a. repeat split; try assumption.
  - intros t. now rewrite Hext.
  - intros a' q Ha Hq. rewrite (Htrunc a' q Ha Hq). eexists. reflexivity.
Qed.

(** ** The decoder: what it needs of the input *)

Lemma withBuf_buf (d : Json.Decoder) : withBuf d (Json.buf d) = d.
Proof. now destruct d. Qed.

Lemma withInput_buf (r : Run) : withInput r (Json.buf (dec r)) = r.
Proof. destruct r as [d f c ds]. unfold withInput. cbn. now rewrite withBuf_buf. Qed.

Lemma renderOutput_afterOpening (body : string) (clock : Clock) :
  renderOutput body clock
  = match Json.Token (Json.NewDecoder body) with
    | inl e =>
      (Some (OpeningTokenError e),
       mkRun (Json.NewDecoder body) Progress.NewWriter
             (mkClock (readings clock) (S (calls clock))) [])
    | inr (_, d) =>
      afterOpening (readings clock (calls clock))
        (mkRun d Progress.NewWriter (mkClock (readings clock) (S (calls clock))) [])
    end.
Proof. reflexivity. Qed.

Lemma append_eq_append (a b : string) :
  forall x y,
    a ++ b = x ++ y ->
    (exists z, x = a ++ z /\ b = z ++ y)
    \/ (exists z, z <> "" /\ a = x ++ z /\ y = z ++ b).
Proof.
  induction a as [|c a IH]; intros x y H.
  - left. exists x. auto.
  - destruct x as [|c' x].
    + right. exists (String c a). repeat split; [discriminate|now symmetry].
    + cbn [append] in H. inversion H; subst c'.
      destruct (IH _ _ H2) as [(z & -> & ->)|(z & Hz & -> & ->)].
      * left. now exists z.
      * right. now exists z.
Qed.

Lemma append_nil_inv (a b : string) : a ++ b = "" -> a = "" /\ b = "".
Proof. destruct a; [auto|discriminate]. Qed.

Lemma peek_withBuf (d : Json.Decoder) (ws : string) (c : ascii) (rest : string) :
  Json.allSpace ws = true -> Json.isSpace c = false ->
  Json.peek (withBuf d (ws ++ String c rest)) = inr (c, withBuf d (String c rest)).
Proof. intros Hws Hc. unfold withBuf. now apply peek_app. Qed.

Lemma peek_allSpace (d : Json.Decoder) (s : string) :
  Json.allSpace s = true -> Json.peek (withBuf d s) = inl Json.EOF.
Proof.
  intros Hs. unfold Json.peek, withBuf. cbn [Json.buf].
  now rewrite allSpace_skipSpace.
Qed.

(** The prefix of an all-space string followed by a byte is all spaces. *)
Lemma prefix_of_spaces (ws : string) (c : ascii) (p q : string) :
  Json.allSpace ws = true ->
  ws ++ String c "" = p ++ q -> q <> "" -> Json.allSpace p = true.
Proof.
  intros Hws H Hq.
  apply append_eq_append in H.
  destruct H as [(z & Hp & Hz)|(z & Hz & Hwsz & Hq')].
  - (* p = ws ++ z, [c] = z ++ q *)
    destruct z as [|c' z].
    + rewrite append_nil_r in Hp. now subst p.
    + cbn in Hz. inversion Hz as [[Hc Hzq]]. symmetry in Hzq.
      apply append_nil_inv in Hzq. destruct Hzq as [_ ->]. now destruct Hq.
  - (* ws = p ++ z *)
    rewrite Hwsz, allSpace_app in Hws. apply andb_prop in Hws. tauto.
Qed.

Lemma tokenPrepareForDecode_local (d d1 : Json.Decoder) :
  Json.tokenPrepareForDecode d = inr d1 ->
  exists p,
    Json.buf d = p ++ Json.buf d1
    /\ (forall t, Json.tokenPrepareForDecode (withBuf d (p ++ t)) = inr (withBuf d1 t))
    /\ (forall p' q, p = p' ++ q -> q <> "" ->
                     exists e, Json.tokenPrepareForDecode (withBuf d p') = inl e).
Proof.
  unfold Json.tokenPrepareForDecode.
  destruct (Json.tokState d) eqn:Hst.
  all: try (intros H; inversion H; subst d1; exists ""; split; [reflexivity|];
            split;
            [ intros t; unfold withBuf; cbn; rewrite Hst; reflexivity
            | intros p' q Hp Hq; symmetry in Hp; apply append_nil_inv in Hp;
              now destruct Hp as [_ ->] ]).
  - destruct (Json.peek d) as [e|[c d0]] eqn:Hp; [discriminate|].
    apply peek_suffix in Hp. destruct Hp as (ws & rest & Hbuf & Hws & Hc & ->).
    destruct (Ascii.eqb_spec c ",") as [->|]; [|discriminate].
    intros H; inversion H; subst d1. cbn.
    exists (ws ++ ","). repeat split.
    + rewrite Hbuf. now rewrite append_assoc.
    + intros t. rewrite append_assoc. cbn [append].
      change (Json.tokState (withBuf d (ws ++ String "," t))) with (Json.tokState d).
      rewrite Hst. rewrite peek_withBuf by assumption. reflexivity.
    + intros p' q Hp' Hq.
      change (Json.tokState (withBuf d p')) with (Json.tokState d). rewrite Hst.
      rewrite peek_allSpace; [eexists; reflexivity|].
      eapply prefix_of_spaces; eassumption.
  - destruct (Json.peek d) as [e|[c d0]] eqn:Hp; [discriminate|].
    apply peek_suffix in Hp. destruct Hp as (ws & rest & Hbuf & Hws & Hc & ->).
    destruct (Ascii.eqb_spec c ":") as [->|]; [|discriminate].
    intros H; inversion H; subst d1. cbn.
    exists (ws ++ ":"). repeat split.
    + rewrite Hbuf. now rewrite append_assoc.
    + intros t. rewrite append_assoc. cbn [append].
      change (Json.tokState (withBuf d (ws ++ String ":" t))) with (Json.tokState d).
      rewrite Hst. rewrite peek_withBuf by assumption. reflexivity.
    + intros p' q Hp' Hq.
      change (Json.tokState (withBuf d p')) with (Json.tokState d). rewrite Hst.
      rewrite peek_allSpace; [eexists; reflexivity|].
      eapply prefix_of_spaces; eassumption.
Qed.

Lemma unmarshalBatch_value (v : Json.value) (objs : list ProgressInfo) :
  Json.unmarshalBatch v = inr objs -> isNumber v = false.
Proof. destruct v; try discriminate; reflexivity. Qed.

(** [Decode] of a batch: it consumes a non-empty part of the input, does not
    look at what follows, and fails on a proper prefix of that part. *)
Lemma Decode_local (d d' : Json.Decoder) (objs : list ProgressInfo) :
  Json.Decode d = inr (objs, d') ->
  exists a,
    Json.buf d = a ++ Json.buf d' /\ a <> ""
    /\ (forall t, Json.Decode (withBuf d (a ++ t)) = inr (objs, withBuf d' t))
    /\ (forall a' q, a = a' ++ q -> q <> "" ->
                     exists e, Json.Decode (withBuf d a') = inl e).
Proof.
  unfold Json.Decode, Json.DecodeWith.
  destruct (Json.tokenPrepareForDecode d) as [e|d1] eqn:Hprep; [discriminate|].
  pose proof (tokenPrepareForDecode_state _ _ Hprep) as [Hstack Hst1].
  apply tokenPrepareForDecode_local in Hprep.
  destruct Hprep as (p & Hp & Hpext & Hptrunc).
  destruct (Json.tokenValueAllowed (Json.tokState d1)) eqn:Hallowed; [|discriminate].
  cbn [negb].
  destruct (Json.readValue (Json.buf d1)) as [e|[v rest]] eqn:Hread; [discriminate|].
  destruct (Json.unmarshalBatch v) as [e|objs'] eqn:Hum; [discriminate|].
  intros H; inversion H; subst objs' d'. clear H.
  apply readValue_value in Hread; [|eapply unmarshalBatch_value; eassumption].
  destruct Hread as (a2 & Ha2 & Hne & Hext & Htrunc).
  exists (p ++ a2). cbn [Json.buf]. repeat split.
  - rewrite Hp, Ha2. now rewrite append_assoc.
  - intros H. apply append_nil_inv in H. tauto.
  - intros t. rewrite append_assoc, Hpext.
    change (Json.tokState (withBuf d1 (a2 ++ t))) with (Json.tokState d1).
    rewrite Hallowed. cbn [negb].
    change (Json.buf (withBuf d1 (a2 ++ t))) with (a2 ++ t).
    rewrite Hext, Hum. reflexivity.
  - intros a' q Ha Hq. symmetry in Ha. apply append_eq_append in Ha.
    destruct Ha as [(z & Hpz & Hqz)|(z & Hz & Ha' & Ha2z)].
    + (* p = a' ++ z *)
      destruct z as [|c z].
      * rewrite append_nil_r in Hpz. subst a'.
        pose proof (Hpext "") as Hp0. rewrite append_nil_r in Hp0. rewrite Hp0.
        change (Json.tokState (withBuf d1 "")) with (Json.tokState d1).
        rewrite Hallowed. cbn [negb].
        change (Json.buf (withBuf d1 "")) with "".
        destruct (Htrunc "" a2 eq_refl Hne) as [e He]. rewrite He.
        eexists. reflexivity.
      * destruct (Hptrunc a' (String c z) Hpz) as [e He]; [discriminate|].
        rewrite He. eexists. reflexivity.
    + (* a' = p ++ z, a2 = z ++ q *)
      subst a'. rewrite Hpext.
      change (Json.tokState (withBuf d1 z)) with (Json.tokState d1).
      rewrite Hallowed. cbn [negb].
      change (Json.buf (withBuf d1 z)) with z.
      destruct (Htrunc z q Ha2z Hq) as [e He]. rewrite He.
      eexists. reflexivity.
Qed.

(** ** The loop does not read ahead *)

Lemma run_loop_step (start : Z) (r : Run) (d d' : Json.Decoder)
  (objs : list ProgressInfo) (tw : Writer) (clock : Clock) :
  Json.More (dec r) = (true, d) ->
  Json.Decode d = inr (objs, d') ->
  display Tabwriter.NewWriter objs start (clk r) = (tw, clock, None) ->
  run_loop start r
  = run_loop start
      (mkRun d' (Progress.Flush (Tabwriter.Flush tw (fw r))) clock
             (decoded r ++ [objs])).
Proof.
  intros Hmore Hdec Hdisp. unfold run_loop at 1. cbn [render_loop].
  rewrite Hmore, Hdec, Hdisp.
  apply More_length in Hmore. apply DecodeWith_length in Hdec.
  apply render_loop_fuel; cbn [dec]; lia.
Qed.

Lemma run_loop_display_error (start : Z) (r : Run) (d d' : Json.Decoder)
  (objs : list ProgressInfo) (tw : Writer) (clock : Clock) (err : string) :
  Json.More (dec r) = (true, d) ->
  Json.Decode d = inr (objs, d') ->
  display Tabwriter.NewWriter objs start (clk r) = (tw, clock, Some err) ->
  run_loop start r
  = Some (Some (TaskError err), mkRun d' (fw r) clock (decoded r ++ [objs])).
Proof.
  intros Hmore Hdec Hdisp. unfold run_loop. cbn [render_loop].
  now rewrite Hmore, Hdec, Hdisp.
Qed.

(** One round of the loop: [More] and [Decode] consume the spaces and the
    batch, do not look at what follows, and one of them fails when the input
    stops before the end of the batch. *)
Lemma round_local (d0 d d' : Json.Decoder) (objs : list ProgressInfo) :
  Json.More d0 = (true, d) ->
  Json.Decode d = inr (objs, d') ->
  exists a,
    Json.buf d0 = a ++ Json.buf d' /\ a <> ""
    /\ (forall t, exists dt,
           Json.More (withBuf d0 (a ++ t)) = (true, dt)
           /\ Json.Decode dt = inr (objs, withBuf d' t))
    /\ (forall x q, a = x ++ q -> q <> "" ->
          Json.allSpace x = true
          \/ exists dx e, Json.More (withBuf d0 x) = (true, dx)
                          /\ Json.Decode dx = inl e).
Proof.
  intros Hmore Hdec.
  apply More_true in Hmore.
  destruct Hmore as (ws & c & rest & Hb0 & Hws & Hbd & Hst & Hstack & Hc & Hc1 & Hc2).
  assert (Hd : d = withBuf d0 (String c rest)).
  { destruct d as [b st stk]. cbn in *. unfold withBuf. congruence. }
  apply Decode_local in Hdec. destruct Hdec as (a & Ha & Hne & Hext & Htrunc).
  destruct a as [|c' a]; [now destruct Hne|].
  rewrite Hbd in Ha. cbn [append] in Ha. inversion Ha as [[Hcc Hrest]]. subst c'.
  assert (Hmore_at : forall t,
             Json.More (withBuf d0 (ws ++ String c t)) = (true, withBuf d0 (String c t))).
  { intros t. unfold Json.More. rewrite peek_withBuf by assumption.
    apply Ascii.eqb_neq in Hc1, Hc2. now rewrite Hc1, Hc2. }
  exists (ws ++ String c a). repeat split.
  - rewrite Hb0, Hrest. now rewrite append_assoc.
  - intros H. apply append_nil_inv in H. destruct H as [_ H]. discriminate.
  - intros t. exists (withBuf d0 (String c a ++ t)). split.
    + rewrite append_assoc. apply Hmore_at.
    + specialize (Hext t). rewrite Hd in Hext. exact Hext.
  - intros x q Hx Hq. apply append_eq_append in Hx.
    destruct Hx as [(z & Hxz & Hzq)|(z & Hz & Hwsz & Hq')].
    + (* x = ws ++ z, String c a = z ++ q *)
      destruct z as [|c' z].
      * left. rewrite append_nil_r in Hxz. now subst x.
      * right. cbn [append] in Hzq. inversion Hzq as [[Hcc' Haz]]. subst c' x.
        exists (withBuf d0 (String c z)).
        destruct (Htrunc (String c z) q) as [e He]; [cbn; now rewrite Haz|exact Hq|].
        exists e. split; [apply Hmore_at|]. rewrite Hd in He. exact He.
    + (* ws = x ++ z *)
      left. rewrite Hwsz, allSpace_app in Hws. apply andb_prop in Hws. tauto.
Qed.

Lemma afterOpening_eq (start : Z) (r r2 : Run) :
  run_loop start r = run_loop start r2 ->
  fst (afterOpening start r) = fst (afterOpening start r2).
Proof.
  unfold afterOpening. intros ->.
  destruct (run_loop start r2) as [[[err|] r3]|]; reflexivity.
Qed.

Lemma afterOpening_allSpace (start : Z) (r : Run) (x : string) :
  Json.allSpace x = true ->
  fst (afterOpening start (withInput r x)) = Some (ClosingTokenError Json.EOF).
Proof.
  intros Hx. unfold afterOpening.
  erewrite run_loop_done.
  2:{ cbn [dec withInput]. unfold Json.More. rewrite peek_allSpace by assumption.
      reflexivity. }
  cbn [dec]. unfold Json.Token. cbn [Json.Token_loop].
  now rewrite peek_allSpace.
Qed.

Lemma withBuf_state (d d' : Json.Decoder) (s : string) :
  Json.tokState d' = Json.tokState d -> Json.tokenStack d' = Json.tokenStack d ->
  withBuf d' s = withBuf d s.
Proof. unfold withBuf. now intros -> ->. Qed.

(** The loop that ends with the error of [display], or at a closing
    delimiter: what it has consumed, and that it depends on nothing else. *)
Lemma render_loop_local (start : Z) (fuel : nat) :
  forall r res r',
    render_loop fuel start r = Some (res, r') ->
    (forall msg, res = Some (TaskError msg) ->
       exists a,
         Json.buf (dec r) = a ++ Json.buf (dec r') /\ a <> ""
         /\ forall t, run_loop start (withInput r (a ++ t)) = Some (res, withInput r' t))
    /\ (res = None ->
        forall c rest,
          Json.buf (dec r') = String c rest -> c = "]"%char \/ c = "}"%char ->
          exists a,
            Json.buf (dec r) = a ++ String c rest
            /\ (forall t, run_loop start (withInput r (a ++ String c t))
                          = Some (None, withInput r' (String c t)))
            /\ (forall x q, a ++ String c "" = x ++ q -> q <> "" ->
                            fst (afterOpening start (withInput r x)) <> None)).
Proof.
  induction fuel as [|fuel IH]; intros r res r' Hloop; [discriminate|].
  cbn [render_loop] in Hloop.
  destruct (Json.More (dec r)) as [[|] d] eqn:Hmore.
  2:{ (* the loop ends *)
      inversion Hloop; subst res r'. clear Hloop. split; [discriminate|].
      intros _ c rest Hbuf Hc. cbn [dec] in Hbuf.
      apply More_false in Hmore.
      destruct Hmore as [[-> Hsp]|(ws & c' & rest' & Hb0 & Hws & Hbd & Hst & Hstack & _)].
      { exfalso. rewrite Hbuf, allSpace_cons in Hsp.
        destruct Hc as [-> | ->]; discriminate. }
      rewrite Hbuf in Hbd. inversion Hbd; subst c' rest'.
      assert (Hsp : Json.isSpace c = false) by (destruct Hc as [-> | ->]; reflexivity).
      exists ws. split; [exact Hb0|]. split.
      - intros t. erewrite run_loop_done.
        2:{ cbn [dec withInput]. unfold Json.More.
            rewrite peek_withBuf by assumption.
            destruct Hc as [-> | ->]; reflexivity. }
        unfold withInput. cbn [dec fw clk decoded]. do 2 f_equal.
        f_equal. symmetry. now apply withBuf_state.
      - intros x q Hx Hq. rewrite afterOpening_allSpace; [discriminate|].
        eapply prefix_of_spaces; eassumption. }
  destruct (Json.Decode d) as [e|[objs d']] eqn:Hdec.
  { inversion Hloop; subst. split; [discriminate|discriminate]. }
  destruct (round_local _ _ _ _ Hmore Hdec) as (a0 & Ha0 & Hne0 & Hext0 & Htrunc0).
  destruct (display Tabwriter.NewWriter objs start (clk r)) as [[tw clock] [err|]] eqn:Hdisp.
  - (* the error of display *)
    inversion Hloop; subst res r'. clear Hloop. split; [|discriminate].
    intros msg _. exists a0. cbn [dec]. split; [exact Ha0|]. split; [exact Hne0|].
    intros t. destruct (Hext0 t) as (dt & Hmt & Hdt).
    erewrite run_loop_display_error; [reflexivity| | |].
    + cbn [dec withInput]. exact Hmt.
    + exact Hdt.
    + exact Hdisp.
  - (* the loop goes on *)
    apply IH in Hloop. cbn [dec] in Hloop. destruct Hloop as [Htask Hnil].
    assert (Hstep : forall t,
               run_loop start (withInput r (a0 ++ t))
               = run_loop start
                   (withInput (mkRun d' (Progress.Flush (Tabwriter.Flush tw (fw r)))
                                     clock (decoded r ++ [objs])) t)).
    { intros t. destruct (Hext0 t) as (dt & Hmt & Hdt).
      erewrite run_loop_step; [reflexivity| | |].
      - cbn [dec withInput]. exact Hmt.
      - exact Hdt.
      - exact Hdisp. }
    split.
    + intros msg Hres. destruct (Htask msg Hres) as (a1 & Ha1 & _ & Hext1).
      exists (a0 ++ a1). split; [|split].
      * rewrite Ha0, Ha1. now rewrite append_assoc.
      * intros H. apply append_nil_inv in H. tauto.
      * intros t. rewrite append_assoc, Hstep. apply Hext1.
    + intros Hres c rest Hbuf Hc.
      destruct (Hnil Hres c rest Hbuf Hc) as (a1 & Ha1 & Hext1 & Htrunc1).
      exists (a0 ++ a1). split; [|split].
      * rewrite Ha0, Ha1. now rewrite append_assoc.
      * intros t. rewrite append_assoc, Hstep. apply Hext1.
      * intros x q Hx Hq. rewrite append_assoc in Hx.
        apply append_eq_append in Hx.
        destruct Hx as [(z & -> & Hzq)|(z & Hz & Ha0z & Hq')].
        -- rewrite (afterOpening_eq _ _ _ (Hstep z)).
           eapply Htrunc1; eassumption.
        -- destruct (Htrunc0 x z Ha0z Hz) as [Hsp|(dx & e & Hmx & Hdx)].
           ++ rewrite afterOpening_allSpace by assumption. discriminate.
           ++ unfold afterOpening. erewrite run_loop_decode_error.
              ** cbn. discriminate.
              ** cbn [dec withInput]. exact Hmx.
              ** exact Hdx.
Qed.

(** ** The tokens do not read ahead *)

Lemma Token_close_ext (d d' : Json.Decoder) (tok : Json.token) (c : ascii)
  (rest : string) :
  Json.buf d = String c rest -> c = "]"%char \/ c = "}"%char ->
  Json.Token d = inr (tok, d') ->
  forall t, Json.Token (withBuf d (String c t)) = inr (tok, withBuf d' t).
Proof.
  intros Hbuf Hc Htok t.
  assert (Hp : forall s, Json.peek (withBuf d (String c s)) = inr (c, withBuf d (String c s))).
  { intros s. apply (peek_withBuf d "" c s); [reflexivity|].
    destruct Hc as [-> | ->]; reflexivity. }
  assert (Hd : d = withBuf d (String c rest)) by (destruct d; cbn in *; now subst).
  unfold Json.Token in *. rewrite Hd in Htok.
  rewrite (Token_loop_step _ _ _ _ (Hp rest)) in Htok.
  rewrite (Token_loop_step _ _ _ _ (Hp t)).
  cbn [withBuf Json.tokState Json.tokenStack Json.buf] in *.
  destruct Hc as [-> | ->]; cbv beta iota in *;
    destruct (Json.tokState d); try discriminate;
      destruct (Json.popState (Json.tokenStack d)) as [st' stack];
      inversion Htok; subst; reflexivity.
Qed.

Lemma Token_allSpace (p : string) :
  Json.allSpace p = true -> Json.Token (Json.NewDecoder p) = inl Json.EOF.
Proof.
  intros Hp. unfold Json.Token. cbn [Json.Token_loop].
  change (Json.NewDecoder p) with (withBuf (Json.NewDecoder "") p).
  now rewrite peek_allSpace.
Qed.

(** A stream rendered without error: what has been consumed ends with the
    closing delimiter; what follows it is not looked at; and no proper prefix
    of it is rendered without error. *)
Lemma renderOutput_nil_local (body : string) (clock : Clock) (r : Run) :
  renderOutput body clock = (None, r) ->
  exists consumed,
    body = consumed ++ Json.buf (dec r)
    /\ (forall t, renderOutput (consumed ++ t) clock = (None, withInput r t))
    /\ (forall p q, consumed = p ++ q -> q <> "" ->
                    fst (renderOutput p clock) <> None).
Proof.
  intros H. pose proof H as Hwhole.
  rewrite renderOutput_afterOpening in H.
  destruct (Json.Token (Json.NewDecoder body)) as [e|[t0 d]] eqn:Hfirst; [discriminate|].
  pose proof (Token_first _ _ _ Hfirst) as
      [(ws & Hws & Hbody & Hst & Hstk)|[(ws & Hws & Hbody & Hst & Hstk)|(Htok & Hst & Hstk)]].
  - (* an array *)
    assert (Hd : d = Json.mkDecoder (Json.buf d) Json.tokenArrayStart [Json.tokenTopValue]).
    { destruct d; cbn in *; now subst. }
    set (start := readings clock (calls clock)) in *.
    set (clock1 := mkClock (readings clock) (S (calls clock))) in *.
    unfold afterOpening in H.
    destruct (run_loop start _) as [[[err|] r1]|] eqn:Hloop; try discriminate.
    destruct (Json.Token (dec r1)) as [e|[t1 d1]] eqn:Hlast; [discriminate|].
    inversion H; subst r. clear H. cbn [dec].
    unfold run_loop in Hloop.
    pose proof (render_loop_position _ _ _ _ _ Hloop) as [d0 Hmore].
    apply More_false in Hmore.
    destruct Hmore as [[_ Hsp]|(_ & c & rest & _ & _ & Hbuf & _ & _ & Hc)].
    { exfalso. unfold Json.Token in Hlast. cbn [Json.Token_loop] in Hlast.
      unfold Json.peek in Hlast. rewrite (allSpace_skipSpace _ Hsp) in Hlast.
      discriminate. }
    pose proof (Token_close _ _ _ _ _ Hbuf Hc Hlast) as (Hrest & _).
    apply render_loop_local in Hloop. destruct Hloop as [_ Hnil].
    destruct (Hnil eq_refl c rest Hbuf Hc) as (a & Ha & Hext & Htrunc).
    cbn [dec] in Ha.
    assert (Hopen : forall x,
               renderOutput ((ws ++ "[") ++ x) clock
               = afterOpening start
                   (withInput (mkRun d Progress.NewWriter clock1 []) x)).
    { intros x. rewrite renderOutput_afterOpening. unfold Json.NewDecoder.
      rewrite append_assoc.
      rewrite (Token_open ws x Json.tokenTopValue [] Hws eq_refl).
      rewrite Hd. reflexivity. }
    exists ((ws ++ "[") ++ a ++ String c ""). split; [|split].
    + rewrite Hbody, Ha, Hrest. rewrite !append_assoc. reflexivity.
    + intros t. rewrite append_assoc. rewrite (append_assoc a).
      cbn [append]. rewrite Hopen. unfold afterOpening. rewrite Hext.
      cbn [dec withInput].
      rewrite (Token_close_ext _ _ _ _ _ Hbuf Hc Hlast). reflexivity.
    + intros p q Hp Hq. apply append_eq_append in Hp.
      destruct Hp as [(z & -> & Hzq)|(z & Hz & Hwsz & Hq')].
      * rewrite Hopen. eapply Htrunc; eassumption.
      * rewrite renderOutput_afterOpening.
        rewrite Token_allSpace; [discriminate|].
        eapply prefix_of_spaces; eassumption.
  - (* an object *)
    rewrite Hbody in Hwhole. rewrite renderOutput_object in Hwhole by assumption.
    destruct (skipSpace_split (Json.buf d)) as (ws' & Hsplit & Hws').
    destruct (Json.skipSpace (Json.buf d)) as [|c' rest'] eqn:Hskip; [discriminate|].
    destruct (Ascii.eqb_spec c' "}") as [->|]; [|discriminate].
    injection Hwhole as Hr. subst r. cbn [dec Json.buf].
    exists ((ws ++ "{") ++ ws' ++ "}"). split; [|split].
    + rewrite Hbody, Hsplit. rewrite !append_assoc. reflexivity.
    + intros t. rewrite append_assoc. rewrite (append_assoc ws').
      cbn [append]. rewrite append_assoc.
      rewrite renderOutput_object by assumption.
      rewrite skipSpace_app by (assumption || reflexivity). reflexivity.
    + intros p q Hp Hq. apply append_eq_append in Hp.
      destruct Hp as [(z & -> & Hzq)|(z & Hz & Hwsz & Hq')].
      * rewrite append_assoc. rewrite renderOutput_object by assumption.
        rewrite allSpace_skipSpace; [discriminate|].
        exact (prefix_of_spaces ws' "}" z q Hws' Hzq Hq).
      * rewrite renderOutput_afterOpening.
        rewrite Token_allSpace; [discriminate|].
        exact (prefix_of_spaces ws "{" p z Hws Hwsz Hz).
  - (* a scalar *)
    exfalso. apply renderOutput_nil in Hwhole.
    destruct Hwhole as (ws & mid & Hws & [Hb|[Hb _]] & _); rewrite Hb in Hfirst;
      unfold Json.NewDecoder in Hfirst.
    + rewrite Token_open in Hfirst by (assumption || reflexivity).
      inversion Hfirst; subst. discriminate.
    + rewrite Token_open_brace in Hfirst by (assumption || reflexivity).
      inversion Hfirst; subst. discriminate.
Qed.

(** ** A scalar as the first token *)

(** A scan that stops before the end of the input has looked at the byte it
    stops at, and at nothing after it. *)
Lemma scan_lookahead (s : string) :
  forall st stack v c rest,
    Json.scan st stack s = Some (inr (v, String c rest)) ->
    exists a,
      s = a ++ String c rest
      /\ forall t, Json.scan st stack (a ++ String c t) = Some (inr (v, String c t)).
Proof.
  induction s as [|x s IH]; intros st stack v c rest; cbn [Json.scan].
  - destruct (Json.step st stack " "); discriminate.
  - destruct (Json.step st stack x) as [st' stack'|v' [|]|] eqn:Hstep; try discriminate.
    + intros H. apply IH in H. destruct H as (a & -> & Hext).
      exists (String x a). split; [reflexivity|].
      intros t. cbn [append Json.scan]. rewrite Hstep. apply Hext.
    + intros H; inversion H; subst.
      exists (String x ""). split; [reflexivity|].
      intros t. cbn [append Json.scan]. now rewrite Hstep.
    + intros H; inversion H; subst.
      exists "". split; [reflexivity|].
      intros t. cbn [append Json.scan]. now rewrite Hstep.
Qed.

Lemma readValue_lookahead (s : string) (v : Json.value) (c : ascii) (rest : string) :
  Json.readValue s = inr (v, String c rest) ->
  exists a,
    s = a ++ String c rest
    /\ forall t, Json.readValue (a ++ String c t) = inr (v, String c t).
Proof.
  unfold Json.readValue.
  destruct (Json.scan Json.stateBeginValue [] s) as [r|] eqn:Hscan; [|discriminate].
  intros ->. apply scan_lookahead in Hscan. destruct Hscan as (a & Hs & Hext).
  exists a. split; [exact Hs|]. intros t. now rewrite Hext.
Qed.

Lemma tokenValue_lookahead (s : string) (tok : Json.token) (d : Json.Decoder)
  (c : ascii) (rest : string) :
  Json.tokenValue (Json.mkDecoder s Json.tokenTopValue []) = inr (tok, d) ->
  Json.buf d = String c rest ->
  exists a,
    s = a ++ String c rest /\ a <> ""
    /\ forall t,
        Json.tokenValue (Json.mkDecoder (a ++ String c t) Json.tokenTopValue [])
        = inr (tok, withBuf d (String c t)).
Proof.
  unfold Json.tokenValue, Json.DecodeWith. cbn.
  destruct (Json.readValue s) as [e|[v rest0]] eqn:Hread; [discriminate|].
  destruct (Json.decodeScalar v) as [e|tok'] eqn:Hds; [discriminate|].
  intros H Hbuf. inversion H; subst tok' d. cbn in Hbuf. subst rest0.
  pose proof (readValue_length _ _ _ Hread) as Hlen.
  apply readValue_lookahead in Hread. destruct Hread as (a & Hs & Hext).
  exists a. split; [exact Hs|]. split.
  - intros ->. subst s. cbn in Hlen. lia.
  - intros t. rewrite Hext, Hds. reflexivity.
Qed.

(** The first token, when it is a scalar: the bytes it is read from. *)
Lemma Token_first_scalar (body : string) (tok : Json.token) (d : Json.Decoder)
  (c : ascii) (rest : string) :
  Json.Token (Json.NewDecoder body) = inr (tok, d) ->
  Json.tokState d = Json.tokenTopValue ->
  Json.buf d = String c rest ->
  exists a,
    body = a ++ String c rest
    /\ forall t, Json.Token (Json.NewDecoder (a ++ String c t))
                 = inr (tok, withBuf d (String c t)).
Proof.
  unfold Json.Token. intros H Hst Hbuf.
  destruct (Json.peek (Json.NewDecoder body)) as [e|[c0 d1]] eqn:Hp.
  { cbn [Json.Token_loop] in H. rewrite Hp in H. discriminate. }
  rewrite (Token_loop_step _ _ _ _ Hp) in H.
  apply peek_suffix in Hp. destruct Hp as (ws & rest0 & Hbody & Hws & Hc0 & ->).
  cbn [Json.NewDecoder Json.buf Json.tokState Json.tokenStack] in *.
  assert (Hcases :
            Json.tokenValue (Json.mkDecoder (String c0 rest0) Json.tokenTopValue [])
            = inr (tok, d)
            /\ forall rest1,
                Json.Token_loop (S (String.length (ws ++ String c0 rest1)))
                  (Json.mkDecoder (ws ++ String c0 rest1) Json.tokenTopValue [])
                = Some (Json.tokenValue
                          (Json.mkDecoder (String c0 rest1) Json.tokenTopValue []))).
  { assert (Hpk : forall rest1,
               Json.peek (Json.mkDecoder (ws ++ String c0 rest1) Json.tokenTopValue [])
               = inr (c0, Json.mkDecoder (String c0 rest1) Json.tokenTopValue []))
      by (intros; now apply peek_app).
    destruct c0 as [[|] [|] [|] [|] [|] [|] [|] [|]];
      cbv beta iota in H; try discriminate H;
        try (split; [exact H|];
             intros rest1; rewrite (Token_loop_step _ _ _ _ (Hpk rest1)); reflexivity).
    - cbn in H. inversion H; subst. discriminate.
    - cbn in H. inversion H; subst. discriminate. }
  destruct Hcases as [Hval Hloop].
  destruct (tokenValue_lookahead _ _ _ _ _ Hval Hbuf) as (a & Ha & Hne & Hext).
  destruct a as [|c1 a]; [now destruct Hne|].
  cbn [append] in Ha. inversion Ha as [[Hc1 Hrest0]]. subst c1.
  exists (ws ++ String c0 a). split.
  - rewrite Hbody, Hrest0. now rewrite append_assoc.
  - intros t. rewrite append_assoc. cbn [append].
    unfold Json.NewDecoder. cbn [Json.buf]. rewrite Hloop.
    apply (Hext t).
Qed.

(** ** What follows, and what is missing *)

Lemma renderOutput_task_local (body : string) (clock : Clock) (msg : string)
  (r : Run) :
  renderOutput body clock = (Some (TaskError msg), r) ->
  exists consumed,
    body = consumed ++ Json.buf (dec r)
    /\ forall t, renderOutput (consumed ++ t) clock
                 = (Some (TaskError msg), withInput r t).
Proof.
  intros H. pose proof H as Hwhole.
  rewrite renderOutput_afterOpening in H.
  destruct (Json.Token (Json.NewDecoder body)) as [e|[t0 d]] eqn:Hfirst; [discriminate|].
  set (start := readings clock (calls clock)) in *.
  set (clock1 := mkClock (readings clock) (S (calls clock))) in *.
  assert (Hloop : exists a,
             Json.buf d = a ++ Json.buf (dec r) /\ a <> ""
             /\ forall t,
                 afterOpening start (withInput (mkRun d Progress.NewWriter clock1 []) (a ++ t))
                 = (Some (TaskError msg), withInput r t)).
  { unfold afterOpening in H.
    destruct (run_loop start _) as [[[err|] r1]|] eqn:Hloop.
    - inversion H; subst err r1. unfold run_loop in Hloop.
      apply render_loop_local in Hloop. destruct Hloop as [Htask _].
      destruct (Htask msg eq_refl) as (a & Ha & Hne & Hext).
      exists a. cbn [dec] in Ha. repeat split; try assumption.
      intros t. unfold afterOpening. now rewrite Hext.
    - destruct (Json.Token (dec r1)) as [e|[t1 d1]]; discriminate.
    - discriminate. }
  destruct Hloop as (a & Ha & Hne & Hext).
  pose proof (Token_first _ _ _ Hfirst) as
      [(ws & Hws & Hbody & Hst & Hstk)|[(ws & Hws & Hbody & Hst & Hstk)|(Htok & Hst & Hstk)]].
  - (* an array *)
    assert (Hd : d = Json.mkDecoder (Json.buf d) Json.tokenArrayStart [Json.tokenTopValue]).
    { destruct d; cbn in *; now subst. }
    exists ((ws ++ "[") ++ a). split.
    + rewrite Hbody, Ha. rewrite !append_assoc. reflexivity.
    + intros t. rewrite renderOutput_afterOpening. unfold Json.NewDecoder.
      rewrite !append_assoc.
      rewrite (Token_open ws (a ++ t) Json.tokenTopValue [] Hws eq_refl).
      rewrite <- (Hext t). rewrite Hd. reflexivity.
  - (* an object *)
    exfalso. rewrite Hbody in Hwhole.
    rewrite renderOutput_object in Hwhole by assumption.
    destruct (Json.skipSpace (Json.buf d)) as [|c' rest']; [discriminate|].
    destruct (Ascii.eqb c' "}"); [discriminate|].
    destruct (Ascii.eqb c' "]"); discriminate.
  - (* a scalar *)
    destruct a as [|c a]; [now destruct Hne|]. cbn [append] in Ha.
    destruct (Token_first_scalar _ _ _ _ _ Hfirst Hst Ha) as (a0 & Hbody & Htoken).
    exists (a0 ++ String c a). split.
    + rewrite Hbody. now rewrite append_assoc.
    + intros t. rewrite renderOutput_afterOpening.
      rewrite append_assoc. cbn [append]. rewrite Htoken.
      rewrite <- (Hext t). reflexivity.
Qed.

(** X6: when [renderOutput] returns [nil] or the error of [display], the
    bytes after the last one consumed have no influence: with any other bytes
    in their place the value returned, the batches decoded, what is written
    and the clock are the same. *)
Theorem what_follows_is_not_read (body : string) (clock : Clock)
  (res : option Error) (r : Run) :
  renderOutput body clock = (res, r) ->
  res = None \/ (exists msg, res = Some (TaskError msg)) ->
  exists consumed,
    body = consumed ++ Json.buf (dec r)
    /\ forall t, renderOutput (consumed ++ t) clock = (res, withInput r t).
Proof.
  intros H [-> | [msg ->]].
  - destruct (renderOutput_nil_local _ _ _ H) as (consumed & Hb & Hext & _).
    now exists consumed.
  - now apply renderOutput_task_local.
Qed.

Lemma what_follows_is_not_read_witness :
  exists consumed,
    failingStream = consumed ++ Json.buf (dec (snd (renderOutput failingStream clock0)))
    /\ forall t, renderOutput (consumed ++ t) clock0
                 = (Some (TaskError "unauthorized"),
                    withInput (snd (renderOutput failingStream clock0)) t).
Proof.
  apply (what_follows_is_not_read failingStream clock0 (Some (TaskError "unauthorized"))
           (snd (renderOutput failingStream clock0))).
  - vm_compute. reflexivity.
  - right. exists "unauthorized". reflexivity.
Defined.

(** X7: a stream that is rendered without error is not rendered without
    error when it is cut short: on every prefix that stops before the closing
    delimiter [renderOutput] returns an error. *)
Theorem truncated_stream_is_refused (body : string) (clock : Clock) (r : Run)
  (p q : string) :
  renderOutput body clock = (None, r) ->
  body = p ++ q ->
  (String.length (Json.buf (dec r)) < String.length q)%nat ->
  fst (renderOutput p clock) <> None.
Proof.
  intros H Hbody Hlen.
  destruct (renderOutput_nil_local _ _ _ H) as (consumed & Hb & _ & Htrunc).
  rewrite Hbody in Hb. symmetry in Hb. apply append_eq_append in Hb.
  destruct Hb as [(z & Hp & Hz)|(z & Hz & Hc & Hq)].
  - exfalso. rewrite Hz, length_append in Hlen. lia.
  - eapply Htrunc; eassumption.
Qed.

Lemma truncated_stream_is_refused_witness :
  fst (renderOutput truncatedStream clock0) <> None.
Proof.
  apply (truncated_stream_is_refused (truncatedStream ++ "]") clock0
           (snd (renderOutput (truncatedStream ++ "]") clock0)) truncatedStream "]").
  - vm_compute. reflexivity.
  - reflexivity.
  - vm_compute. lia.
Defined.

(** ** A stream of batches *)

Lemma scan_skip (ws s : string) :
  Json.allSpace ws = true ->
  Json.scan Json.stateBeginValue [] (ws ++ s) = Json.scan Json.stateBeginValue [] s.
Proof.
  induction ws as [|c ws IH]; intros Hws; [reflexivity|].
  rewrite allSpace_cons in Hws. apply andb_prop in Hws. destruct Hws as [Hc Hws].
  cbn [append Json.scan Json.step]. unfold Json.beginValue. rewrite Hc.
  now apply IH.
Qed.

Lemma readValue_skip (ws s : string) :
  Json.allSpace ws = true -> Json.readValue (ws ++ s) = Json.readValue s.
Proof.
  intros Hws. unfold Json.readValue.
  rewrite scan_skip by assumption. now rewrite allSpace_app, Hws.
Qed.

Lemma Decode_allowed (s : string) (st : Json.tokenState)
  (stack : list Json.tokenState) :
  Json.tokenValueAllowed st = true ->
  Json.Decode (Json.mkDecoder s st stack)
  = match Json.readValue s with
    | inl e => inl e
    | inr (v, rest) =>
      match Json.unmarshalBatch v with
      | inl e => inl e
      | inr objs => inr (objs, Json.mkDecoder rest (Json.tokenValueEnd st) stack)
      end
    end.
Proof. destruct st; try discriminate; reflexivity. Qed.

(** A batch text in front of any input: the value read and the first byte. *)
Lemma batchText_readValue (text : string) (objs : list ProgressInfo) :
  batchText text objs ->
  exists v ws c text',
    Json.unmarshalBatch v = inr objs
    /\ (forall t, Json.readValue (text ++ t) = inr (v, t))
    /\ text = ws ++ String c text' /\ Json.allSpace ws = true
    /\ Json.isSpace c = false /\ c <> "]"%char /\ c <> "}"%char.
Proof.
  unfold batchText, Json.NewDecoder. rewrite Decode_allowed by reflexivity.
  destruct (Json.readValue text) as [e|[v rest]] eqn:Hread; [discriminate|].
  destruct (Json.unmarshalBatch v) as [e|objs'] eqn:Hum; [discriminate|].
  intros H. inversion H; subst objs' rest. clear H.
  pose proof Hread as Hval.
  apply readValue_value in Hval; [|eapply unmarshalBatch_value; eassumption].
  destruct Hval as (a & Ha & _ & Hext & _). rewrite append_nil_r in Ha. subst a.
  destruct (skipSpace_split text) as (ws & Hsplit & Hws).
  destruct (Json.skipSpace text) as [|c text'] eqn:Hskip.
  { exfalso. rewrite append_nil_r in Hsplit. subst ws.
    rewrite <- (append_nil_r text) in Hread.
    rewrite readValue_skip in Hread by assumption. discriminate. }
  apply skipSpace_head in Hskip.
  exists v, ws, c, text'. repeat split; try assumption.
  - intros ->. rewrite Hsplit, readValue_skip in Hread by assumption. discriminate.
  - intros ->. rewrite Hsplit, readValue_skip in Hread by assumption. discriminate.
Qed.

(** A round of the loop on a batch text, at the start of the array. *)
Lemma batchText_first (text : string) (objs : list ProgressInfo) (t : string)
  (stack : list Json.tokenState) :
  batchText text objs ->
  exists d,
    Json.More (Json.mkDecoder (text ++ t) Json.tokenArrayStart stack) = (true, d)
    /\ Json.Decode d = inr (objs, Json.mkDecoder t Json.tokenArrayComma stack).
Proof.
  intros H. apply batchText_readValue in H.
  destruct H as (v & ws & c & text' & Hum & Hread & Htext & Hws & Hc & Hc1 & Hc2).
  exists (Json.mkDecoder (String c text' ++ t) Json.tokenArrayStart stack). split.
  - unfold Json.More. rewrite Htext, append_assoc. cbn [append].
    rewrite peek_app by assumption.
    apply Ascii.eqb_neq in Hc1, Hc2. now rewrite Hc1, Hc2.
  - rewrite Decode_allowed by reflexivity.
    rewrite <- (readValue_skip ws) by assumption.
    rewrite <- append_assoc, <- Htext, Hread, Hum. reflexivity.
Qed.

(** A round of the loop on a comma and a batch text, after a batch. *)
Lemma batchText_next (text : string) (objs : list ProgressInfo) (t : string)
  (stack : list Json.tokenState) :
  batchText text objs ->
  exists d,
    Json.More (Json.mkDecoder ("," ++ text ++ t) Json.tokenArrayComma stack) = (true, d)
    /\ Json.Decode d = inr (objs, Json.mkDecoder t Json.tokenArrayComma stack).
Proof.
  intros H. apply batchText_readValue in H.
  destruct H as (v & ws & c & text' & Hum & Hread & _).
  exists (Json.mkDecoder ("," ++ text ++ t) Json.tokenArrayComma stack). split.
  - reflexivity.
  - unfold Json.Decode, Json.DecodeWith. cbn. rewrite Hread, Hum. reflexivity.
Qed.

Lemma Token_close_comma (s : string) (st : Json.tokenState) :
  Json.Token (Json.mkDecoder ("]" ++ s) Json.tokenArrayComma [st])
  = inr (Json.Delim "]", Json.mkDecoder s (Json.tokenValueEnd st) []).
Proof. reflexivity. Qed.

Lemma ticks_tick2 (n : nat) (clock : Clock) :
  ticks (2 * n) (tick2 clock) = ticks (2 * S n) clock.
Proof. unfold ticks, tick2. cbn [readings calls]. f_equal. lia. Qed.

(** The loop over the batches that follow the first one. *)
Lemma run_loop_tail (start : Z) (rest : string) (texts : list string) :
  forall batches out clock decoded0,
    Forall2 batchText texts batches ->
    Forall (Forall noError) batches ->
    run_loop start
      (mkRun (Json.mkDecoder (tailTexts texts ++ "]" ++ rest) Json.tokenArrayComma
                             [Json.tokenTopValue])
             (Progress.mkWriter [] out) clock decoded0)
    = Some (None,
            mkRun (Json.mkDecoder ("]" ++ rest) Json.tokenArrayComma [Json.tokenTopValue])
                  (Progress.mkWriter [] (out ++ screensAt start clock batches))
                  (ticks (2 * List.length batches) clock) (decoded0 ++ batches)).
Proof.
  induction texts as [|text texts IH]; intros batches out clock decoded0 Htexts Hok.
  - inversion Htexts; subst. cbn [tailTexts append screensAt List.length].
    rewrite !app_nil_r. erewrite run_loop_done by reflexivity.
    destruct clock; reflexivity.
  - inversion Htexts as [|? objs ? batches' Htext Htexts']; subst.
    inversion Hok as [|? ? Hobjs Hok']; subst.
    cbn [tailTexts]. rewrite !append_assoc.
    destruct (batchText_next text objs (tailTexts texts ++ "]" ++ rest)
                [Json.tokenTopValue] Htext) as (d & Hmore & Hdec).
    erewrite run_loop_batch;
      [|reflexivity|cbn [dec]; exact Hmore|exact Hdec|exact Hobjs].
    cbn [fw clk decoded Progress.stdout].
    rewrite IH with (batches := batches') by assumption.
    cbn [screensAt List.length]. rewrite <- !app_assoc. cbn [app].
    now rewrite ticks_tick2.
Qed.

Lemma renderOutput_batches (texts : list string) (batches : list (list ProgressInfo))
  (rest : string) (clock : Clock) :
  Forall2 batchText texts batches ->
  Forall (Forall noError) batches ->
  renderOutput ("[" ++ joinTexts texts ++ "]" ++ rest) clock
  = (None,
     mkRun (Json.mkDecoder rest Json.tokenTopValue [])
           (Progress.mkWriter []
              (screensAt (readings clock (calls clock))
                         (mkClock (readings clock) (S (calls clock))) batches))
           (ticks (2 * List.length batches) (mkClock (readings clock) (S (calls clock))))
           batches).
Proof.
  intros Htexts Hok. rewrite renderOutput_eq. cbv zeta.
  unfold Json.NewDecoder. cbn [dec].
  change ("[" ++ joinTexts texts ++ "]" ++ rest)
    with ("" ++ "[" ++ joinTexts texts ++ "]" ++ rest).
  rewrite (Token_open "" (joinTexts texts ++ "]" ++ rest) Json.tokenTopValue [])
    by reflexivity.
  cbn [app].
  destruct Htexts as [|text objs texts batches Htext Htexts].
  - cbn [joinTexts append]. erewrite run_loop_done by reflexivity.
    reflexivity.
  - inversion Hok as [|? ? Hobjs Hok']; subst.
    cbn [joinTexts]. rewrite append_assoc.
    destruct (batchText_first text objs (tailTexts texts ++ "]" ++ rest)
                [Json.tokenTopValue] Htext) as (d & Hmore & Hdec).
    erewrite run_loop_batch;
      [|reflexivity|cbn [dec]; exact Hmore|exact Hdec|exact Hobjs].
    cbn [fw clk decoded Progress.stdout Progress.NewWriter app].
    rewrite run_loop_tail with (batches := batches) by assumption.
    cbn [dec fw clk decoded]. rewrite Token_close_comma.
    cbn [screensAt List.length app Json.tokenValueEnd].
    now rewrite ticks_tick2.
Qed.

(** X8: the stream made of a left bracket, the texts [t1], ..., [tn]
    with commas between them, a right bracket and any [rest], where [Decode]
    reads each [ti] alone to its end as a batch [bi] without error message, is
    rendered as the screens of [b1], ..., [bn] in this order, two clock
    readings each; [renderOutput] returns [nil] and leaves [rest] unread. *)
Theorem stream_of_batches_is_rendered (texts : list string)
  (batches : list (list ProgressInfo)) (rest : string) (clock : Clock) :
  Forall2 batchText texts batches ->
  Forall (Forall noError) batches ->
  renderOutput ("[" ++ joinTexts texts ++ "]" ++ rest) clock
  = (None,
     mkRun (Json.mkDecoder rest Json.tokenTopValue [])
           (Progress.mkWriter []
              (screensAt (readings clock (calls clock))
                         (mkClock (readings clock) (S (calls clock))) batches))
           (ticks (2 * List.length batches) (mkClock (readings clock) (S (calls clock))))
           batches).
Proof. apply renderOutput_batches. Qed.

Lemma stream_of_batches_is_rendered_witness :
  Forall2 batchText sampleTexts sampleBatches
  /\ Forall (Forall noError) sampleBatches
  /\ renderOutput ("[" ++ joinTexts sampleTexts ++ "]" ++ "") clock0
     = (None,
        mkRun (Json.mkDecoder "" Json.tokenTopValue [])
              (Progress.mkWriter []
                 (screensAt (readings clock0 (calls clock0))
                            (mkClock (readings clock0) (S (calls clock0))) sampleBatches))
              (ticks (2 * List.length sampleBatches)
                     (mkClock (readings clock0) (S (calls clock0))))
              sampleBatches).
Proof.
  assert (H1 : Forall2 batchText sampleTexts sampleBatches).
  { repeat constructor; vm_compute; reflexivity. }
  assert (H2 : Forall (Forall noError) sampleBatches).
  { repeat constructor. }
  split; [exact H1|]. split; [exact H2|].
  apply (stream_of_batches_is_rendered sampleTexts sampleBatches "" clock0 H1 H2).
Defined.

(** ** The decoder moves forward *)

Lemma Token_loop_suffix (fuel : nat) :
  forall d tok d',
    Json.Token_loop fuel d = Some (inr (tok, d')) ->
    exists a, Json.buf d = a ++ Json.buf d' /\ a <> "".
Proof.
  induction fuel as [|fuel IH]; intros d tok d' H; [discriminate|].
  destruct (Json.peek d) as [e|[c d1]] eqn:Hp.
  { cbn [Json.Token_loop] in H. rewrite Hp in H. discriminate. }
  rewrite (Token_loop_step _ _ _ _ Hp) in H.
  apply peek_suffix in Hp. destruct Hp as (ws & rest & Hbuf & Hws & Hc & ->).
  cbn [Json.buf Json.tokState Json.tokenStack] in H.
  assert (Hadv : forall dx,
             Json.buf dx = rest \/
             (exists a, rest = a ++ Json.buf dx) ->
             exists a, Json.buf d = a ++ Json.buf dx /\ a <> "").
  { intros dx [Hx|[a Ha]].
    - exists (ws ++ String c ""). rewrite Hbuf, Hx, append_assoc. split; [reflexivity|].
      intros H0. apply append_nil_inv in H0. destruct H0 as [_ H0]. discriminate.
    - exists (ws ++ String c a). rewrite Hbuf, Ha, append_assoc. split; [reflexivity|].
      intros H0. apply append_nil_inv in H0. destruct H0 as [_ H0]. discriminate. }
  assert (Hrec : forall st stack,
             Json.Token_loop fuel
               (Json.advance (Json.mkDecoder (String c rest) (Json.tokState d)
                                             (Json.tokenStack d)) st stack)
             = Some (inr (tok, d')) ->
             exists a, Json.buf d = a ++ Json.buf d' /\ a <> "").
  { intros st stack Hl. apply IH in Hl. cbn in Hl. destruct Hl as (a & Ha & _).
    apply Hadv. right. now exists a. }
  assert (Hval : forall (um : Json.value -> Json.error + Json.token) dx x d2,
             Json.DecodeWith um dx = inr (x, d2) ->
             Json.buf dx = String c rest ->
             exists a, Json.buf d = a ++ Json.buf d2 /\ a <> "").
  { clear H. intros um dx x d3 Hdw Hdx. pose proof (DecodeWith_length _ _ _ _ Hdw) as Hlen.
    unfold Json.DecodeWith in Hdw.
    destruct (Json.tokenPrepareForDecode dx) as [e|d2] eqn:Hprep; [discriminate|].
    apply tokenPrepareForDecode_suffix in Hprep. destruct Hprep as [a1 Ha1].
    destruct (negb (Json.tokenValueAllowed (Json.tokState d2))); [discriminate|].
    destruct (Json.readValue (Json.buf d2)) as [e|[v rest2]] eqn:Hread; [discriminate|].
    apply readValue_suffix in Hread. destruct Hread as [a2 Ha2].
    destruct (um v); [discriminate|]. inversion Hdw; subst. cbn in *.
    exists (ws ++ a1 ++ a2). split.
    - rewrite Hbuf, <- Hdx, Ha1, Ha2. now rewrite !append_assoc.
    - intros H0. apply append_nil_inv in H0. destruct H0 as [_ H0].
      apply append_nil_inv in H0. destruct H0 as [-> ->].
      rewrite Ha1, Ha2 in Hlen. cbn in Hlen. lia. }
  destruct c as [[|] [|] [|] [|] [|] [|] [|] [|]]; cbv beta iota in H;
    repeat match type of H with
           | Some _ = Some _ => injection H as H
           | (if ?b then _ else _) = _ => destruct b
           | match Json.tokState d with _ => _ end = _ => destruct (Json.tokState d)
           | (let '(_, _) := ?x in _) = _ => destruct x
           | match Json.DecodeWith ?um ?dx with _ => _ end = _ =>
             destruct (Json.DecodeWith um dx) as [?|[? ?]] eqn:?
           end;
    try discriminate H;
    try (apply Hrec in H; exact H);
    try (unfold Json.tokenValue in H; cbn [Json.tokState] in H;
         match type of H with
         | (if ?b then _ else _) = _ => destruct b; [discriminate H|]
         end;
         eapply Hval; [exact H|reflexivity]);
    try (inversion H; subst; apply Hadv; left; reflexivity).
  all: subst; cbn [Json.buf]; eapply Hval; [eassumption|reflexivity].
Qed.

Lemma Token_suffix (d d' : Json.Decoder) (tok : Json.token) :
  Json.Token d = inr (tok, d') ->
  exists a, Json.buf d = a ++ Json.buf d' /\ a <> "".
Proof.
  unfold Json.Token.
  destruct (Json.Token_loop _ d) as [[e|[tok' d'']]|] eqn:Hloop; try discriminate.
  intros H; inversion H; subst. eapply Token_loop_suffix; eassumption.
Qed.

(** What the loop consumes: at least one byte for each batch it decodes. *)
Lemma render_loop_progress (start : Z) (fuel : nat) :
  forall r res r',
    render_loop fuel start r = Some (res, r') ->
    exists a news,
      Json.buf (dec r) = a ++ Json.buf (dec r')
      /\ decoded r' = (decoded r ++ news)%list
      /\ (List.length news <= String.length a)%nat.
Proof.
  induction fuel as [|fuel IH]; intros r res r' Hloop; [discriminate|].
  cbn [render_loop] in Hloop.
  destruct (Json.More (dec r)) as [more d] eqn:Hmore.
  apply More_suffix in Hmore. destruct Hmore as (ws & Hws & _).
  assert (Hhere : forall d1 : Json.Decoder,
             Json.buf d1 = Json.buf d ->
             exists a news,
               Json.buf (dec r) = a ++ Json.buf d1
               /\ decoded r = (decoded r ++ news)%list
               /\ (List.length news <= String.length a)%nat).
  { intros d1 Hd1. exists ws, []. rewrite app_nil_r, Hd1. cbn. repeat split; [assumption|lia]. }
  destruct more.
  2:{ inversion Hloop; subst. now apply Hhere. }
  destruct (Json.Decode d) as [e|[objs d']] eqn:Hdec.
  { inversion Hloop; subst. now apply Hhere. }
  pose proof (DecodeWith_length _ _ _ _ Hdec) as Hlen.
  apply Decode_suffix in Hdec. destruct Hdec as [a0 Ha0].
  assert (Ha0len : (1 <= String.length a0)%nat).
  { rewrite Ha0, length_append in Hlen. lia. }
  destruct (display Tabwriter.NewWriter objs start (clk r)) as [[tw c] [msg|]].
  - inversion Hloop; subst. exists (ws ++ a0), [objs]. cbn [dec decoded].
    repeat split.
    + rewrite Hws, Ha0. now rewrite append_assoc.
    + rewrite length_append. cbn. lia.
  - apply IH in Hloop. cbn [dec decoded] in Hloop.
    destruct Hloop as (a1 & news & Ha1 & Hnews & Hl).
    exists (ws ++ a0 ++ a1), (objs :: news). repeat split.
    + rewrite Hws, Ha0, Ha1. now rewrite !append_assoc.
    + rewrite Hnews. now rewrite <- app_assoc.
    + rewrite !length_append. cbn. lia.
Qed.

(** X9: at its return [renderOutput] has consumed a prefix of the stream
    and left the rest of it unread, and it has decoded no more batches than it
    has consumed bytes: each round of the loop moves forward in the stream. *)
Theorem decoder_moves_forward (body : string) (clock : Clock) :
  let r := snd (renderOutput body clock) in
  exists consumed,
    body = consumed ++ Json.buf (dec r)
    /\ (List.length (decoded r) <= String.length consumed)%nat.
Proof.
  cbv zeta. rewrite renderOutput_eq. cbv zeta. cbn [dec].
  destruct (Json.Token (Json.NewDecoder body)) as [e|[t d]] eqn:Hfirst.
  { exists "". cbn. split; [reflexivity|lia]. }
  apply Token_suffix in Hfirst. cbn in Hfirst. destruct Hfirst as (a0 & Ha0 & _).
  destruct (run_loop _ _) as [[res r1]|] eqn:Hloop.
  2:{ now apply run_loop_total in Hloop. }
  unfold run_loop in Hloop. apply render_loop_progress in Hloop.
  cbn [dec decoded app] in Hloop. destruct Hloop as (a1 & news & Ha1 & Hnews & Hl).
  assert (Hr1 : exists consumed,
             body = consumed ++ Json.buf (dec r1)
             /\ (List.length (decoded r1) <= String.length consumed)%nat).
  { exists (a0 ++ a1). rewrite Ha0, Ha1, Hnews, append_assoc, length_append.
    split; [reflexivity|lia]. }
  destruct res as [err|]; [exact Hr1|].
  destruct (Json.Token (dec r1)) as [e|[t' d']] eqn:Hlast; [exact Hr1|].
  apply Token_suffix in Hlast. destruct Hlast as (a2 & Ha2 & _).
  cbn [snd dec decoded].
  exists (a0 ++ a1 ++ a2). rewrite Ha0, Ha1, Ha2, Hnews, !append_assoc, !length_append.
  split; [reflexivity|lia].
Qed.

(** ** The clock *)

Lemma display_error_clock (w : Writer) (objs : list ProgressInfo) (s1 s2 : Z)
  (c1 c2 : Clock) :
  snd (display w objs s1 c1) = snd (display w objs s2 c2).
Proof.
  destruct (first_error objs) as [Hok|(pre & s & post & -> & Hpre & Hs)].
  - now rewrite !display_noError.
  - now rewrite !display_hasError.
Qed.

Lemma render_loop_clock (fuel : nat) :
  forall s1 s2 r1 r2,
    dec r1 = dec r2 -> decoded r1 = decoded r2 ->
    match render_loop fuel s1 r1, render_loop fuel s2 r2 with
    | Some (res1, r1'), Some (res2, r2') =>
      res1 = res2 /\ dec r1' = dec r2' /\ decoded r1' = decoded r2'
    | None, None => True
    | _, _ => False
    end.
Proof.
  induction fuel as [|fuel IH]; intros s1 s2 r1 r2 Hd Hds; [exact I|].
  cbn [render_loop]. rewrite Hd.
  destruct (Json.More (dec r2)) as [[|] d]; [|rewrite Hds; auto].
  destruct (Json.Decode d) as [e|[objs d']]; [rewrite Hds; auto|].
  pose proof (display_error_clock Tabwriter.NewWriter objs s1 s2 (clk r1) (clk r2)) as Herr.
  destruct (display Tabwriter.NewWriter objs s1 (clk r1)) as [[tw1 k1] err1].
  destruct (display Tabwriter.NewWriter objs s2 (clk r2)) as [[tw2 k2] err2].
  cbn [snd] in Herr. subst err2.
  destruct err1 as [msg|].
  - rewrite Hds. auto.
  - apply IH; cbn [dec decoded]; [reflexivity|now rewrite Hds].
Qed.

Lemma screensAt_events (start : Z) (bs : list (list ProgressInfo)) :
  forall clock,
    map (@removelast printed) (screensAt start clock bs) = map (map eventLine) bs.
Proof.
  induction bs as [|b bs IH]; intros clock; [reflexivity|].
  cbn [screensAt map]. rewrite IH. f_equal.
  unfold screen. apply removelast_last.
Qed.

(** X15: the clock has no say in what [renderOutput] returns, in where the
    decoder stops, in the batches decoded or in the event lines written: two
    runs on the same stream with different clocks differ in their summary
    lines at most. *)
Theorem clock_changes_summaries_only (body : string) (c1 c2 : Clock) :
  let r1 := renderOutput body c1 in
  let r2 := renderOutput body c2 in
  fst r1 = fst r2
  /\ dec (snd r1) = dec (snd r2)
  /\ decoded (snd r1) = decoded (snd r2)
  /\ map (@removelast printed) (stdout (snd r1))
     = map (@removelast printed) (stdout (snd r2)).
Proof.
  cbv zeta.
  assert (H : fst (renderOutput body c1) = fst (renderOutput body c2)
              /\ dec (snd (renderOutput body c1)) = dec (snd (renderOutput body c2))
              /\ decoded (snd (renderOutput body c1))
                 = decoded (snd (renderOutput body c2))).
  { rewrite !renderOutput_eq. cbv zeta. cbn [dec].
    destruct (Json.Token (Json.NewDecoder body)) as [e|[t d]]; [auto|].
    pose proof (render_loop_clock (S (String.length (Json.buf d)))
                  (readings c1 (calls c1)) (readings c2 (calls c2))
                  (mkRun d Progress.NewWriter (mkClock (readings c1) (S (calls c1))) [])
                  (mkRun d Progress.NewWriter (mkClock (readings c2) (S (calls c2))) [])
                  eq_refl eq_refl) as Hloop.
    unfold run_loop. cbn [dec Json.buf].
    destruct (render_loop _ (readings c1 (calls c1)) _) as [[res1 r1]|];
      destruct (render_loop _ (readings c2 (calls c2)) _) as [[res2 r2]|];
      try contradiction; [|auto].
    destruct Hloop as (-> & Hd & Hds).
    destruct res2 as [err|]; [auto|].
    rewrite Hd. destruct (Json.Token (dec r2)) as [e|[t' d']]; auto. }
  destruct H as (Hres & Hd & Hds). repeat split; try assumption.
  destruct (renderOutput_exact body c1) as (Ho1 & _).
  destruct (renderOutput_exact body c2) as (Ho2 & _).
  cbv zeta in Ho1, Ho2. rewrite Ho1, Ho2, !screensAt_events.
  now rewrite Hres, Hds.
Qed.
